(** * LampReasoning: the arithmetic sandbox and the bounded-retry orchestration

    A shallow embedding of [main.py], [app.py] and the local part of
    [agents.py].

    - Python [str] is modelled as a byte string ([string]); text is taken to
      be ASCII, so [lower], [strip] and the digit class act on ASCII only.
    - A [dict] with string keys is a [gmap string _]. The order of insertion,
      which Python keeps, is not modelled: the keys that the loops write stay
      distinct when [expected_values] shortens them, so the order in which the
      context is traversed does not show.
    - The ordinal of a step is an integer, as the plan schema has it.
    - A Python [float] is a binary64 number ([spec_float], precision 53).
    - The host interpreter (parser, byte-compiler, builtins, arithmetic
      beyond integers, [str()] of floats) is a record [host] that every
      definition takes as a parameter.
    - The four remote agents are oracles over an abstract [world]; every call
      is logged with its arguments. *)

From Stdlib Require Import SpecFloat Ascii.
From stdpp Require Import gmap strings list fin_maps pretty.

#[local] Set Warnings "-register-all".
Local Open Scope Z_scope.

(** ** Exceptions *)

(** An exception: its class name and [str(exc)]. *)
Record exn := Exn { exc_class : string; exc_str : string }.

Inductive result (A : Type) : Type :=
| Ok (a : A)
| Raised (e : exn).
Arguments Ok {A} a.
Arguments Raised {A} e.

Definition rbind {A B} (m : result A) (k : A → result B) : result B :=
  match m with
  | Ok a => k a
  | Raised e => Raised e
  end.

Notation "'let*' x ':=' m 'in' k" := (rbind m (λ x, k))
  (at level 10, x pattern, m at level 100, k at level 200).

(** ** String methods *)

Module Str.

Fixpoint startswith (prefix s : string) : bool :=
  match prefix, s with
  | EmptyString, _ => true
  | String a p, String b s' => if Ascii.eqb a b then startswith p s' else false
  | String _ _, EmptyString => false
  end.

Fixpoint endswith (suffix s : string) : bool :=
  if String.eqb s suffix then true
  else match s with
       | EmptyString => false
       | String _ s' => endswith suffix s'
       end.

Definition is_upper (c : ascii) : bool :=
  let n := Ascii.N_of_ascii c in ((65 <=? n) && (n <=? 90))%N.

Definition lower_char (c : ascii) : ascii :=
  if is_upper c then Ascii.ascii_of_N (Ascii.N_of_ascii c + 32) else c.

Fixpoint lower (s : string) : string :=
  match s with
  | EmptyString => EmptyString
  | String c s' => String (lower_char c) (lower s')
  end.

(** [s.replace(old, new)] for a non-empty [old]: every occurrence, left to
    right, without overlap. [skip] counts the characters of a matched
    occurrence that remain to be dropped. *)
Fixpoint replace_go (old new : string) (skip : nat) (s : string) : string :=
  match s with
  | EmptyString => EmptyString
  | String c s' =>
      match skip with
      | S k => replace_go old new k s'
      | O =>
          if startswith old s
          then new +:+ replace_go old new (Nat.pred (String.length old)) s'
          else String c (replace_go old new O s')
      end
  end.

Definition replace (old new s : string) : string := replace_go old new O s.

(** ASCII white space as [str.strip] sees it. *)
Definition is_space (c : ascii) : bool :=
  let n := Ascii.N_of_ascii c in
  (((9 <=? n) && (n <=? 13)) || ((28 <=? n) && (n <=? 32)))%N.

Fixpoint lstrip (s : string) : string :=
  match s with
  | EmptyString => EmptyString
  | String c s' => if is_space c then lstrip s' else s
  end.

Definition strip (s : string) : string :=
  String.rev (lstrip (String.rev (lstrip s))).

Definition is_digit (c : ascii) : bool :=
  let n := Ascii.N_of_ascii c in ((48 <=? n) && (n <=? 57))%N.

End Str.

Arguments Str.startswith : simpl never.
Arguments Str.endswith : simpl never.
Arguments Str.lower : simpl never.
Arguments Str.replace : simpl never.
Arguments Str.strip : simpl never.

(** ** Values *)

Definition float := spec_float.

(** The objects a snippet or the context can hold. [VObject] is any other host
    object (a builtin function, a module, ...), known by a name. *)
Inductive value : Type :=
| VNone
| VInt (n : Z)
| VFloat (f : float)
| VComplex (re im : float)
| VStr (s : string)
| VObject (name : string).

(** The context, [intermediate_results] in the source. *)
Abbreviation dict := (gmap string value).

(** Dictionary objects, by address. *)
Abbreviation heap := (gmap nat dict).

(** ** The syntax tree

    [ast.AST] is one dynamically typed family: every node, operator and
    expression context is an instance. [Other cls children] stands for a node
    of any class that is not spelled out, with its child nodes in field
    order. *)

Inductive constant : Type :=
| CNone
| CBool (b : bool)
| CInt (n : Z)
| CFloat (f : float)
| CComplex (re im : float)
| CStr (s : string)
| CBytes (s : string)
| CEllipsis.

Inductive ast : Type :=
| Module_ (body : list ast)
| Expression (body : ast)
| Assign (targets : list ast) (value : ast)
| BinOp (left op right : ast)
| UnaryOp (op operand : ast)
| Constant (value : constant)
| Name (id : string) (ctx : ast)
| Load | Store | Del
| Add | Sub | Mult | MatMult | Div | Mod | Pow
| LShift | RShift | BitOr | BitXor | BitAnd | FloorDiv
| Invert | Not | UAdd | USub
| Other (cls : string) (children : list ast).

(** [type(node).__name__] *)
Definition class_name (node : ast) : string :=
  match node with
  | Module_ _ => "Module" | Expression _ => "Expression"
  | Assign _ _ => "Assign" | BinOp _ _ _ => "BinOp" | UnaryOp _ _ => "UnaryOp"
  | Constant _ => "Constant" | Name _ _ => "Name"
  | Load => "Load" | Store => "Store" | Del => "Del"
  | Add => "Add" | Sub => "Sub" | Mult => "Mult" | MatMult => "MatMult"
  | Div => "Div" | Mod => "Mod" | Pow => "Pow"
  | LShift => "LShift" | RShift => "RShift" | BitOr => "BitOr"
  | BitXor => "BitXor" | BitAnd => "BitAnd" | FloorDiv => "FloorDiv"
  | Invert => "Invert" | Not => "Not" | UAdd => "UAdd" | USub => "USub"
  | Other cls _ => cls
  end.

(** [ast.iter_child_nodes]: the child nodes in field order. *)
Definition iter_child_nodes (node : ast) : list ast :=
  match node with
  | Module_ body => body
  | Expression body => [body]
  | Assign targets value => targets ++ [value]
  | BinOp l op r => [l; op; r]
  | UnaryOp op operand => [op; operand]
  | Name _ ctx => [ctx]
  | Other _ children => children
  | _ => []
  end.

Fixpoint size (node : ast) : nat :=
  match node with
  | Module_ body => S (list_sum (map size body))
  | Expression body => S (size body)
  | Assign targets value => S (list_sum (map size targets) + size value)
  | BinOp l op r => S (size l + size op + size r)
  | UnaryOp op operand => S (size op + size operand)
  | Name _ ctx => S (size ctx)
  | Other _ children => S (list_sum (map size children))
  | _ => 1%nat
  end.

(** [ast.walk]: breadth first. The queue is [todo]; a node is popped from the
    left, its children are appended on the right, and the node is yielded.
    [fuel] bounds the number of pops; [walk] gives as many as the tree has
    nodes. *)
Fixpoint walk_queue (fuel : nat) (todo : list ast) : list ast :=
  match fuel with
  | O => []
  | S fuel' =>
      match todo with
      | [] => []
      | node :: rest => node :: walk_queue fuel' (rest ++ iter_child_nodes node)
      end
  end.

Definition walk (node : ast) : list ast := walk_queue (size node) [node].

(** ** The validator *)

(** The classes of [_ALLOWED_AST_NODES], in the order of the source. *)
Definition _ALLOWED_AST_NODES : list string :=
  ["Expression"; "Module"; "Assign"; "Load"; "Store"; "BinOp"; "UnaryOp";
   "Num"; "Name"; "Add"; "Sub"; "Mult"; "Div"; "FloorDiv"; "Pow"; "Mod";
   "USub"].

(** [isinstance(node, cls)] for one class of the tuple. [ast.Num] is the
    legacy alias: its instances are the [Constant] nodes whose value is an
    [int], [float] or [complex] and not a [bool]. *)
Definition is_num (node : ast) : bool :=
  match node with
  | Constant (CInt _) | Constant (CFloat _) | Constant (CComplex _ _) => true
  | _ => false
  end.

Definition instance_of (node : ast) (cls : string) : bool :=
  if String.eqb cls "Num" then is_num node || String.eqb (class_name node) "Num"
  else String.eqb (class_name node) cls.

Definition isinstance (node : ast) (classes : list string) : bool :=
  existsb (instance_of node) classes.

Definition allowed (node : ast) : bool := isinstance node _ALLOWED_AST_NODES.

(** The loop of [_validate_ast] over the nodes that [ast.walk] yields. *)
Fixpoint validate_nodes (nodes : list ast) : result unit :=
  match nodes with
  | [] => Ok tt
  | child :: rest =>
      if negb (allowed child)
      then Raised (Exn "ValueError" ("Disallowed Python syntax: " +:+ class_name child))
      else validate_nodes rest
  end.

Definition _validate_ast (node : ast) : result unit := validate_nodes (walk node).

(** ** The host interpreter *)

(** What the sandbox takes from CPython without this development modelling
    it: the parser, what [compile] refuses in a tree that the validator let
    through, the builtins that a name falls back to, arithmetic on anything
    but two integers with an integer result, and [str()] of floats, complex
    numbers and other objects. *)
Record host := Host {
  ast_parse : string → result ast;
  compile_check : ast → result unit;
  builtins : string → option value;
  host_binop : ast → value → value → result value;
  host_unaryop : ast → value → result value;
  host_str : value → string
}.

Section Sandbox.

Variable py : host.

Definition const_value (c : constant) : value :=
  match c with
  | CNone => VNone
  | CBool true => VObject "True"
  | CBool false => VObject "False"
  | CInt n => VInt n
  | CFloat f => VFloat f
  | CComplex re im => VComplex re im
  | CStr s => VStr s
  | CBytes s => VObject "bytes"
  | CEllipsis => VObject "Ellipsis"
  end.

(** A binary operator on two values. On two integers [+], [-], [*], [//],
    [%] and [**] with a non-negative exponent are exact; floor division and
    modulo round towards minus infinity, as [Z.div] and [Z.modulo] do. The
    messages are those of CPython 3.11. *)
Definition eval_binop (op : ast) (a b : value) : result value :=
  match op, a, b with
  | Add, VInt x, VInt y => Ok (VInt (x + y))
  | Sub, VInt x, VInt y => Ok (VInt (x - y))
  | Mult, VInt x, VInt y => Ok (VInt (x * y))
  | FloorDiv, VInt x, VInt y =>
      if y =? 0
      then Raised (Exn "ZeroDivisionError" "integer division or modulo by zero")
      else Ok (VInt (x `div` y))
  | Mod, VInt x, VInt y =>
      if y =? 0
      then Raised (Exn "ZeroDivisionError" "integer modulo by zero")
      else Ok (VInt (x `mod` y))
  | Pow, VInt x, VInt y =>
      if 0 <=? y then Ok (VInt (x ^ y)) else host_binop py op a b
  | _, _, _ => host_binop py op a b
  end.

Definition eval_unaryop (op : ast) (a : value) : result value :=
  match op, a with
  | USub, VInt x => Ok (VInt (- x))
  | USub, VFloat f => Ok (VFloat (SFopp f))
  | _, _ => host_unaryop py op a
  end.

(** Name lookup of module-level code run with separate locals and an empty
    globals dictionary: the locals, then the builtins. *)
Definition load_name (scope : dict) (id : string) : result value :=
  match scope !! id with
  | Some v => Ok v
  | None =>
      match builtins py id with
      | Some v => Ok v
      | None => Raised (Exn "NameError" ("name '" +:+ id +:+ "' is not defined"))
      end
  end.

Fixpoint eval_expr (scope : dict) (e : ast) : result value :=
  match e with
  | Constant c => Ok (const_value c)
  | Name id Load => load_name scope id
  | BinOp l op r =>
      let* a := eval_expr scope l in
      let* b := eval_expr scope r in
      eval_binop op a b
  | UnaryOp op operand =>
      let* a := eval_expr scope operand in
      eval_unaryop op a
  | _ => Raised (Exn "TypeError" ("expected some sort of expr, but got " +:+ class_name e))
  end.

(** Binding a value to one target of an assignment. *)
Definition store_target (v : value) (scope : dict) (target : ast) : result dict :=
  match target with
  | Name id Store => Ok (<[id := v]> scope)
  | _ => Raised (Exn "TypeError" ("cannot assign to " +:+ class_name target))
  end.

Fixpoint store_targets (v : value) (scope : dict) (targets : list ast) : result dict :=
  match targets with
  | [] => Ok scope
  | t :: ts =>
      let* scope' := store_target v scope t in
      store_targets v scope' ts
  end.

Definition exec_stmt (scope : dict) (s : ast) : result dict :=
  match s with
  | Assign targets value =>
      let* v := eval_expr scope value in
      store_targets v scope targets
  | _ => Raised (Exn "TypeError" ("expected some sort of stmt, but got " +:+ class_name s))
  end.

Fixpoint exec_body (scope : dict) (body : list ast) : result dict :=
  match body with
  | [] => Ok scope
  | s :: rest =>
      let* scope' := exec_stmt scope s in
      exec_body scope' rest
  end.

(** [exec(compiled, {}, local_scope)] *)
Definition exec_ (tree : ast) (local_scope : dict) : result dict :=
  match tree with
  | Module_ body => exec_body local_scope body
  | _ => Raised (Exn "TypeError" "expected Module node")
  end.

(** The body of the [try] block of [safe_exec]. *)
Definition safe_exec_try (code_str : string) (context : dict) : result value :=
  let* tree := ast_parse py code_str in
  let* _ := _validate_ast tree in
  let* _ := compile_check py tree in
  let local_scope := <["result" := VNone]> context in
  let* local_scope' := exec_ tree local_scope in
  Ok (default VNone (local_scope' !! "result")).

Definition safe_exec (code_str : string) (context : dict) : value :=
  match safe_exec_try code_str context with
  | Ok v => v
  | Raised exc => VStr ("EXECUTION_ERROR: " +:+ exc_str exc)
  end.

(** *** The same call, with the dictionaries as objects

    Python hands [context] over by reference. Below the dictionaries are
    objects in a heap, a statement writes to the object its scope refers to,
    and [dict(context)] makes a new object. *)

(** [dict(d)]: a new object with the entries of [d]. *)
Definition new_dict (d : dict) (h : heap) : nat * heap :=
  let a := fresh (dom h) in (a, <[a := d]> h).

(** [scope[id] = v] on the object at [scope]. *)
Definition setitem (scope : nat) (id : string) (v : value) (h : heap) : heap :=
  alter (insert id v) scope h.

Definition store_target_at (v : value) (locals : nat) (target : ast) (h : heap)
  : result unit * heap :=
  match target with
  | Name id Store => (Ok tt, setitem locals id v h)
  | _ => (Raised (Exn "TypeError" ("cannot assign to " +:+ class_name target)), h)
  end.

Fixpoint store_targets_at (v : value) (locals : nat) (targets : list ast) (h : heap)
  : result unit * heap :=
  match targets with
  | [] => (Ok tt, h)
  | t :: ts =>
      match store_target_at v locals t h with
      | (Ok _, h') => store_targets_at v locals ts h'
      | (Raised e, h') => (Raised e, h')
      end
  end.

Definition no_object {A} : result A :=
  Raised (Exn "SystemError" "dangling reference").

Definition exec_stmt_at (locals : nat) (s : ast) (h : heap) : result unit * heap :=
  match h !! locals with
  | None => (no_object, h)
  | Some scope =>
      match s with
      | Assign targets value =>
          match eval_expr scope value with
          | Ok v => store_targets_at v locals targets h
          | Raised e => (Raised e, h)
          end
      | _ => (Raised (Exn "TypeError"
                        ("expected some sort of stmt, but got " +:+ class_name s)), h)
      end
  end.

Fixpoint exec_body_at (locals : nat) (body : list ast) (h : heap)
  : result unit * heap :=
  match body with
  | [] => (Ok tt, h)
  | s :: rest =>
      match exec_stmt_at locals s h with
      | (Ok _, h') => exec_body_at locals rest h'
      | (Raised e, h') => (Raised e, h')
      end
  end.

Definition exec_at (tree : ast) (locals : nat) (h : heap) : result unit * heap :=
  match tree with
  | Module_ body => exec_body_at locals body h
  | _ => (Raised (Exn "TypeError" "expected Module node"), h)
  end.

(** [safe_exec(code_str, context)] for the dictionary object at [context]:
    the value returned and the heap afterwards. The heap then still holds the
    copy, which nothing refers to any more. *)
Definition safe_exec_at (code_str : string) (context : nat) (h : heap)
  : value * heap :=
  let failure exc := VStr ("EXECUTION_ERROR: " +:+ exc_str exc) in
  match (let* tree := ast_parse py code_str in
         let* _ := _validate_ast tree in
         let* _ := compile_check py tree in
         Ok tree) with
  | Raised exc => (failure exc, h)
  | Ok tree =>
      match h !! context with
      | None => (failure (Exn "SystemError" "dangling reference"), h)
      | Some d =>
          let '(local_scope, h1) := new_dict d h in
          let h2 := setitem local_scope "result" VNone h1 in
          match exec_at tree local_scope h2 with
          | (Ok _, h3) =>
              (default VNone (h3 !! local_scope ≫= (.!! "result")), h3)
          | (Raised exc, h3) => (failure exc, h3)
          end
      end
  end.

(** Several snippets run one after the other against the same dictionary
    object. *)
Fixpoint safe_exec_calls (codes : list string) (context : nat) (h : heap)
  : list value * heap :=
  match codes with
  | [] => ([], h)
  | c :: rest =>
      let '(v, h') := safe_exec_at c context h in
      let '(vs, h'') := safe_exec_calls rest context h' in
      (v :: vs, h'')
  end.

(** The test the orchestration makes on an outcome:
    [isinstance(output, str) and output.startswith("EXECUTION_ERROR")]. *)
Definition is_execution_error (output : value) : bool :=
  match output with
  | VStr s => Str.startswith "EXECUTION_ERROR" s
  | _ => false
  end.

(** [str(output)], for the values that have a string form. An integer
    beyond the digit limit of the interpreter (4300 digits unless it is set
    otherwise) has none: [str] raises [ValueError] on it, which is left
    out. *)
Definition py_str (v : value) : string :=
  match v with
  | VNone => "None"
  | VInt n => pretty n
  | VStr s => s
  | _ => host_str py v
  end.

End Sandbox.


(** ** Regular expressions

    The part of [re] that the two patterns of the source are written in:
    literal characters, [.], the escapes [\d] and backslash-punctuation,
    non-capturing groups [(?:...)], and the greedy postfix operators [+] and
    [?]. Matching is by backtracking, as in [re]. *)

Module Re.

Inductive regex : Type :=
| Eps
| Lit (c : ascii)
| Digit
| AnyChar
| Seq (r1 r2 : regex)
| Plus (r : regex)
| Opt (r : regex).

Definition is_special (c : ascii) : bool :=
  existsb (Ascii.eqb c) (String.list_ascii_of_string ".^$*+?{}[]|()\").

Definition is_alnum (c : ascii) : bool :=
  let n := Ascii.N_of_ascii c in
  (((48 <=? n) && (n <=? 57)) || ((65 <=? n) && (n <=? 90))
   || ((97 <=? n) && (n <=? 122)))%N.

(** A postfix operator after an atom. *)
Definition quantify (atom : regex) (s : string) : regex * string :=
  match s with
  | String "+" rest => (Plus atom, rest)
  | String "?" rest => (Opt atom, rest)
  | _ => (atom, s)
  end.

(** A sequence of quantified atoms, up to the end of the pattern or to a
    closing parenthesis, which is left in place. Every step consumes a
    character, so [fuel] is the length of the pattern plus one. *)
Fixpoint parse_seq (fuel : nat) (s : string) : option (regex * string) :=
  match fuel with
  | O => None
  | S fuel' =>
      let continue (atom : regex) (rest : string) :=
        let '(item, rest') := quantify atom rest in
        match parse_seq fuel' rest' with
        | Some (r, rest'') => Some (Seq item r, rest'')
        | None => None
        end in
      match s with
      | EmptyString => Some (Eps, s)
      | String c rest =>
          if Ascii.eqb c ")" then Some (Eps, s)
          else if Ascii.eqb c "\" then
            match rest with
            | String e rest' =>
                if Ascii.eqb e "d" then continue Digit rest'
                else if is_alnum e then None
                else continue (Lit e) rest'
            | EmptyString => None
            end
          else if Ascii.eqb c "(" then
            match rest with
            | String "?" (String ":" inner) =>
                match parse_seq fuel' inner with
                | Some (r, String ")" rest') => continue r rest'
                | _ => None
                end
            | _ => None
            end
          else if Ascii.eqb c "." then continue AnyChar rest
          else if is_special c then None
          else continue (Lit c) rest
      end
  end.

(** [re.compile] *)
Definition compile (pattern : string) : option regex :=
  match parse_seq (S (String.length pattern)) pattern with
  | Some (r, EmptyString) => Some r
  | _ => None
  end.

Definition orelse (a b : option string) : option string :=
  match a with
  | Some _ => a
  | None => b
  end.

(** [match_here r s k]: match [r] at the start of [s] and hand what is left
    of [s] to the continuation [k]; the first success in the order of a
    backtracking matcher wins. A repetition stops when an iteration consumes
    nothing, so the string's length bounds the number of iterations. *)
Fixpoint match_here (r : regex) (s : string) (k : string → option string)
  : option string :=
  match r with
  | Eps => k s
  | Lit c =>
      match s with
      | String c' s' => if Ascii.eqb c c' then k s' else None
      | EmptyString => None
      end
  | Digit =>
      match s with
      | String c' s' => if Str.is_digit c' then k s' else None
      | EmptyString => None
      end
  | AnyChar =>
      match s with
      | String c' s' => if Ascii.eqb c' "010" then None else k s'
      | EmptyString => None
      end
  | Seq r1 r2 => match_here r1 s (λ s', match_here r2 s' k)
  | Opt r' => orelse (match_here r' s k) (k s)
  | Plus r' =>
      (fix loop (n : nat) (s : string) {struct n} : option string :=
         match_here r' s (λ s',
           match n with
           | S n' =>
               if (String.length s' <? String.length s)%nat
               then orelse (loop n' s') (k s')
               else k s'
           | O => k s'
           end)) (String.length s) s
  end.

(** The scan of [findall]: try a match at each position from the left; after
    a match go on behind it. [skip] counts the characters of the last match
    that are still to be passed. *)
Fixpoint findall_go (r : regex) (skip : nat) (s : string) : list string :=
  match s with
  | EmptyString =>
      match skip, match_here r s Some with
      | O, Some _ => [EmptyString]
      | _, _ => []
      end
  | String _ s' =>
      match skip with
      | S k => findall_go r k s'
      | O =>
          match match_here r s Some with
          | Some rest =>
              let m := String.substring 0 (String.length s - String.length rest) s in
              m :: findall_go r (Nat.pred (String.length m)) s'
          | None => findall_go r O s'
          end
      end
  end.

(** [re.findall(pattern, s)] for a pattern without capturing groups. *)
Definition findall (pattern s : string) : result (list string) :=
  match compile pattern with
  | Some r => Ok (findall_go r O s)
  | None => Raised (Exn "error" ("unsupported pattern " +:+ pattern))
  end.

End Re.

(** ** [float()] of a numeral *)

Definition digit_value (c : ascii) : Z := Z.of_N (Ascii.N_of_ascii c) - 48.

Fixpoint digits_value (acc : Z) (s : string) : Z :=
  match s with
  | EmptyString => acc
  | String c s' => digits_value (10 * acc + digit_value c) s'
  end.

Fixpoint all_digits (s : string) : bool :=
  match s with
  | EmptyString => true
  | String c s' => Str.is_digit c && all_digits s'
  end.

Definition is_numeral (s : string) : bool :=
  negb (String.eqb s "") && all_digits s.

(** The text before the first dot, and the text after it if there is one. *)
Fixpoint split_dot (s : string) : string * option string :=
  match s with
  | EmptyString => (EmptyString, None)
  | String c s' =>
      if Ascii.eqb c "." then (EmptyString, Some s')
      else let '(a, b) := split_dot s' in (String c a, b)
  end.

(** The double nearest to [n / d] for [0 <= n] and [0 < d], ties to even.
    The quotient is taken at the resolution [2 ^ -1076], two bits below the
    finest spacing of the doubles, and its last bit records whether anything
    was cut off; rounding that to 53 bits rounds [n / d] itself. *)
Definition float_of_ratio (n d : Z) : float :=
  let scaled := n * 2 ^ 1076 in
  let sticky := if scaled `mod` d =? 0 then 0 else 1 in
  binary_normalize 53 1024 (Z.lor (scaled `div` d) sticky) (-1076) false.

(** [repr] of an ASCII string without control characters. *)
Fixpoint escape_backslashes (quote : ascii) (s : string) : string :=
  match s with
  | EmptyString => EmptyString
  | String c s' =>
      if Ascii.eqb c "\" || Ascii.eqb c quote
      then String "\" (String c (escape_backslashes quote s'))
      else String c (escape_backslashes quote s')
  end.

Fixpoint contains_char (c : ascii) (s : string) : bool :=
  match s with
  | EmptyString => false
  | String c' s' => Ascii.eqb c c' || contains_char c s'
  end.

Definition double_quote : ascii := Ascii.ascii_of_N 34.

Definition py_repr (s : string) : string :=
  let quote : ascii :=
    if contains_char "'" s && negb (contains_char double_quote s)
    then double_quote else "'"%char in
  String quote (escape_backslashes quote s) +:+ String quote EmptyString.

(** [float(s)] on the tokens that the patterns of the source can yield: a
    decimal numeral gives the nearest double, and a token with any other
    character (every match of the streaming pattern holds a backslash) is a
    [ValueError]. The other spellings that [float] reads (signs, exponents,
    [inf], [nan], underscores, surrounding blanks) never reach this call. *)
Definition py_float (s : string) : result value :=
  let bad := Raised (Exn "ValueError"
                         ("could not convert string to float: " +:+ py_repr s)) in
  match split_dot s with
  | (whole, None) =>
      if is_numeral whole
      then Ok (VFloat (float_of_ratio (digits_value 0 whole) 1))
      else bad
  | (whole, Some frac) =>
      if is_numeral whole && is_numeral frac
      then Ok (VFloat (float_of_ratio (digits_value 0 (whole +:+ frac))
                                        (10 ^ Z.of_nat (String.length frac))))
      else bad
  end.

(** ** The plan, the attempts and the remote agents *)

Record step := Step {
  step_num : Z;
  type : string;
  description : string
}.

(** [attempt_data] of [app.py]. *)
Record attempt_data := AttemptData {
  attempt : nat;
  code : string;
  output : value;
  feedback : string;
  success : bool
}.

(** What [generate_code_for_step] puts into its prompt: the feedback line, the
    step, the context, and the [expected_value] it adds under [corrections]. *)
Record gen_prompt := GenPrompt {
  feedback_context : string;
  step_description : string;
  prompt_context : dict;
  corrections : option value
}.

(** A call to the remote service, with its arguments. *)
Inductive call : Type :=
| Decompose (query : string)
| Generate (prompt : gen_prompt)
| Critique (step_description output original_query : string) (expected_values : dict)
| Synthesize (original_query : string) (final_results : dict).

(** The remote service: each request may succeed with a reply or raise, and
    moves the service to a new state. [llm_decompose] gives the plan as
    [decompose_problem] returns it, every step with its three fields. *)
Record service (world : Type) := Service {
  llm_decompose : string → world → result (list step) * world;
  llm_generate : gen_prompt → world → result string * world;
  llm_critique : string → string → string → dict → world → result string * world;
  llm_synthesize : string → dict → world → result string * world
}.
Arguments llm_decompose {world} _ _ _.
Arguments llm_generate {world} _ _ _.
Arguments llm_critique {world} _ _ _ _ _ _.
Arguments llm_synthesize {world} _ _ _ _.

(** The state a query runs in: the service, and the calls made so far, oldest
    first. *)
Record machine (world : Type) := Machine {
  the_world : world;
  calls : list call
}.
Arguments Machine {world} _ _.
Arguments the_world {world} _.
Arguments calls {world} _.

Definition MAX_CRITIQUE_ATTEMPTS : nat := 3.

Definition FAILED_TO_REFINE : value := VStr "FAILED_TO_REFINE".

(** [f"step_{num}_result"] *)
Definition result_key (num : Z) : string := "step_" +:+ pretty num +:+ "_result".

(** [value != "FAILED_TO_REFINE"] is false only for that very string. *)
Definition is_failed (v : value) : bool :=
  match v with
  | VStr s => String.eqb s "FAILED_TO_REFINE"
  | _ => false
  end.

Definition is_trusted_result (key : string) (v : value) : bool :=
  Str.startswith "step_" key && Str.endswith "_result" key && negb (is_failed v).

(** The dictionary [expected_values] built from the context. *)
Definition expected_values_of (context : dict) : dict :=
  map_fold (λ key v acc,
              if is_trusted_result key v
              then <[Str.replace "_result" "" key := v]> acc
              else acc) ∅ context.

(** The three loops of the source. *)
Inductive variant : Type :=
| Cli      (* main.solve_complex_query *)
| Web      (* app.solve_query_with_steps *)
| Stream.  (* app.solve_query_stream *)

(** The pattern handed to [re.findall], as each loop spells it. *)
Definition numbers_pattern (v : variant) : string :=
  match v with
  | Cli | Web => "\d+(?:\.\d+)?"
  | Stream => "\\d+(?:\\.\\d+)?"
  end.

(** Which steps enter the retry loop: the streaming loop has no test on the
    step's type. *)
Definition enters_retry_loop (v : variant) (s_type : string) : bool :=
  match v with
  | Cli | Web => String.eqb s_type "calculation" || String.eqb s_type "data_lookup"
  | Stream => true
  end.

(** [numbers[-1]] of a non-empty list, converted by [float]. *)
Definition last_number (numbers : list string) : result (option value) :=
  match last numbers with
  | Some token => let* x := py_float token in Ok (Some x)
  | None => Ok None
  end.

(** What a loop does with the feedback of a rejected attempt. *)
Definition note_rejection (v : variant) (feedback : string) (context : dict)
  : result dict :=
  let context := <["last_feedback" := VStr feedback]> context in
  if Str.startswith "Incorrect:" feedback then
    let* numbers := Re.findall (numbers_pattern v) feedback in
    let* correction := last_number numbers in
    match correction with
    | Some x => Ok (<["expected_correction" := x]> context)
    | None => Ok context
    end
  else Ok context.

(** The local part of [generate_code_for_step], before the request. The
    text of the prompt, with [json.dumps(context)] in it, is left to the
    request: what [json.dumps] raises on a context without a form in JSON
    shows here as a request that failed. *)
Definition build_gen_prompt (step_description : string) (context : dict)
  : result gen_prompt :=
  match context !! "last_feedback" with
  | None => Ok (GenPrompt "" step_description context None)
  | Some (VStr feedback) =>
      let feedback_context :=
        "Previous attempt was incorrect. Feedback: " +:+ feedback +:+ String "010" "" in
      if Str.startswith "Incorrect:" feedback then
        let* numbers := Re.findall "\d+(?:\.\d+)?" feedback in
        let* correction := last_number numbers in
        Ok (GenPrompt feedback_context step_description context correction)
      else Ok (GenPrompt feedback_context step_description context None)
  | Some _ =>
      Raised (Exn "AttributeError" "object has no attribute 'startswith'")
  end.

Section Orchestration.

Context {world : Type}.
Variable py : host.
Variable svc : service world.

(** Computations that may raise, over the machine. *)
Definition M (A : Type) : Type := machine world → result A * machine world.

Definition ret {A} (a : A) : M A := λ σ, (Ok a, σ).

Definition raise {A} (e : exn) : M A := λ σ, (Raised e, σ).

Definition bind {A B} (m : M A) (k : A → M B) : M B :=
  λ σ, match m σ with
       | (Ok a, σ') => k a σ'
       | (Raised e, σ') => (Raised e, σ')
       end.

Definition lift {A} (r : result A) : M A := λ σ, (r, σ).

(** [try: m except Exception as e: handler(e)] *)
Definition catch {A} (m : M A) (handler : exn → M A) : M A :=
  λ σ, match m σ with
       | (Ok a, σ') => (Ok a, σ')
       | (Raised e, σ') => handler e σ'
       end.

Notation "'let!' x ':=' m 'in' k" := (bind m (λ x, k))
  (at level 10, x pattern, m at level 100, k at level 200).

(** A request to the service: it is logged, then answered or failed. *)
Definition remote {A} (c : call) (request : world → result A * world) : M A :=
  λ σ, let '(r, w) := request (the_world σ) in
       (r, Machine w (calls σ ++ [c])).

Definition decompose_problem (query : string) : M (list step) :=
  remote (Decompose query) (llm_decompose svc query).

Definition generate_code_for_step (step_description : string) (context : dict)
  : M string :=
  let! prompt := lift (build_gen_prompt step_description context) in
  let! content := remote (Generate prompt) (llm_generate svc prompt) in
  ret (Str.strip content).

Definition self_critique_output (step_description output original_query : string)
    (expected_values : dict) : M string :=
  let! content :=
    remote (Critique step_description output original_query expected_values)
           (llm_critique svc step_description output original_query expected_values) in
  ret (Str.strip content).

Definition synthesize_answer (original_query : string) (final_results : dict)
  : M string :=
  let! content := remote (Synthesize original_query final_results)
                         (llm_synthesize svc original_query final_results) in
  ret (Str.strip content).

(** The feedback of an attempt: made up locally for an execution error, asked
    of the critic otherwise. *)
Definition feedback_for (query desc : string) (context : dict) (output : value)
  : M string :=
  let expected_values := expected_values_of context in
  if is_execution_error output
  then ret ("Execution failed: " +:+ py_str py output)
  else self_critique_output desc (py_str py output) query expected_values.

(** One pass through the body of the [while] loop. The dictionary returned is
    the context after the pass: with the step's result when the attempt was
    accepted, with the notes of the rejection otherwise. *)
Definition attempt_once (v : variant) (query : string) (s : step)
    (attempt : nat) (context : dict) : M (attempt_data * dict) :=
  let! code := generate_code_for_step (description s) context in
  let output := safe_exec py code context in
  let! feedback := feedback_for query (description s) context output in
  let data := AttemptData (S attempt) code output feedback
                          (Str.startswith "correct" (Str.lower feedback)) in
  if success data
  then ret (data, <[result_key (step_num s) := output]> context)
  else
    let! context' := lift (note_rejection v feedback context) in
    ret (data, context').

(** [while attempt < MAX_CRITIQUE_ATTEMPTS: ... else: ...], with
    [remaining = MAX_CRITIQUE_ATTEMPTS - attempt]. An accepted attempt breaks
    out of the loop; the [else] branch runs when the attempts are used up. *)
Fixpoint retry_loop (v : variant) (query : string) (s : step)
    (remaining attempt : nat) (context : dict) : M (list attempt_data * dict) :=
  match remaining with
  | O => ret ([], <[result_key (step_num s) := FAILED_TO_REFINE]> context)
  | S remaining' =>
      let! (data, context') := attempt_once v query s attempt context in
      if success data then ret ([data], context')
      else
        let! (more, context'') :=
          retry_loop v query s remaining' (S attempt) context' in
        ret (data :: more, context'')
  end.

(** The body of the [for] loop over the plan. *)
Definition run_step (v : variant) (query : string) (s : step) (context : dict)
  : M (list attempt_data * dict) :=
  if enters_retry_loop v (type s)
  then retry_loop v query s MAX_CRITIQUE_ATTEMPTS O context
  else ret ([], context).

Fixpoint run_plan (v : variant) (query : string) (plan : list step)
    (context : dict) : M (list (step * list attempt_data) * dict) :=
  match plan with
  | [] => ret ([], context)
  | s :: rest =>
      let! (attempts, context') := run_step v query s context in
      let! (more, context'') := run_plan v query rest context' in
      ret ((s, attempts) :: more, context'')
  end.

(** What a query ends with. *)
Record solution := Solution {
  plan : list step;
  steps : list (step * list attempt_data);
  final_answer : string;
  intermediate_results : dict
}.

(** The command-line loop lets a failed decomposition through as it is; the
    blocking loop of the web application raises it under a prefix. The
    generator of the stream reports it under the same prefix in a chunk and
    ends there: [stream_events] below has the chunks and that end, and
    here, where there are no chunks, the report is the failure of the
    query. *)
Definition decompose (v : variant) (query : string) : M (list step) :=
  match v with
  | Cli => decompose_problem query
  | Web | Stream =>
      catch (decompose_problem query)
            (λ e, raise (Exn "Exception" ("Failed to decompose problem: " +:+ exc_str e)))
  end.

Definition solve (v : variant) (query : string) : M solution :=
  let! plan := decompose v query in
  let! (steps, context) := run_plan v query plan ∅ in
  let! answer := synthesize_answer query context in
  ret (Solution plan steps answer context).

Definition solve_complex_query : string → M solution := solve Cli.
Definition solve_query_with_steps : string → M solution := solve Web.
Definition solve_query_stream : string → M solution := solve Stream.

End Orchestration.

(** The context a call hands to the service, if it hands one. *)
Definition call_context (c : call) : option dict :=
  match c with
  | Generate prompt => Some (prompt_context prompt)
  | Synthesize _ final_results => Some final_results
  | _ => None
  end.

Definition is_critique (c : call) : bool :=
  match c with
  | Critique _ _ _ _ => true
  | _ => false
  end.

Definition is_generate (c : call) : bool :=
  match c with
  | Generate _ => true
  | _ => false
  end.

(** The number of generation calls in a stretch of the log. *)
Definition generations (log : list call) : nat :=
  length (filter (λ c, is_generate c = true) log).

(** ** A host and a scripted service for the worked examples *)

Module Example.

(** [__import__('os').system('x')] *)
Definition system_call : ast :=
  Other "Call"
    [Other "Attribute"
       [Other "Call" [Name "__import__" Load; Constant (CStr "os")]; Load];
     Constant (CStr "x")].

Definition system_call_tree : ast :=
  Module_ [Assign [Name "result" Store] system_call].

Definition total_tree : ast :=
  Module_ [Assign [Name "total" Store]
             (BinOp (Constant (CInt 5)) Sub (Constant (CInt 2)))].

(** The snippets of the examples, as [ast.parse] reads them. *)
Definition snippets : list (string * ast) :=
  [ ("result = 2 + 3 * 4",
     Module_ [Assign [Name "result" Store]
                (BinOp (Constant (CInt 2)) Add
                   (BinOp (Constant (CInt 3)) Mult (Constant (CInt 4))))]);
    ("result = __import__('os').system('x')", system_call_tree);
    ("total = 5 - 2", total_tree);
    ("result = step_1_result * 2",
     Module_ [Assign [Name "result" Store]
                (BinOp (Name "step_1_result" Load) Mult (Constant (CInt 2)))]);
    ("result = 40 + 1",
     Module_ [Assign [Name "result" Store]
                (BinOp (Constant (CInt 40)) Add (Constant (CInt 1)))]) ].

Fixpoint lookup_snippet (code_str : string) (table : list (string * ast))
  : result ast :=
  match table with
  | [] => Raised (Exn "SyntaxError" "invalid syntax (<unknown>, line 1)")
  | (text, tree) :: rest =>
      if String.eqb text code_str then Ok tree else lookup_snippet code_str rest
  end.

(** A host that parses the snippets above, compiles whatever the validator
    accepts, and has neither builtins nor arithmetic beyond the integers. *)
Definition test_host : host := {|
  ast_parse := λ code_str, lookup_snippet code_str snippets;
  compile_check := λ _, Ok tt;
  builtins := λ _, None;
  host_binop := λ _ _ _, Raised (Exn "TypeError" "unsupported operand type(s)");
  host_unaryop := λ _ _, Raised (Exn "TypeError" "bad operand type for unary operator");
  host_str := λ _, "<object>"
|}.

(** A service that answers from a script: the plan, then the replies to the
    generation, critique and synthesis requests in the order they are used.
    A request with no reply left fails. *)
Record script := Script {
  plan_reply : result (list step);
  code_replies : list (result string);
  critique_replies : list (result string);
  answer_replies : list (result string)
}.

Definition unanswered {A} : result A := Raised (Exn "HTTPError" "503 Server Error").

Definition scripted : service script := {|
  llm_decompose := λ _ w, (plan_reply w, w);
  llm_generate := λ _ w,
    match code_replies w with
    | [] => (unanswered, w)
    | r :: rest => (r, Script (plan_reply w) rest (critique_replies w) (answer_replies w))
    end;
  llm_critique := λ _ _ _ _ w,
    match critique_replies w with
    | [] => (unanswered, w)
    | r :: rest => (r, Script (plan_reply w) (code_replies w) rest (answer_replies w))
    end;
  llm_synthesize := λ _ _ w,
    match answer_replies w with
    | [] => (unanswered, w)
    | r :: rest => (r, Script (plan_reply w) (code_replies w) (critique_replies w) rest)
    end
|}.

Definition start (w : script) : machine script := Machine w [].

Definition failed : result string := unanswered.

Definition first_step : step := Step 1 "calculation" "Compute 2 + 3 * 4".

Definition second_step : step := Step 2 "calculation" "Double it".

Definition one_step : list step := [first_step].

Definition two_steps : list step := [first_step; second_step].

(** The service fails the first generation request; a second request would be
    answered, and the critic would accept. *)
Definition generation_fails : script :=
  Script (Ok one_step) [failed; Ok "result = 2 + 3 * 4"] [Ok "Correct."] [Ok "14"].

(** The service fails the first critique request. *)
Definition critique_fails : script :=
  Script (Ok one_step) [Ok "result = 2 + 3 * 4"; Ok "result = 2 + 3 * 4"]
         [failed; Ok "Correct."] [Ok "14"].

(** The critic accepts the first attempt. *)
Definition accepts_first : script :=
  Script (Ok one_step) [Ok "result = 2 + 3 * 4"] [Ok "Correct."] [Ok "14"].

(** The critic rejects every attempt of the first step with a correction and
    accepts the second step at once. *)
Definition rejects_thrice : script :=
  Script (Ok two_steps)
         [Ok "result = 40 + 1"; Ok "result = 40 + 1"; Ok "result = 40 + 1";
          Ok "result = 2 + 3 * 4"]
         [Ok "Incorrect: should be 42 not 41.5";
          Ok "Incorrect: should be 42 not 41.5";
          Ok "Incorrect: should be 42 not 41.5";
          Ok "Correct."]
         [Ok "unresolved"].

(** A context after a first step that was rejected once and then accepted,
    and a service for the second step. *)
Definition after_first : dict :=
  <[result_key 1 := VInt 14]> (<["last_feedback" := VStr "Incorrect: 14"]> ∅).

(** A heap with that context as its one object. *)
Definition one_object : heap := {[0%nat := after_first]}.


(** The generator answers with a call into the operating system, then with
    a wrong sum, then with the right one. *)
Definition third_time_lucky : script :=
  Script (Ok one_step)
         [Ok "result = __import__('os').system('x')"; Ok "result = 40 + 1";
          Ok "result = 2 + 3 * 4"]
         [Ok "Incorrect: should be 14"; Ok "CORRECT - 14"] [Ok "14"].

(** The generator answers with a call into the operating system. *)
Definition generates_system_call : script :=
  Script (Ok one_step) [Ok "result = __import__('os').system('x')"] [] [].

(** What a query ends with when the first generation request fails, and when
    the first critique request fails: the failure, after the calls made up to
    it. The replies the service still holds were never asked for. *)
Definition after_failed_generation
  : result solution * machine script :=
  (Raised (Exn "HTTPError" "503 Server Error"),
   Machine (Script (Ok one_step) [Ok "result = 2 + 3 * 4"]
              [Ok "Correct."] [Ok "14"])
     [Decompose "2 + 3 * 4"; Generate (GenPrompt "" "Compute 2 + 3 * 4" ∅ None)]).

Definition after_failed_critique
  : result solution * machine script :=
  (Raised (Exn "HTTPError" "503 Server Error"),
   Machine (Script (Ok one_step) [Ok "result = 2 + 3 * 4"]
              [Ok "Correct."] [Ok "14"])
     [Decompose "2 + 3 * 4"; Generate (GenPrompt "" "Compute 2 + 3 * 4" ∅ None);
      Critique "Compute 2 + 3 * 4" "14" "2 + 3 * 4" ∅]).

End Example.

(** ** Notions used in the statements *)

(** [occurs_in n t]: the node [n] is [t] or lies below it. *)
Inductive occurs_in (n : ast) : ast → Prop :=
| occurs_here : occurs_in n n
| occurs_below t c : c ∈ iter_child_nodes t → occurs_in n c → occurs_in n t.

(** The characters of a printed integer: digits, and a leading minus. *)
Fixpoint numeric (s : string) : bool :=
  match s with
  | EmptyString => true
  | String c s' => (Str.is_digit c || Ascii.eqb c "-") && numeric s'
  end.

(** The key of the hint for step [n]. *)
Definition hint_key (n : Z) : string := "step_" +:+ pretty n.

(** The keys that the loops write: the two notes of a rejection and the
    results of the steps. *)
Definition well_keyed (context : dict) : Prop :=
  ∀ key, is_Some (context !! key) →
    key = "last_feedback" ∨ key = "expected_correction" ∨ ∃ n : Z, key = result_key n.

(** [keeps_keys context c]: a context that the call [c] hands over has every
    key of [context]. *)
Definition keeps_keys (context : dict) (c : call) : Prop :=
  ∀ d, call_context c = Some d → ∀ key, is_Some (context !! key) → is_Some (d !! key).

(** [grows context m]: by [m] the log only gets longer, every context handed
    to the service in the meantime has the keys of [context], and so has the
    context that [m] returns. *)
Definition grows {world X : Type} (context : dict) (m : M (X * dict)) : Prop :=
  ∀ (σ : machine world) r σ',
    m σ = (r, σ') →
    ∃ new,
      calls σ' = calls σ ++ new
      ∧ Forall (keeps_keys context) new
      ∧ ∀ x context', r = Ok (x, context') →
          ∀ key, is_Some (context !! key) → is_Some (context' !! key).

(** Evaluate the left-hand side of an equation and take the value found. *)
Ltac run :=
  match goal with
  | |- ?l = _ => let r := eval vm_compute in l in exact (eq_refl r <: l = r)
  end.


(** ** Further notions: tokens and contexts *)

(** A text of ASCII characters only. On such a text the digits that the
    pattern [\d] and [float] read, and the white space that [strip] takes
    off, are those of [Str.is_digit] and [Str.is_space]; a text with other
    characters may hold further digits and blanks. *)
Fixpoint is_ascii_text (s : string) : bool :=
  match s with
  | EmptyString => true
  | String c s' => (Ascii.N_of_ascii c <? 128)%N && is_ascii_text s'
  end.

(** Whether a text holds a decimal digit. *)
Fixpoint has_digit (s : string) : bool :=
  match s with
  | EmptyString => false
  | String c s' => Str.is_digit c || has_digit s'
  end.

(** A numeral as the pattern of the blocking loops matches it: digits, or
    digits, a dot and digits. *)
Definition is_decimal (token : string) : bool :=
  match split_dot token with
  | (whole, None) => is_numeral whole
  | (whole, Some frac) => is_numeral whole && is_numeral frac
  end.

(** The patterns of the loops, compiled. *)
Definition blocking_re : Re.regex :=
  Re.Seq (Re.Plus Re.Digit)
    (Re.Seq (Re.Opt (Re.Seq (Re.Lit ".") (Re.Seq (Re.Plus Re.Digit) Re.Eps)))
       Re.Eps).

Definition streaming_re : Re.regex :=
  Re.Seq (Re.Lit "\")
    (Re.Seq (Re.Plus (Re.Lit "d"))
       (Re.Seq
          (Re.Opt
             (Re.Seq (Re.Lit "\")
                (Re.Seq Re.AnyChar
                   (Re.Seq (Re.Lit "\") (Re.Seq (Re.Plus (Re.Lit "d")) Re.Eps)))))
          Re.Eps)).

(** Two scopes that agree on a set of names. *)
Definition agree_on (names : string → Prop) (scope1 scope2 : dict) : Prop :=
  ∀ id, names id → scope1 !! id = scope2 !! id.

(** The number of critique calls in a stretch of the log. *)
Definition critiques (log : list call) : nat :=
  length (filter (λ c, is_critique c = true) log).

(** A stretch of the log that the loops of [n] attempts can leave: generation
    and critique calls only, at most [n] generations, and no more critiques
    than generations. *)
Definition within_budget (n : nat) (log : list call) : Prop :=
  Forall (λ c, is_generate c || is_critique c = true) log
  ∧ (generations log ≤ n)%nat
  ∧ (critiques log ≤ generations log)%nat.

(** The steps of a plan for which a loop runs the attempts. *)
Definition looped (v : variant) (todo : list step) : list step :=
  filter (λ s, enters_retry_loop v (type s) = true) todo.

(** The entries that the loops leave in a context: the feedback is a string,
    the correction a float, and a result is never an execution error. *)
Definition loop_context (context : dict) : Prop :=
  ∀ key x, context !! key = Some x →
    (key = "last_feedback" ∧ ∃ feedback, x = VStr feedback)
    ∨ (key = "expected_correction" ∧ ∃ f, x = VFloat f)
    ∨ (∃ n : Z, key = result_key n) ∧ is_execution_error x = false.

(** The prompts of the generation calls in a stretch of the log, in their
    order. *)
Definition generated (log : list call) : list gen_prompt :=
  omap (λ c, match c with
             | Generate prompt => Some prompt
             | _ => None
             end) log.

(** ** The reply of the decomposition

    [decompose_problem] takes the text of the plan out of the reply of the
    service, parses it and checks its structure. The values are those that
    [json.loads] builds; an object keeps its entries in the order of
    insertion, as a [dict] does. *)

Inductive json : Type :=
| JNull
| JBool (b : bool)
| JInt (n : Z)
| JFloat (f : float)
| JStr (s : string)
| JList (items : list json)
| JObj (fields : list (string * json)).

(** [type(x).__name__] *)
Definition type_name (x : json) : string :=
  match x with
  | JNull => "NoneType" | JBool _ => "bool" | JInt _ => "int"
  | JFloat _ => "float" | JStr _ => "str" | JList _ => "list" | JObj _ => "dict"
  end.

(** [d.get(key)] *)
Fixpoint dict_get (key : string) (fields : list (string * json)) : option json :=
  match fields with
  | [] => None
  | (k, x) :: rest => if String.eqb k key then Some x else dict_get key rest
  end.

(** [key in d] *)
Definition dict_has (key : string) (fields : list (string * json)) : bool :=
  match dict_get key fields with
  | Some _ => true
  | None => false
  end.

(** [d[key] = v]: an entry that is there keeps its place, a new one goes to
    the end. *)
Fixpoint dict_set (key : string) (v : json) (fields : list (string * json))
  : list (string * json) :=
  match fields with
  | [] => [(key, v)]
  | (k, x) :: rest =>
      if String.eqb k key then (k, v) :: rest else (k, x) :: dict_set key v rest
  end.

(** [needle in text] for two strings. *)
Fixpoint is_substring (needle text : string) : bool :=
  Str.startswith needle text
  || match text with
     | EmptyString => false
     | String _ rest => is_substring needle rest
     end.

(** [x[key]] for a string [key]. The messages are those of CPython 3.11. *)
Definition getitem (x : json) (key : string) : result json :=
  match x with
  | JObj fields =>
      match dict_get key fields with
      | Some v => Ok v
      | None => Raised (Exn "KeyError" (py_repr key))
      end
  | JList _ =>
      Raised (Exn "TypeError" "list indices must be integers or slices, not str")
  | JStr _ => Raised (Exn "TypeError" "string indices must be integers, not 'str'")
  | _ => Raised (Exn "TypeError"
                     ("'" +:+ type_name x +:+ "' object is not subscriptable"))
  end.

(** [x[0]] *)
Definition getitem_0 (x : json) : result json :=
  match x with
  | JList (first :: _) => Ok first
  | JList [] => Raised (Exn "IndexError" "list index out of range")
  | JStr (String c _) => Ok (JStr (String c EmptyString))
  | JStr EmptyString => Raised (Exn "IndexError" "string index out of range")
  | JObj _ => Raised (Exn "KeyError" "0")
  | _ => Raised (Exn "TypeError"
                     ("'" +:+ type_name x +:+ "' object is not subscriptable"))
  end.

(** [key in x] for a string [key] *)
Definition contains (key : string) (x : json) : result bool :=
  match x with
  | JObj fields => Ok (dict_has key fields)
  | JList items =>
      Ok (existsb (λ item, match item with
                            | JStr s => String.eqb s key
                            | _ => false
                            end) items)
  | JStr s => Ok (is_substring key s)
  | _ => Raised (Exn "TypeError"
                     ("argument of type '" +:+ type_name x +:+ "' is not iterable"))
  end.

(** [if key not in step: step[key] = v] *)
Definition set_default (key : string) (v : json) (fields : list (string * json))
  : list (string * json) :=
  if dict_has key fields then fields else dict_set key v fields.

(** A step with its ordinal and its type filled in where they are missing;
    [i] is the index of the step in the plan. *)
Definition complete_step (i : nat) (fields : list (string * json))
  : list (string * json) :=
  set_default "type" (JStr "calculation")
    (set_default "step_num" (JInt (Z.of_nat i + 1)) fields).

(** The loop over the steps of the plan; [i] is the index of the first of
    [todo]. *)
Fixpoint check_steps (i : nat) (todo : list json) : result (list json) :=
  match todo with
  | [] => Ok []
  | JObj fields :: rest =>
      let fields := complete_step i fields in
      if dict_has "description" fields
      then let* rest' := check_steps (S i) rest in Ok (JObj fields :: rest')
      else Raised (Exn "ValueError"
                       ("Step " +:+ pretty (Z.of_nat i) +:+ " missing 'description'"))
  | _ :: _ =>
      Raised (Exn "ValueError"
                  ("Step " +:+ pretty (Z.of_nat i) +:+ " must be a dictionary"))
  end.

(** The checks on the parsed text. The steps are completed in place, so the
    value returned is the parsed one with its plan updated. *)
Definition check_plan (parsed : json) : result json :=
  let* found := contains "plan" parsed in
  if negb found
  then Raised (Exn "ValueError" "LLM response missing 'plan' key")
  else
    let* todo := getitem parsed "plan" in
    match parsed, todo with
    | JObj fields, JList items =>
        let* items' := check_steps 0 items in
        Ok (JObj (dict_set "plan" (JList items') fields))
    | _, _ => Raised (Exn "ValueError" "'plan' must be a list")
    end.

(** [except (json.JSONDecodeError, KeyError, ValueError)]: the classes that
    the handler catches. Of the subclasses of [ValueError] only the decoder's
    error is raised in the block. *)
Definition is_parse_failure (e : exn) : bool :=
  bool_decide (exc_class e ∈ ["JSONDecodeError"; "KeyError"; "ValueError"]).

(** [resp["choices"][0]["message"]["content"]] *)
Definition reply_content (resp : json) : result json :=
  let* choices := getitem resp "choices" in
  let* choice := getitem_0 choices in
  let* message := getitem choice "message" in
  getitem message "content".

Section Decomposition.

(** [json.loads] on a string. *)
Variable json_loads : string → result json.

(** [json.loads(x)] on any value. *)
Definition loads (x : json) : result json :=
  match x with
  | JStr text => json_loads text
  | _ => Raised (Exn "TypeError"
                     ("the JSON object must be str, bytes or bytearray, not "
                      +:+ type_name x))
  end.

(** The body of the [try] block. *)
Definition read_reply (resp : json) : result json :=
  let* content := reply_content resp in
  let* parsed := loads content in
  check_plan parsed.

(** [decompose_problem], from the reply of [_call_llm] on. *)
Definition decompose_reply (resp : json) : result json :=
  match read_reply resp with
  | Ok plan => Ok plan
  | Raised e =>
      if is_parse_failure e
      then Raised (Exn "Exception" ("Failed to parse LLM response: " +:+ exc_str e))
      else Raised e
  end.

End Decomposition.

(** *** How the loops read a plan *)

(** The items that [for step in x] goes through. *)
Definition iterate (x : json) : result (list json) :=
  match x with
  | JList items => Ok items
  | JObj fields => Ok (map (λ entry, JStr entry.1) fields)
  | JStr s => Ok (map (λ c, JStr (String c EmptyString)) (String.list_ascii_of_string s))
  | _ => Raised (Exn "TypeError" ("'" +:+ type_name x +:+ "' object is not iterable"))
  end.

(** [main.solve_complex_query]: [plan["plan"]], then for each step
    [step["step_num"]], [step["type"]] and [step["description"]]. *)
Definition read_step_cli (step : json) : result (json * json * json) :=
  let* num := getitem step "step_num" in
  let* s_type := getitem step "type" in
  let* desc := getitem step "description" in
  Ok (num, s_type, desc).

Fixpoint read_steps_cli (todo : list json) : result (list (json * json * json)) :=
  match todo with
  | [] => Ok []
  | step :: rest =>
      let* first := read_step_cli step in
      let* more := read_steps_cli rest in
      Ok (first :: more)
  end.

Definition read_plan_cli (plan : json) : result (list (json * json * json)) :=
  let* todo := getitem plan "plan" in
  let* items := iterate todo in
  read_steps_cli items.

(** The loops of [app]: ["plan" not in plan] is an error; then for each step
    [step.get("step_num", i + 1)], [step.get("type", "unknown")] and
    [step.get("description", "No description")]. *)
Definition read_step_web (i : nat) (step : json) : result (json * json * json) :=
  match step with
  | JObj fields =>
      Ok (default (JInt (Z.of_nat i + 1)) (dict_get "step_num" fields),
          default (JStr "unknown") (dict_get "type" fields),
          default (JStr "No description") (dict_get "description" fields))
  | _ => Raised (Exn "AttributeError"
                     ("'" +:+ type_name step +:+ "' object has no attribute 'get'"))
  end.

Fixpoint read_steps_web (i : nat) (todo : list json)
  : result (list (json * json * json)) :=
  match todo with
  | [] => Ok []
  | step :: rest =>
      let* first := read_step_web i step in
      let* more := read_steps_web (S i) rest in
      Ok (first :: more)
  end.

Definition read_plan_web (plan : json) : result (list (json * json * json)) :=
  let* found := contains "plan" plan in
  if negb found
  then Raised (Exn "Exception" "Invalid plan structure: missing 'plan' key")
  else
    let* todo := getitem plan "plan" in
    let* items := iterate todo in
    read_steps_web 0 items.

(** *** Notions for the statements about plans *)

(** A step that the checks let through. *)
Definition is_valid_step (step : json) : bool :=
  match step with
  | JObj fields => dict_has "description" fields
  | _ => false
  end.

(** A step as the loops need it: an object with the three entries. *)
Definition is_complete_step (step : json) : bool :=
  match step with
  | JObj fields =>
      dict_has "step_num" fields && dict_has "type" fields
      && dict_has "description" fields
  | _ => false
  end.

(** The message of the check that the step at index [i] fails. *)
Definition step_failure (i : nat) (step : json) : string :=
  match step with
  | JObj _ => "Step " +:+ pretty (Z.of_nat i) +:+ " missing 'description'"
  | _ => "Step " +:+ pretty (Z.of_nat i) +:+ " must be a dictionary"
  end.

(** ** The request to the service

    [_call_llm] posts the request up to three times. What one post comes to
    is taken from the network: the decoded body of the reply when the post,
    the status check and the decoding pass, which is [None] for the body
    [null]; the [HTTPError] of [raise_for_status], with the status of the
    response it carries if it carries one; or another exception, of the
    connection or of the decoding. The two [print] calls before a failure is
    raised again are left out. *)

Inductive outcome (payload : Type) : Type :=
| Answered (body : payload)
| HttpError (response : option Z) (e : exn)
| Failed (e : exn).

Arguments Answered {payload} body.
Arguments HttpError {payload} response e.
Arguments Failed {payload} e.

(** What the function does to the world: the posts, each with the model of
    its payload, and the pauses, in seconds. *)
Inductive event : Type :=
| Posted (model : string)
| Slept (seconds : Z).

Record wire (net : Type) : Type := Wire {
  the_net : net;
  events : list event
}.

Arguments Wire {net} the_net events.
Arguments the_net {net} w.
Arguments events {net} w.

Definition _MAX_RETRIES : nat := 3.

(** [_BACKOFF_SECONDS], a float in the source; its multiples below are whole
    numbers. *)
Definition _BACKOFF_SECONDS : Z := 2.

Definition RETRYABLE : list Z := [429; 500; 502; 503; 504].

(** [status in {429, 500, 502, 503, 504}] *)
Definition is_retryable (status : option Z) : bool :=
  match status with
  | Some code => bool_decide (code ∈ RETRYABLE)
  | None => false
  end.

Section CallLlm.

Context {net payload : Type}.

(** The two models of the configuration. *)
Variable DEFAULT_MODEL FALLBACK_MODEL : string.

(** The truth value of a response object with a given status, as
    [if exc.response] takes it. *)
Variable truthy : Z → bool.

(** One post with a payload for the given model. *)
Variable send : string → net → outcome payload * net.

(** [exc.response.status_code if exc.response else None] *)
Definition status_of (response : option Z) : option Z :=
  match response with
  | Some code => if truthy code then Some code else None
  | None => None
  end.

(** [None], which the body of a reply decodes to when it is [null], and
    which a function returns when it runs out of statements. *)
Variable none : payload.

(** The [for] loop over [range(_MAX_RETRIES)], from the iteration [attempt]
    on, with [remaining] iterations to go. A loop that ran out would make the
    function return [None]. *)
Fixpoint call_loop (remaining attempt : nat) (chosen_model : string) (w : wire net)
  : result payload * wire net :=
  match remaining with
  | O => (Ok none, w)
  | S remaining' =>
      let '(out, n) := send chosen_model (the_net w) in
      let w1 := Wire n (events w ++ [Posted chosen_model]) in
      match out with
      | Answered body => (Ok body, w1)
      | Failed e => (Raised e, w1)
      | HttpError response e =>
          if negb (is_retryable (status_of response)) then (Raised e, w1)
          else
            let chosen_model' :=
              if negb (String.eqb chosen_model FALLBACK_MODEL) && (attempt =? 0)%nat
              then FALLBACK_MODEL else chosen_model in
            if (attempt =? _MAX_RETRIES - 1)%nat then (Raised e, w1)
            else
              call_loop remaining' (S attempt) chosen_model'
                (Wire n (events w1
                         ++ [Slept (_BACKOFF_SECONDS * (Z.of_nat attempt + 1))]))
      end
  end.

(** [model or DEFAULT_MODEL] *)
Definition model_or_default (model : option string) : string :=
  match model with
  | Some (String c s) => String c s
  | _ => DEFAULT_MODEL
  end.

Definition _call_llm (model : option string) (w : wire net)
  : result payload * wire net :=
  call_loop _MAX_RETRIES 0 (model_or_default model) w.

End CallLlm.

(** ** The views of the web application *)

Notation "'let!' x ':=' m 'in' k" := (bind m (λ x, k))
  (at level 10, x pattern, m at level 100, k at level 200).

(** The body of a reply: [{'error': message}], or the dictionary that
    [solve_query_with_steps] returns. *)
Inductive reply_body : Type :=
| ErrorBody (message : string)
| SolutionBody (query : string) (sol : solution).

Record response := Response {
  response_body : reply_body;
  status : Z
}.

(** [data.get('query', '').strip()] on the parsed body of the request. *)
Definition query_of (data : json) : result string :=
  match data with
  | JObj fields =>
      match default (JStr "") (dict_get "query" fields) with
      | JStr s => Ok (Str.strip s)
      | other =>
          Raised (Exn "AttributeError"
                      ("'" +:+ type_name other +:+ "' object has no attribute 'strip'"))
      end
  | _ => Raised (Exn "AttributeError"
                     ("'" +:+ type_name data +:+ "' object has no attribute 'get'"))
  end.

(** What the generator of the streaming view hands to [json.dumps]. *)
Inductive message : Type :=
| ErrorMessage (text : string)
| PlanMessage (todo : list step)
| AttemptMessage (s : step) (data : attempt_data)
| FinalMessage (answer : string).

(** One chunk of the stream. The source writes the end of a chunk as
    [\\n\\n] in a string that is not raw, so a chunk ends with a backslash,
    the letter n, a backslash and the letter n. *)
Definition sse (payload : string) : string := "data: " +:+ payload +:+ "\n\n".

Definition DONE : string := "data: [DONE]\n\n".

(** The service as the generator sees it: beside the world there are the
    chunks yielded so far, which a request leaves alone. *)
Definition beside {world A : Type} (request : world → result A * world)
  : world * list string → result A * (world * list string) :=
  λ '(w, out), let '(r, w') := request w in (r, (w', out)).

Definition streaming_service {world : Type} (svc : service world)
  : service (world * list string) :=
  Service (world * list string)
    (λ query, beside (llm_decompose svc query))
    (λ prompt, beside (llm_generate svc prompt))
    (λ desc output query hint, beside (llm_critique svc desc output query hint))
    (λ query final, beside (llm_synthesize svc query final)).

(** [yield chunk] *)
Definition yield_ {world : Type} (chunk : string) : @M (world * list string) unit :=
  λ σ, (Ok tt, Machine ((the_world σ).1, (the_world σ).2 ++ [chunk]) (calls σ)).

(** The chunks yielded so far. *)
Definition chunks {world : Type} (σ : machine (world * list string)) : list string :=
  (the_world σ).2.

Section Views.

Context {world : Type}.
Variable py : host.
Variable svc : service world.

(** [jsonify(result)]: what it raises, if anything, on a result that holds a
    value without a form in JSON. *)
Variable jsonify : solution → result unit.

(** [json.dumps] on a message of the stream. *)
Variable json_dumps : message → result string.

(** The view [solve]; [request_json] is what [request.get_json()] comes
    to. An exception that the view lets through is left to the framework. *)
Definition solve_view (request_json : result json) : @M world response :=
  let! data := lift request_json in
  let! query := lift (query_of data) in
  if String.eqb query ""
  then ret (Response (ErrorBody "Query cannot be empty") 400)
  else
    catch (let! result := solve_query_with_steps py svc query in
           let! _ := lift (jsonify result) in
           ret (Response (SolutionBody query result) 200))
          (λ e, ret (Response (ErrorBody (exc_str e)) 500)).

(** One pass through the loop of the generator: as in the other loops, with
    the chunk of the attempt yielded before the outcome is looked at. *)
Definition stream_attempt (query : string) (s : step) (attempt : nat)
    (context : dict) : @M (world * list string) (attempt_data * dict) :=
  let! code := generate_code_for_step (streaming_service svc) (description s) context in
  let output := safe_exec py code context in
  let! feedback :=
    feedback_for py (streaming_service svc) query (description s) context output in
  let data := AttemptData (S attempt) code output feedback
                          (Str.startswith "correct" (Str.lower feedback)) in
  let! text := lift (json_dumps (AttemptMessage s data)) in
  let! _ := yield_ (sse text) in
  if success data
  then ret (data, <[result_key (step_num s) := output]> context)
  else
    let! context' := lift (note_rejection Stream feedback context) in
    ret (data, context').

Fixpoint stream_loop (query : string) (s : step) (remaining attempt : nat)
    (context : dict) : @M (world * list string) (list attempt_data * dict) :=
  match remaining with
  | O => ret ([], <[result_key (step_num s) := FAILED_TO_REFINE]> context)
  | S remaining' =>
      let! (data, context') := stream_attempt query s attempt context in
      if success data then ret ([data], context')
      else
        let! (more, context'') :=
          stream_loop query s remaining' (S attempt) context' in
        ret (data :: more, context'')
  end.

Fixpoint stream_plan (query : string) (todo : list step) (context : dict)
  : @M (world * list string) (list (step * list attempt_data) * dict) :=
  match todo with
  | [] => ret ([], context)
  | s :: rest =>
      let! (attempts, context') :=
        stream_loop query s MAX_CRITIQUE_ATTEMPTS O context in
      let! (more, context'') := stream_plan query rest context' in
      ret ((s, attempts) :: more, context'')
  end.

(** The generator [solve_query_stream], run to its end. The decomposition
    that [decompose_problem] returns has its plan, so the test for a missing
    plan is passed. The generator returns nothing; the value below is what
    its variables hold when it ends, [None] after a decomposition that
    failed. *)
Definition stream_events (query : string)
  : @M (world * list string) (option solution) :=
  λ σ, match decompose_problem (streaming_service svc) query σ with
       | (Raised e, σ1) =>
           (let! text :=
              lift (json_dumps
                      (ErrorMessage ("Failed to decompose problem: " +:+ exc_str e))) in
            let! _ := yield_ (sse text) in
            let! _ := yield_ DONE in
            ret None) σ1
       | (Ok todo, σ1) =>
           (let! text := lift (json_dumps (PlanMessage todo)) in
            let! _ := yield_ (sse text) in
            let! (finished, context) := stream_plan query todo ∅ in
            let! answer := synthesize_answer (streaming_service svc) query context in
            let! text := lift (json_dumps (FinalMessage answer)) in
            let! _ := yield_ (sse text) in
            let! _ := yield_ DONE in
            ret (Some (Solution todo finished answer context))) σ1
       end.

(** The view [solve_stream]: the reply to a blank query, or the stream. *)
Definition solve_stream_view (request_json : result json)
  : @M (world * list string) (option response) :=
  let! data := lift request_json in
  let! query := lift (query_of data) in
  if String.eqb query ""
  then ret (Some (Response (ErrorBody "Query cannot be empty") 400))
  else
    let! _ := stream_events query in
    ret None.

End Views.

(** *** Notions for the statements about the stream *)

(** The state of the generator without its chunks. *)
Definition without_chunks {world : Type} (σ : machine (world * list string))
  : machine world :=
  Machine (the_world σ).1 (calls σ).

(** The messages of the attempts of a run, in their order. *)
Definition attempt_messages (finished : list (step * list attempt_data))
  : list message :=
  flat_map (λ record, map (AttemptMessage record.1) record.2) finished.

Definition is_attempt_message (m : message) : bool :=
  match m with
  | AttemptMessage _ _ => true
  | _ => false
  end.

(** [dumped json_dumps messages texts]: the texts are the encodings of the
    messages, one for one. *)
Definition dumped (json_dumps : message → result string)
    (messages : list message) (texts : list string) : Prop :=
  Forall2 (λ m text, json_dumps m = Ok text) messages texts.

(** ** Further fixtures for the worked examples *)

Module Sample.

(** A service whose decomposition fails. *)
Definition no_plan : Example.script :=
  Example.Script Example.unanswered [] [] [].

(** A plan of a calculation and a final synthesis. *)
Definition last_step : step := Step 2 "final_synthesis" "Give the answer".

Definition with_synthesis : Example.script :=
  Example.Script (Ok [Example.first_step; last_step])
    [Ok "result = 2 + 3 * 4"; Ok "result = 40 + 1"]
    [Ok "Correct."; Ok "Correct."] [Ok "14"].

(** Two steps of the same ordinal: the second overwrites the result of the
    first. *)
Definition again : step := Step 1 "calculation" "Compute 40 + 1".

Definition same_ordinal : Example.script :=
  Example.Script (Ok [Example.first_step; again])
    [Ok "result = 2 + 3 * 4"; Ok "result = 40 + 1"]
    [Ok "Correct."; Ok "Correct."] [Ok "41"].

(** The critic rejects the three attempts of the first step, the third time
    with a feedback that holds a backslash followed by the letter d; the
    second step would be accepted at once. *)
Definition backslash_d : Example.script :=
  Example.Script (Ok Example.two_steps)
    [Ok "result = 40 + 1"; Ok "result = 40 + 1"; Ok "result = 40 + 1";
     Ok "result = 2 + 3 * 4"]
    [Ok "Incorrect: should be 42"; Ok "Incorrect: should be 42";
     Ok "Incorrect: match \d+ instead"; Ok "Correct."]
    [Ok "unresolved"].

(** In each of two steps the critic rejects the first attempt with a
    correction and accepts the second. *)
Definition overwrites : Example.script :=
  Example.Script (Ok Example.two_steps)
    [Ok "result = 40 + 1"; Ok "result = 2 + 3 * 4"; Ok "result = 40 + 1";
     Ok "result = step_1_result * 2"]
    [Ok "Incorrect: should be 14"; Ok "Correct."; Ok "Incorrect: should be 28";
     Ok "Correct."]
    [Ok "28"].

(** A text between double quotes. *)
Definition quoted (s : string) : string :=
  String double_quote s +:+ String double_quote EmptyString.

(** The text of a plan of two steps, the first without ordinal and type, and
    what [json.loads] makes of it. *)
Definition plan_text : string :=
  "{" +:+ quoted "plan" +:+ ": [{" +:+ quoted "description" +:+ ": "
  +:+ quoted "Add 2 and 3" +:+ "}, {" +:+ quoted "step_num" +:+ ": 7, "
  +:+ quoted "type" +:+ ": " +:+ quoted "estimate" +:+ ", "
  +:+ quoted "description" +:+ ": " +:+ quoted "Guess" +:+ "}], "
  +:+ quoted "note" +:+ ": null}".

Definition parsed_plan : json :=
  JObj [("plan",
         JList [JObj [("description", JStr "Add 2 and 3")];
                JObj [("step_num", JInt 7); ("type", JStr "estimate");
                      ("description", JStr "Guess")]]);
        ("note", JNull)].

(** The text of a plan whose second step is a string. *)
Definition bad_plan_text : string :=
  "{" +:+ quoted "plan" +:+ ": [{" +:+ quoted "description" +:+ ": "
  +:+ quoted "Add 2 and 3" +:+ "}, " +:+ quoted "then double it" +:+ "]}".

Definition parsed_bad_plan : list (string * json) :=
  [("plan", JList [JObj [("description", JStr "Add 2 and 3")];
                   JStr "then double it"])].

(** A decoder for these texts. *)
Definition json_loads (text : string) : result json :=
  if String.eqb text plan_text then Ok parsed_plan
  else if String.eqb text bad_plan_text then Ok (JObj parsed_bad_plan)
  else Raised (Exn "JSONDecodeError" "Expecting value: line 1 column 1 (char 0)").

(** The reply of the service with a given text. *)
Definition reply (text : string) : json :=
  JObj [("id", JStr "gen-1");
        ("choices",
         JList [JObj [("index", JInt 0);
                      ("message", JObj [("role", JStr "assistant");
                                        ("content", JStr text)])]])].

(** The truth value of a response object of [requests]: that of its [ok],
    false for the statuses from 400 to 599. *)
Definition response_ok (code : Z) : bool := negb ((400 <=? code) && (code <? 600)).

(** A network on which every post is answered with status 503. *)
Definition busy (model : string) (n : unit) : outcome json * unit :=
  (HttpError (Some 503) (Exn "HTTPError" "503 Server Error: Service Unavailable"), n).

(** A stand-in for [json.dumps] and [jsonify] that names the kind of
    message. *)
Definition encode (m : message) : result string :=
  match m with
  | ErrorMessage text => Ok ("error: " +:+ text)
  | PlanMessage todo => Ok ("plan of " +:+ pretty (Z.of_nat (length todo)))
  | AttemptMessage s data =>
      Ok ("attempt " +:+ pretty (Z.of_nat (attempt data)) +:+ " of step "
          +:+ pretty (step_num s))
  | FinalMessage answer => Ok ("final_answer: " +:+ answer)
  end.

Definition encodable (sol : solution) : result unit := Ok tt.

(** The states a stream starts in. *)
Definition stream_start (w : Example.script) : machine (Example.script * list string) :=
  Machine (w, []) [].

End Sample.

(** ** Facts about strings *)

Lemma str_length_app (a b : string) :
  String.length (a +:+ b) = (String.length a + String.length b)%nat.
Proof. induction a as [|x a IH]; simpl; [done|]. by rewrite IH. Qed.

Lemma app_cancel_r (a b c : string) : a +:+ c = b +:+ c → a = b.
Proof.
  revert b. induction a as [|x a IH]; intros [|y b] H; simpl in *.
  - done.
  - apply (f_equal String.length) in H. rewrite !str_length_app in H. simpl in H. lia.
  - apply (f_equal String.length) in H. rewrite !str_length_app in H. simpl in H. lia.
  - change (String x (a +:+ c) = String y (b +:+ c)) in H.
    inversion H; subst. f_equal. by apply IH.
Qed.

Lemma app_assoc_str (a b c : string) : (a +:+ b) +:+ c = a +:+ (b +:+ c).
Proof.
  induction a as [|x a IH]; [done|].
  change (String x ((a +:+ b) +:+ c) = String x (a +:+ (b +:+ c))).
  by rewrite IH.
Qed.
(** ** Facts about the tree walk *)

Lemma size_children (t : ast) :
  size t = S (list_sum (map size (iter_child_nodes t))).
Proof.
  destruct t; simpl; try reflexivity; f_equal;
    rewrite ?map_app, ?list_sum_app; simpl; lia.
Qed.

Lemma walk_queue_complete (fuel : nat) :
  ∀ todo t n,
    (list_sum (map size todo) ≤ fuel)%nat →
    t ∈ todo → occurs_in n t → n ∈ walk_queue fuel todo.
Proof.
  induction fuel as [|fuel IH]; intros todo t n Hfuel Ht Hn.
  - destruct todo as [|x rest]; [by apply elem_of_nil in Ht|].
    simpl in Hfuel. pose proof (size_children x). lia.
  - destruct todo as [|x rest]; [by apply elem_of_nil in Ht|].
    simpl. simpl in Hfuel.
    assert (list_sum (map size (rest ++ iter_child_nodes x)) ≤ fuel)%nat as Hle.
    { rewrite map_app, list_sum_app. pose proof (size_children x). lia. }
    apply elem_of_cons in Ht as [->|Ht].
    + inversion Hn as [|t' c Hc Hnc]; subst.
      * apply elem_of_cons; by left.
      * apply elem_of_cons; right.
        apply (IH _ c n Hle); [|done]. apply elem_of_app; by right.
    + apply elem_of_cons; right.
      apply (IH _ t n Hle); [|done]. apply elem_of_app; by left.
Qed.

Lemma walk_queue_sound (fuel : nat) :
  ∀ todo n, n ∈ walk_queue fuel todo → ∃ t, t ∈ todo ∧ occurs_in n t.
Proof.
  induction fuel as [|fuel IH]; intros todo n Hn; simpl in Hn.
  - by apply elem_of_nil in Hn.
  - destruct todo as [|x rest]; [by apply elem_of_nil in Hn|].
    apply elem_of_cons in Hn as [->|Hn].
    + exists x. split; [apply elem_of_cons; by left | constructor].
    + apply IH in Hn as (t & Ht & Hocc).
      apply elem_of_app in Ht as [Ht|Ht].
      * exists t. split; [apply elem_of_cons; by right | done].
      * exists x. split; [apply elem_of_cons; by left |].
        by apply occurs_below with t.
Qed.

(** [ast.walk] yields exactly the nodes of the tree. *)
Lemma elem_of_walk (tree n : ast) : n ∈ walk tree ↔ occurs_in n tree.
Proof.
  unfold walk. split.
  - intros (t & Ht & Hocc)%walk_queue_sound.
    apply list_elem_of_singleton in Ht. by subst.
  - intros Hocc. apply walk_queue_complete with tree; [simpl; lia| |done].
    by apply list_elem_of_singleton.
Qed.

(** The validator raises at the first node, in the order of the walk, that is
    not an instance of an allowed class. *)
Lemma validate_nodes_raises (nodes : list ast) (bad : ast) :
  bad ∈ nodes → allowed bad = false →
  ∃ before first after,
    nodes = before ++ first :: after ∧
    Forall (λ n, allowed n = true) before ∧
    allowed first = false ∧
    validate_nodes nodes
    = Raised (Exn "ValueError" ("Disallowed Python syntax: " +:+ class_name first)).
Proof.
  induction nodes as [|x rest IH]; intros Hin Hbad.
  - by apply elem_of_nil in Hin.
  - destruct (allowed x) eqn:Hx.
    + apply elem_of_cons in Hin as [->|Hin]; [congruence|].
      destruct (IH Hin Hbad) as (before & first & after & -> & Hall & Hf & Hv).
      exists (x :: before), first, after. split; [done|].
      split; [by constructor|]. split; [done|].
      simpl. by rewrite Hx.
    + exists [], x, rest. split; [done|]. split; [constructor|].
      split; [done|]. simpl. by rewrite Hx.
Qed.

Lemma validate_nodes_ok (nodes : list ast) :
  validate_nodes nodes = Ok tt → Forall (λ n, allowed n = true) nodes.
Proof.
  induction nodes as [|x rest IH]; simpl; [constructor|].
  destruct (allowed x) eqn:Hx; simpl; [|discriminate].
  intros H. constructor; auto.
Qed.

(** ** Facts about evaluation *)

Section SandboxFacts.

Variable py : host.

Lemma store_targets_other (v : value) (key : string) :
  ∀ targets scope scope',
    Name key Store ∉ targets →
    store_targets v scope targets = Ok scope' →
    scope' !! key = scope !! key.
Proof.
  induction targets as [|t ts IH]; intros scope scope' Hnot Hst; simpl in Hst.
  - by inversion Hst.
  - apply not_elem_of_cons in Hnot as [Hne Hnot].
    destruct (store_target v scope t) as [scope1|e] eqn:Ht; simpl in Hst;
      [|discriminate].
    rewrite (IH _ _ Hnot Hst).
    destruct t as [| | | | | |id ctx| | | | | | | | | | | | | | | | | | | | |];
      try discriminate.
    destruct ctx; try discriminate. inversion Ht; subst.
    apply lookup_insert_ne. congruence.
Qed.

Lemma exec_body_other (key : string) :
  ∀ body scope scope',
    (∀ s t, s ∈ body → t ∈ iter_child_nodes s → t ≠ Name key Store) →
    exec_body py scope body = Ok scope' →
    scope' !! key = scope !! key.
Proof.
  induction body as [|s rest IH]; intros scope scope' Hnot Hex; simpl in Hex.
  - by inversion Hex.
  - destruct (exec_stmt py scope s) as [scope1|e] eqn:Hs; simpl in Hex;
      [|discriminate].
    rewrite (IH scope1 scope').
    + destruct s; try discriminate. simpl in Hs.
      destruct (eval_expr py scope s) as [v|e]; simpl in Hs; [|discriminate].
      apply (store_targets_other v key targets scope scope1); [|done].
      intros Hin. eapply Hnot; [apply elem_of_cons; by left| |done].
      simpl. apply elem_of_app; by left.
    + intros s' t Hs' Ht. apply (Hnot s' t); [|done].
      apply elem_of_cons; by right.
    + done.
Qed.

(** A store to a target touches the object of the scope only, and does to
    it what the functional reading does to the scope. *)
Lemma store_targets_at_spec (v : value) (l : nat) :
  ∀ targets h scope,
    h !! l = Some scope →
    ∃ scope1,
      (store_targets_at v l targets h).2 = <[l := scope1]> h
      ∧ match store_targets v scope targets with
        | Ok scope' => (store_targets_at v l targets h).1 = Ok tt ∧ scope1 = scope'
        | Raised e => (store_targets_at v l targets h).1 = Raised e
        end.
Proof.
  induction targets as [|t ts IH]; intros h scope Hl; simpl.
  - exists scope. split; [by rewrite insert_id|done].
  - destruct t as [| | | | | |id ctx| | | | | | | | | | | | | | | | | | | | |];
      try (exists scope; split; [by rewrite insert_id|done]).
    destruct ctx; try (exists scope; split; [by rewrite insert_id|done]).
    simpl. unfold setitem.
    destruct (IH (alter (insert id v) l h) (<[id := v]> scope)) as (scope1 & Hh & Hr).
    { by rewrite lookup_alter_eq, Hl. }
    exists scope1. split; [|done]. rewrite Hh.
    apply map_eq; intros b. destruct (decide (l = b)) as [<-|Hne].
    + by rewrite !lookup_insert_eq.
    + by rewrite !lookup_insert_ne, lookup_alter_ne.
Qed.

Lemma exec_body_at_spec (l : nat) :
  ∀ body h scope,
    h !! l = Some scope →
    ∃ scope1,
      (exec_body_at py l body h).2 = <[l := scope1]> h
      ∧ match exec_body py scope body with
        | Ok scope' => (exec_body_at py l body h).1 = Ok tt ∧ scope1 = scope'
        | Raised e => (exec_body_at py l body h).1 = Raised e
        end.
Proof.
  induction body as [|s rest IH]; intros h scope Hl; simpl.
  - exists scope. split; [by rewrite insert_id|done].
  - unfold exec_stmt_at. rewrite Hl.
    destruct s; try (exists scope; split; [by rewrite insert_id|done]).
    simpl. destruct (eval_expr py scope s) as [v|e]; simpl;
      [|exists scope; split; [by rewrite insert_id|done]].
    destruct (store_targets_at_spec v l targets h scope Hl) as (scope1 & Hh & Hr).
    destruct (store_targets_at v l targets h) as [r1 h1]. simpl in Hh, Hr.
    destruct (store_targets v scope targets) as [scope'|e]; simpl.
    + destruct Hr as [-> ->]. subst h1.
      destruct (IH (<[l := scope']> h) scope') as (scope2 & Hh2 & Hr2).
      { apply lookup_insert_eq. }
      exists scope2. split; [|done]. rewrite Hh2. apply insert_insert_eq.
    + rewrite Hr. by exists scope1.
Qed.

(** A call returns what the functional reading gives for the contents of the
    dictionary, and leaves every object that was there as it was. *)
Lemma safe_exec_at_spec (code_str : string) (a : nat) (h : heap) (context : dict) :
  h !! a = Some context →
  (safe_exec_at py code_str a h).1 = safe_exec py code_str context
  ∧ ∀ b, is_Some (h !! b) → (safe_exec_at py code_str a h).2 !! b = h !! b.
Proof.
  intros Ha. unfold safe_exec_at, safe_exec, safe_exec_try.
  destruct (ast_parse py code_str) as [tree|e]; simpl; [|done].
  destruct (_validate_ast tree) as [[]|e]; simpl; [|done].
  destruct (compile_check py tree) as [[]|e]; simpl; [|done].
  rewrite Ha. unfold new_dict, setitem.
  set (l := fresh (dom h)).
  assert (h !! l = None) as Hfresh.
  { apply not_elem_of_dom. apply is_fresh. }
  assert (alter (insert "result" VNone) l (<[l := context]> h)
          = <[l := <["result" := VNone]> context]> h) as ->.
  { apply map_eq; intros b. destruct (decide (l = b)) as [<-|Hne].
    - by rewrite lookup_alter_eq, !lookup_insert_eq.
    - by rewrite lookup_alter_ne, !lookup_insert_ne. }
  assert (∀ scope1 b, is_Some (h !! b) →
            <[l := scope1]> (<[l := <["result" := VNone]> context]> h) !! b = h !! b)
    as Hkept.
  { intros scope1 b [d Hb]. rewrite !lookup_insert_ne; [done|congruence..]. }
  destruct tree; simpl; try (split; [done|]; intros b [d Hb];
    rewrite lookup_insert_ne; [done|congruence]).
  destruct (exec_body_at_spec l body (<[l := <["result" := VNone]> context]> h)
              (<["result" := VNone]> context)) as (scope1 & Hh & Hr).
  { apply lookup_insert_eq. }
  destruct (exec_body_at py l body (<[l := <["result" := VNone]> context]> h))
    as [r1 h1]. simpl in Hh, Hr. subst h1.
  destruct (exec_body py (<["result" := VNone]> context) body) as [scope'|e]; simpl.
  - destruct Hr as [-> ->]. simpl. split; [|by apply Hkept].
    by rewrite lookup_insert_eq.
  - rewrite Hr. simpl. split; [done|by apply Hkept].
Qed.

Lemma safe_exec_calls_spec (codes : list string) (a : nat) (context : dict) :
  ∀ h, h !! a = Some context →
    (safe_exec_calls py codes a h).1 = map (λ c, safe_exec py c context) codes
    ∧ ∀ b, is_Some (h !! b) → (safe_exec_calls py codes a h).2 !! b = h !! b.
Proof.
  induction codes as [|c rest IH]; intros h Ha; simpl; [done|].
  destruct (safe_exec_at_spec c a h context Ha) as [Hv Hkept].
  destruct (safe_exec_at py c a h) as [v h1]. simpl in Hv, Hkept.
  destruct (IH h1) as [Hvs Hkept'].
  { rewrite Hkept; [done|by eexists]. }
  destruct (safe_exec_calls py rest a h1) as [vs h2]. simpl in *.
  split; [by rewrite Hv, Hvs|].
  intros b Hb. rewrite Hkept'; [by apply Hkept|]. by rewrite Hkept.
Qed.

End SandboxFacts.

(** ** Facts about computations over the machine *)

Section MachineFacts.

Context {world : Type}.
Implicit Types σ : machine world.

Lemma bind_ok_l {A B} (m : M A) (k : A → M B) σ a σ1 :
  m σ = (Ok a, σ1) → bind m k σ = k a σ1.
Proof. intros H. unfold bind. by rewrite H. Qed.

Lemma bind_raised_l {A B} (m : M A) (k : A → M B) σ e σ1 :
  m σ = (Raised e, σ1) → bind m k σ = (Raised e, σ1).
Proof. intros H. unfold bind. by rewrite H. Qed.

Lemma bind_inv {A B} (m : M A) (k : A → M B) σ r σ' :
  bind m k σ = (r, σ') →
  (∃ a σ1, m σ = (Ok a, σ1) ∧ k a σ1 = (r, σ'))
  ∨ (∃ e, m σ = (Raised e, σ') ∧ r = Raised e).
Proof.
  unfold bind. destruct (m σ) as [[a|e] σ1]; intros H.
  - left. by exists a, σ1.
  - right. inversion H; subst. by exists e.
Qed.

Lemma bind_ok_inv {A B} (m : M A) (k : A → M B) σ b σ' :
  bind m k σ = (Ok b, σ') →
  ∃ a σ1, m σ = (Ok a, σ1) ∧ k a σ1 = (Ok b, σ').
Proof.
  intros [H|(e & _ & He)]%bind_inv; [done | discriminate].
Qed.

Lemma lift_inv {A} (r0 : result A) σ r σ' :
  lift r0 σ = (r, σ') → r = r0 ∧ σ' = σ.
Proof. unfold lift. by inversion 1. Qed.

Lemma ret_inv {A} (a : A) σ r σ' :
  ret a σ = (r, σ') → r = Ok a ∧ σ' = σ.
Proof. unfold ret. by inversion 1. Qed.

(** A request adds exactly one entry to the log, whether it succeeds or not. *)
Lemma remote_inv {A} (c : call) (request : world → result A * world) σ r σ' :
  remote c request σ = (r, σ') →
  calls σ' = calls σ ++ [c] ∧ request (the_world σ) = (r, the_world σ').
Proof.
  unfold remote. destruct (request (the_world σ)) as [r1 w1].
  inversion 1; subst. done.
Qed.

End MachineFacts.

(** ** Facts about the keys of the context *)

Lemma result_key_head (n : Z) :
  ∃ tail, result_key n = String "s" (String "t" (String "e" (String "p" (String "_" tail)))).
Proof. unfold result_key. eexists. reflexivity. Qed.

Lemma result_key_not_last_feedback (n : Z) : result_key n ≠ "last_feedback".
Proof. destruct (result_key_head n) as [tail ->]. discriminate. Qed.

Lemma result_key_not_expected_correction (n : Z) : result_key n ≠ "expected_correction".
Proof. destruct (result_key_head n) as [tail ->]. discriminate. Qed.

Lemma result_key_inj (n m : Z) : result_key n = result_key m → n = m.
Proof.
  unfold result_key. intros H.
  apply (inj (String.app "step_")) in H.
  apply app_cancel_r in H. by apply (inj pretty) in H.
Qed.

(** ** Facts about one attempt *)

Section AttemptFacts.

Context {world : Type}.
Variable py : host.
Variable svc : service world.
Implicit Types σ : machine world.

Lemma build_gen_prompt_context (desc : string) (context : dict) (p : gen_prompt) :
  build_gen_prompt desc context = Ok p → prompt_context p = context.
Proof.
  unfold build_gen_prompt.
  destruct (context !! "last_feedback") as [[| | | |fb|]|]; try discriminate.
  - destruct (Str.startswith "Incorrect:" fb).
    + destruct (Re.findall _ fb) as [numbers|]; simpl; [|discriminate].
      destruct (last_number numbers); simpl; [|discriminate].
      by inversion 1.
    + by inversion 1.
  - by inversion 1.
Qed.

Lemma generate_unfold (desc : string) (context : dict) σ :
  generate_code_for_step svc desc context σ
  = match build_gen_prompt desc context with
    | Raised e => (Raised e, σ)
    | Ok p =>
        match llm_generate svc p (the_world σ) with
        | (Ok content, w) => (Ok (Str.strip content), Machine w (calls σ ++ [Generate p]))
        | (Raised e, w) => (Raised e, Machine w (calls σ ++ [Generate p]))
        end
    end.
Proof.
  unfold generate_code_for_step, bind, lift, remote, ret.
  destruct (build_gen_prompt desc context) as [p|e]; [|done].
  by destruct (llm_generate svc p (the_world σ)) as [[content|e] w].
Qed.

Lemma critique_unfold (desc out query : string) (hint : dict) σ :
  self_critique_output svc desc out query hint σ
  = match llm_critique svc desc out query hint (the_world σ) with
    | (Ok content, w) =>
        (Ok (Str.strip content), Machine w (calls σ ++ [Critique desc out query hint]))
    | (Raised e, w) => (Raised e, Machine w (calls σ ++ [Critique desc out query hint]))
    end.
Proof.
  unfold self_critique_output, bind, remote, ret.
  by destruct (llm_critique svc desc out query hint (the_world σ)) as [[content|e] w].
Qed.

Lemma attempt_once_unfold (v : variant) (query : string) (s : step) (k : nat)
    (context : dict) σ :
  attempt_once py svc v query s k context σ
  = match generate_code_for_step svc (description s) context σ with
    | (Raised e, σ1) => (Raised e, σ1)
    | (Ok code, σ1) =>
        let output := safe_exec py code context in
        match feedback_for py svc query (description s) context output σ1 with
        | (Raised e, σ2) => (Raised e, σ2)
        | (Ok feedback, σ2) =>
            let data := AttemptData (S k) code output feedback
                          (Str.startswith "correct" (Str.lower feedback)) in
            if Str.startswith "correct" (Str.lower feedback)
            then (Ok (data, <[result_key (step_num s) := output]> context), σ2)
            else match note_rejection v feedback context with
                 | Ok context' => (Ok (data, context'), σ2)
                 | Raised e => (Raised e, σ2)
                 end
        end
    end.
Proof.
  unfold attempt_once, bind.
  destruct (generate_code_for_step svc (description s) context σ) as [[code|e] σ1];
    [|done].
  simpl.
  destruct (feedback_for py svc query (description s) context
              (safe_exec py code context) σ1) as [[fb|e] σ2]; [|done].
  simpl. destruct (Str.startswith "correct" (Str.lower fb)); [done|].
  unfold lift, ret. by destruct (note_rejection v fb context).
Qed.

(** The result of an attempt that returns: the record it builds and the
    context it leaves. *)
Lemma attempt_once_ok (v : variant) (query : string) (s : step) (k : nat)
    (context : dict) σ data context' σ' :
  attempt_once py svc v query s k context σ = (Ok (data, context'), σ') →
  ∃ σ1,
    generate_code_for_step svc (description s) context σ = (Ok (code data), σ1)
    ∧ output data = safe_exec py (code data) context
    ∧ feedback_for py svc query (description s) context (output data) σ1
      = (Ok (feedback data), σ')
    ∧ attempt data = S k
    ∧ success data = Str.startswith "correct" (Str.lower (feedback data))
    ∧ (if success data
       then context' = <[result_key (step_num s) := output data]> context
       else note_rejection v (feedback data) context = Ok context').
Proof.
  rewrite attempt_once_unfold.
  destruct (generate_code_for_step svc (description s) context σ)
    as [[c|e] σ1] eqn:Hg; [|discriminate].
  simpl.
  destruct (feedback_for py svc query (description s) context
              (safe_exec py c context) σ1) as [[fb|e] σ2] eqn:Hf; [|discriminate].
  destruct (Str.startswith "correct" (Str.lower fb)) eqn:Hfb.
  - inversion 1; subst. exists σ1. simpl. rewrite Hfb. done.
  - destruct (note_rejection v fb context) as [c'|e] eqn:Hn; [|discriminate].
    inversion 1; subst. exists σ1. simpl. rewrite Hfb. done.
Qed.

(** What a rejection writes: [last_feedback] always, [expected_correction]
    sometimes, and nothing else. *)
Lemma note_rejection_ok (v : variant) (fb : string) (context context' : dict) :
  note_rejection v fb context = Ok context' →
  context' = <["last_feedback" := VStr fb]> context
  ∨ ∃ x, context' = <["expected_correction" := x]> (<["last_feedback" := VStr fb]> context).
Proof.
  unfold note_rejection.
  destruct (Str.startswith "Incorrect:" fb); [|inversion 1; by left].
  destruct (Re.findall _ fb) as [numbers|]; simpl; [|discriminate].
  destruct (last_number numbers) as [[x|]|]; simpl; [| |discriminate].
  - inversion 1. right. by exists x.
  - inversion 1. by left.
Qed.

Lemma note_rejection_result_key (v : variant) (fb : string) (context context' : dict) (n : Z) :
  note_rejection v fb context = Ok context' →
  context' !! result_key n = context !! result_key n.
Proof.
  intros [->|[x ->]]%note_rejection_ok.
  - rewrite lookup_insert_ne; [done|].
    intros H. by apply (result_key_not_last_feedback n).
  - rewrite !lookup_insert_ne; [done| |].
    + intros H. by apply (result_key_not_last_feedback n).
    + intros H. by apply (result_key_not_expected_correction n).
Qed.

Lemma note_rejection_last_feedback (v : variant) (fb : string) (context context' : dict) :
  note_rejection v fb context = Ok context' →
  context' !! "last_feedback" = Some (VStr fb).
Proof.
  intros [->|[x ->]]%note_rejection_ok.
  - apply lookup_insert_eq.
  - rewrite lookup_insert_ne; [apply lookup_insert_eq | done].
Qed.

End AttemptFacts.

(** ** Facts about the keys and the hint *)

Lemma pretty_N_char_digit (x : N) : Str.is_digit (pretty_N_char x) = true.
Proof. unfold pretty_N_char. by repeat case_match. Qed.

Lemma pretty_N_go_numeric (x : N) (s : string) :
  s ≠ "" → numeric s = true →
  pretty_N_go x s ≠ "" ∧ numeric (pretty_N_go x s) = true.
Proof.
  revert s. induction (N.lt_wf_0 x) as [x _ IH]; intros s Hne Hnum.
  assert (x = 0 ∨ 0 < x)%N as [->|Hpos] by lia.
  - by rewrite pretty_N_go_0.
  - rewrite pretty_N_go_step by done. apply IH.
    + by apply N.div_lt.
    + done.
    + simpl. by rewrite pretty_N_char_digit, Hnum.
Qed.

Lemma pretty_N_numeric (x : N) :
  pretty x ≠ "" ∧ numeric (pretty x) = true.
Proof.
  unfold pretty, pretty_N. case_decide as Hx; [done|].
  assert (0 < x)%N as Hpos by lia.
  rewrite pretty_N_go_step by done.
  apply pretty_N_go_numeric; [done|].
  simpl. by rewrite pretty_N_char_digit.
Qed.

Lemma pretty_Z_numeric (n : Z) :
  pretty n ≠ "" ∧ numeric (pretty n) = true.
Proof.
  destruct n as [|p|p]; [done| |].
  - apply (pretty_N_numeric (Npos p)).
  - destruct (pretty_N_numeric (Npos p)) as [_ Hnum]. split; [done|].
    change (pretty (Zneg p)) with ("-" +:+ pretty (Npos p)).
    change (numeric (String "-" (pretty (Npos p))) = true).
    simpl. exact Hnum.
Qed.

Lemma startswith_app (p s : string) : Str.startswith p (p +:+ s) = true.
Proof.
  induction p as [|c p IH]; [by destruct s|].
  change (Str.startswith (String c p) (String c (p +:+ s)) = true).
  unfold Str.startswith; fold Str.startswith.
  by rewrite Ascii.eqb_refl.
Qed.

Lemma endswith_app (a suffix : string) : Str.endswith suffix (a +:+ suffix) = true.
Proof.
  induction a as [|c a IH].
  - change (Str.endswith suffix suffix = true).
    destruct suffix; unfold Str.endswith; fold Str.endswith;
      by rewrite String.eqb_refl.
  - change (Str.endswith suffix (String c (a +:+ suffix)) = true).
    unfold Str.endswith; fold Str.endswith.
    destruct (String.eqb _ suffix); [done|exact IH].
Qed.

(** [replace] passes over a stretch of digits: no occurrence of "_result"
    starts in it. *)
Lemma replace_go_numeric (new s t : string) :
  numeric s = true →
  Str.replace_go "_result" new O (s +:+ t) = s +:+ Str.replace_go "_result" new O t.
Proof.
  induction s as [|c s IH]; intros Hnum; [done|].
  simpl in Hnum. apply andb_prop in Hnum as [Hc Hnum].
  change (Str.replace_go "_result" new O (String c (s +:+ t))
          = String c (s +:+ Str.replace_go "_result" new O t)).
  unfold Str.replace_go; fold Str.replace_go.
  assert (Str.startswith "_result" (String c (s +:+ t)) = false) as ->.
  { unfold Str.startswith; fold Str.startswith.
    destruct (Ascii.eqb_spec "_" c) as [<-|]; [discriminate|done]. }
  by rewrite IH.
Qed.

Lemma rekey_result_key (n : Z) :
  Str.replace "_result" "" (result_key n) = hint_key n.
Proof.
  unfold Str.replace, result_key, hint_key.
  destruct (pretty_Z_numeric n) as [Hne Hnum].
  destruct (pretty n) as [|c d] eqn:Hd; [done|].
  change (Str.replace_go "_result" "" 0
            (String "s" (String "t" (String "e" (String "p"
               (String "_" (String c d +:+ "_result"))))))
          = String "s" (String "t" (String "e" (String "p"
               (String "_" (String c d)))))).
  do 4 (unfold Str.replace_go at 1; fold Str.replace_go;
        match goal with
        | |- context [Str.startswith "_result" (String ?a ?r)] =>
            change (Str.startswith "_result" (String a r)) with false
        end; cbv iota; f_equal).
  unfold Str.replace_go at 1; fold Str.replace_go.
  assert (Str.startswith "_result" (String "_" (String c d +:+ "_result")) = false)
    as ->.
  { simpl in Hnum. apply andb_prop in Hnum as [Hc _].
    change (Str.startswith "result" (String c (d +:+ "_result")) = false).
    unfold Str.startswith; fold Str.startswith.
    destruct (Ascii.eqb_spec "r" c) as [<-|]; [discriminate|done]. }
  f_equal.
  rewrite (replace_go_numeric "" (String c d) "_result" Hnum).
  change (Str.replace_go "_result" "" 0 "_result") with "".
  clear. induction (String c d) as [|x s IH]; [done|].
  change (String x (s +:+ "") = String x s). by rewrite IH.
Qed.

Lemma hint_key_inj (n m : Z) : hint_key n = hint_key m → n = m.
Proof.
  unfold hint_key. intros H.
  apply (inj (String.app "step_")) in H. by apply (inj pretty) in H.
Qed.

Lemma result_key_trusted (n : Z) (v : value) :
  is_trusted_result (result_key n) v = negb (is_failed v).
Proof.
  unfold is_trusted_result, result_key.
  rewrite startswith_app.
  rewrite <- app_assoc_str, endswith_app. done.
Qed.

Lemma is_failed_spec (v : value) : is_failed v = true ↔ v = FAILED_TO_REFINE.
Proof.
  unfold FAILED_TO_REFINE. destruct v; simpl; try (split; [discriminate|congruence]).
  rewrite String.eqb_eq. split; congruence.
Qed.


Lemma well_keyed_insert (context : dict) (key : string) (v : value) :
  well_keyed context →
  (key = "last_feedback" ∨ key = "expected_correction" ∨ ∃ n : Z, key = result_key n) →
  well_keyed (<[key := v]> context).
Proof.
  intros Hwk Hkey k [x Hx].
  destruct (decide (key = k)) as [<-|Hne]; [done|].
  rewrite lookup_insert_ne in Hx by done. apply Hwk. by exists x.
Qed.

Lemma well_keyed_delete_insert (context : dict) (key : string) (v : value) :
  well_keyed (<[key := v]> context) → context !! key = None → well_keyed context.
Proof.
  intros Hwk Hnone k [x Hx]. apply Hwk.
  destruct (decide (key = k)) as [<-|Hne]; [congruence|].
  rewrite lookup_insert_ne by done. by exists x.
Qed.

(** The hint is the set of trusted step results, under the shortened keys. *)
Lemma expected_values_of_spec (context : dict) :
  well_keyed context →
  ∀ key v,
    expected_values_of context !! key = Some v
    ↔ ∃ n : Z, key = hint_key n ∧ context !! result_key n = Some v
               ∧ v ≠ FAILED_TO_REFINE.
Proof.
  unfold expected_values_of.
  apply (map_fold_weak_ind
           (λ r m, well_keyed m → ∀ key v,
              r !! key = Some v
              ↔ ∃ n : Z, key = hint_key n ∧ m !! result_key n = Some v
                         ∧ v ≠ FAILED_TO_REFINE)).
  - intros _ key v. rewrite lookup_empty. split; [discriminate|].
    intros (n & _ & Hn & _). by rewrite lookup_empty in Hn.
  - intros i x m r Hfresh IH Hwk key v.
    specialize (IH (well_keyed_delete_insert m i x Hwk Hfresh)).
    destruct (Hwk i) as [->|[->|[j ->]]].
    { exists x. apply lookup_insert_eq. }
    + change (is_trusted_result "last_feedback" x) with false. cbv iota.
      rewrite IH. apply exist_proper; intros n.
      rewrite lookup_insert_ne; [done|].
      intros H. by apply (result_key_not_last_feedback n).
    + change (is_trusted_result "expected_correction" x) with false. cbv iota.
      rewrite IH. apply exist_proper; intros n.
      rewrite lookup_insert_ne; [done|].
      intros H. by apply (result_key_not_expected_correction n).
    + rewrite result_key_trusted, rekey_result_key.
      destruct (is_failed x) eqn:Hfail; simpl.
      * apply is_failed_spec in Hfail as ->.
        rewrite IH. apply exist_proper; intros n.
        destruct (decide (n = j)) as [->|Hne].
        -- rewrite lookup_insert_eq, Hfresh. split.
           ++ intros (_ & [=] & _).
           ++ intros (_ & [= <-] & Hv). done.
        -- rewrite lookup_insert_ne; [done|].
           intros H. by apply result_key_inj in H.
      * assert (x ≠ FAILED_TO_REFINE) as Hx.
        { intros H. apply is_failed_spec in H. congruence. }
        destruct (decide (key = hint_key j)) as [->|Hne].
        -- rewrite lookup_insert_eq. split.
           ++ intros [= <-]. exists j. by rewrite lookup_insert_eq.
           ++ intros (n & ->%hint_key_inj & Hn & _).
              by rewrite lookup_insert_eq in Hn.
        -- rewrite lookup_insert_ne by done.
           rewrite IH. apply exist_proper; intros n.
           destruct (decide (n = j)) as [->|Hnj].
           ++ split; intros (-> & _); done.
           ++ rewrite lookup_insert_ne; [done|].
              intros H. by apply result_key_inj in H.
Qed.

(** ** Facts about the retry loop *)

Section LoopFacts.

Context {world : Type}.
Variable py : host.
Variable svc : service world.
Implicit Types σ : machine world.

Lemma retry_loop_unfold (v : variant) (query : string) (s : step)
    (remaining k : nat) (context : dict) σ :
  retry_loop py svc v query s (S remaining) k context σ
  = match attempt_once py svc v query s k context σ with
    | (Raised e, σ1) => (Raised e, σ1)
    | (Ok (data, context'), σ1) =>
        if success data then (Ok ([data], context'), σ1)
        else bind (retry_loop py svc v query s remaining (S k) context')
                  (λ '(more, c), ret (data :: more, c)) σ1
    end.
Proof.
  simpl. unfold bind at 1.
  destruct (attempt_once py svc v query s k context σ) as [[[data c1]|e] σ1];
    [|done].
  by destruct (success data).
Qed.

Lemma run_plan_unfold (v : variant) (query : string) (s : step)
    (rest : list step) (context : dict) σ :
  run_plan py svc v query (s :: rest) context σ
  = match run_step py svc v query s context σ with
    | (Raised e, σ1) => (Raised e, σ1)
    | (Ok (attempts, context'), σ1) =>
        bind (run_plan py svc v query rest context')
             (λ '(more, c), ret ((s, attempts) :: more, c)) σ1
    end.
Proof.
  simpl. unfold bind at 1.
  by destruct (run_step py svc v query s context σ) as [[[atts c1]|e] σ1].
Qed.

(** A loop that returns without an accepted attempt has used all the attempts
    it had and has written the sentinel. *)
Lemma retry_loop_exhausted (v : variant) (query : string) (s : step) :
  ∀ remaining k context σ attempts context' σ',
    retry_loop py svc v query s remaining k context σ
    = (Ok (attempts, context'), σ') →
    Forall (λ a, success a = false) attempts →
    length attempts = remaining
    ∧ context' !! result_key (step_num s) = Some FAILED_TO_REFINE.
Proof.
  induction remaining as [|remaining IH];
    intros k context σ attempts context' σ' Hrun Hall.
  - simpl in Hrun. apply ret_inv in Hrun as [[= -> ->] _].
    split; [done|]. apply lookup_insert_eq.
  - rewrite retry_loop_unfold in Hrun.
    destruct (attempt_once py svc v query s k context σ)
      as [[[data c1]|e] σ1]; [|discriminate].
    destruct (success data) eqn:Hs.
    + inversion Hrun; subst.
      apply Forall_cons in Hall as [Hd _]. congruence.
    + apply bind_ok_inv in Hrun as ([more c2] & σ2 & Hloop & Hret).
      apply ret_inv in Hret as [[= -> ->] _].
      apply Forall_cons in Hall as [_ Hall].
      destruct (IH _ _ _ _ _ _ Hloop Hall) as [Hlen Hkey].
      split; [simpl; by rewrite Hlen | done].
Qed.

End LoopFacts.

Lemma execution_failed_not_correct (diagnostic : string) :
  Str.startswith "correct" (Str.lower ("Execution failed: " +:+ diagnostic)) = false.
Proof. reflexivity. Qed.



(** ** The context only grows *)

Lemma keeps_keys_mono (c0 c1 : dict) (c : call) :
  (∀ key, is_Some (c0 !! key) → is_Some (c1 !! key)) →
  keeps_keys c1 c → keeps_keys c0 c.
Proof. intros Hsub Hk d Hd key Hkey. apply (Hk d Hd). by apply Hsub. Qed.

Lemma is_Some_insert_mono (context : dict) (k key : string) (v : value) :
  is_Some (context !! key) → is_Some (<[k := v]> context !! key).
Proof.
  intros H. destruct (decide (k = key)) as [->|Hne].
  - rewrite lookup_insert_eq. by eexists.
  - by rewrite lookup_insert_ne.
Qed.

Section GrowFacts.

Context {world : Type}.
Variable py : host.
Variable svc : service world.
Implicit Types σ : machine world.

(** The calls of one attempt: none when the prompt cannot be built, else the
    generation call and after it at most the critique. *)
Lemma attempt_once_calls (v : variant) (query : string) (s : step) (k : nat)
    (context : dict) σ r σ' :
  attempt_once py svc v query s k context σ = (r, σ') →
  (∃ e, build_gen_prompt (description s) context = Raised e
        ∧ r = Raised e ∧ σ' = σ)
  ∨ ∃ p more,
      build_gen_prompt (description s) context = Ok p
      ∧ calls σ' = calls σ ++ Generate p :: more
      ∧ Forall (λ c, is_critique c = true) more.
Proof.
  rewrite attempt_once_unfold, generate_unfold.
  destruct (build_gen_prompt (description s) context) as [p|e] eqn:Hp.
  - intros Hrun. right. exists p.
    destruct (llm_generate svc p (the_world σ)) as [[content|e] w].
    + cbv zeta in Hrun. unfold feedback_for in Hrun.
      destruct (is_execution_error (safe_exec py (Str.strip content) context)).
      * unfold ret in Hrun. exists [].
        destruct (Str.startswith "correct" _); [by inversion Hrun|].
        destruct (note_rejection v _ context); by inversion Hrun.
      * rewrite critique_unfold in Hrun.
        match type of Hrun with
        | context [llm_critique ?a1 ?a2 ?a3 ?a4 ?a5 ?a6] =>
            destruct (llm_critique a1 a2 a3 a4 a5 a6) as [[fb|e] w']
        end.
        -- exists [Critique (description s)
                     (py_str py (safe_exec py (Str.strip content) context)) query
                     (expected_values_of context)].
           split; [done|]. split; [|by repeat constructor].
           destruct (Str.startswith "correct" _);
             [inversion Hrun; subst; simpl; by rewrite <- app_assoc|].
           destruct (note_rejection v _ context); inversion Hrun; subst; simpl;
             by rewrite <- app_assoc.
        -- eexists. split; [done|].
           inversion Hrun; subst; simpl. rewrite <- app_assoc. simpl.
           split; [done|]. by repeat constructor.
    + exists []. inversion Hrun; subst. done.
  - intros Hrun. left. exists e. by inversion Hrun.
Qed.

Lemma attempt_once_grows (v : variant) (query : string) (s : step) (k : nat)
    (context : dict) :
  grows context (attempt_once py svc v query s k context).
Proof.
  intros σ r σ' Hrun.
  destruct (attempt_once_calls _ _ _ _ _ _ _ _ Hrun)
    as [(e & Hp & -> & ->)|(p & more & Hp & Hcalls & Hmore)].
  - exists []. rewrite app_nil_r. split; [done|]. split; [constructor|].
    intros x c' [=].
  - exists (Generate p :: more). split; [done|]. split.
    + constructor.
      * intros d [= <-]. by rewrite (build_gen_prompt_context _ _ _ Hp).
      * eapply Forall_impl; [exact Hmore|].
        intros c Hc d Hd. by destruct c.
    + intros data context' ->.
      destruct (attempt_once_ok py svc v query s k context σ data context' σ' Hrun)
        as (σ1 & _ & _ & _ & _ & _ & Hctx).
      intros key Hkey. destruct (success data).
      * subst. by apply is_Some_insert_mono.
      * apply note_rejection_ok in Hctx as [->|[x ->]];
          repeat apply is_Some_insert_mono; done.
Qed.

Lemma grows_bind_ok {X Y : Type} (context : dict) (m : @M world (X * dict))
    (k : X * dict → @M world (Y * dict)) :
  grows context m →
  (∀ x c, (∀ key, is_Some (context !! key) → is_Some (c !! key)) → grows c (k (x, c))) →
  grows context (bind m k).
Proof.
  intros Hm Hk σ r σ' Hrun.
  apply bind_inv in Hrun as [([x c] & σ1 & Hm1 & Hk1)|(e & Hm1 & ->)].
  - destruct (Hm _ _ _ Hm1) as (new1 & Hc1 & Hall1 & Hsub1).
    specialize (Hsub1 x c eq_refl).
    destruct (Hk x c Hsub1 _ _ _ Hk1) as (new2 & Hc2 & Hall2 & Hsub2).
    exists (new1 ++ new2). split; [by rewrite Hc2, Hc1, app_assoc|]. split.
    + apply Forall_app. split; [done|].
      eapply Forall_impl; [exact Hall2|].
      intros c0. by apply keeps_keys_mono.
    + intros y c' ->. intros key Hkey. apply (Hsub2 y c' eq_refl). by apply Hsub1.
  - destruct (Hm _ _ _ Hm1) as (new1 & Hc1 & Hall1 & _).
    exists new1. split; [done|]. split; [done|]. intros y c' [=].
Qed.

Lemma grows_ret {X : Type} (context c : dict) (x : X) :
  (∀ key, is_Some (context !! key) → is_Some (c !! key)) →
  grows (world := world) context (ret (x, c)).
Proof.
  intros Hsub σ r σ' [-> ->]%ret_inv.
  exists []. rewrite app_nil_r. split; [done|]. split; [constructor|].
  intros y c' [= <- <-]. done.
Qed.

Lemma retry_loop_grows (v : variant) (query : string) (s : step) :
  ∀ remaining k context,
    grows context (retry_loop py svc v query s remaining k context).
Proof.
  induction remaining as [|remaining IH]; intros k context.
  - simpl. apply grows_ret. intros key. apply is_Some_insert_mono.
  - simpl. apply grows_bind_ok; [apply attempt_once_grows|].
    intros data c Hsub. destruct (success data).
    + by apply grows_ret.
    + apply grows_bind_ok; [apply IH|].
      intros more c' Hsub'. by apply grows_ret.
Qed.

Lemma run_step_grows (v : variant) (query : string) (s : step) (context : dict) :
  grows context (run_step py svc v query s context).
Proof.
  unfold run_step. destruct (enters_retry_loop v (type s)).
  - apply retry_loop_grows.
  - by apply grows_ret.
Qed.

Lemma run_plan_grows (v : variant) (query : string) :
  ∀ todo context, grows context (run_plan py svc v query todo context).
Proof.
  induction todo as [|s rest IH]; intros context.
  - simpl. by apply grows_ret.
  - simpl. apply grows_bind_ok; [apply run_step_grows|].
    intros attempts c Hsub.
    apply grows_bind_ok; [apply IH|].
    intros more c' Hsub'. by apply grows_ret.
Qed.

End GrowFacts.

(** ** The loops keep the context well keyed *)

Section WellKeyedFacts.

Context {world : Type}.
Variable py : host.
Variable svc : service world.
Implicit Types σ : machine world.

Lemma note_rejection_well_keyed (v : variant) (fb : string) (context context' : dict) :
  well_keyed context → note_rejection v fb context = Ok context' →
  well_keyed context'.
Proof.
  intros Hwk [->|[x ->]]%note_rejection_ok;
    repeat (apply well_keyed_insert; [|by auto]); done.
Qed.

Lemma attempt_once_well_keyed (v : variant) (query : string) (s : step) (k : nat)
    (context context' : dict) σ σ' data :
  well_keyed context →
  attempt_once py svc v query s k context σ = (Ok (data, context'), σ') →
  well_keyed context'.
Proof.
  intros Hwk Hrun.
  destruct (attempt_once_ok py svc v query s k context σ data context' σ' Hrun)
    as (σ1 & _ & _ & _ & _ & _ & Hctx).
  destruct (success data).
  - subst. apply well_keyed_insert; [done|]. right; right. by eexists.
  - by apply note_rejection_well_keyed with v (feedback data) context.
Qed.

Lemma retry_loop_well_keyed (v : variant) (query : string) (s : step) :
  ∀ remaining k context σ attempts context' σ',
    well_keyed context →
    retry_loop py svc v query s remaining k context σ
    = (Ok (attempts, context'), σ') →
    well_keyed context'.
Proof.
  induction remaining as [|remaining IH];
    intros k context σ attempts context' σ' Hwk Hrun.
  - simpl in Hrun. apply ret_inv in Hrun as [[= -> ->] _].
    apply well_keyed_insert; [done|]. right; right. by eexists.
  - rewrite retry_loop_unfold in Hrun.
    destruct (attempt_once py svc v query s k context σ)
      as [[[data c1]|e] σ1] eqn:Hatt; [|discriminate].
    apply attempt_once_well_keyed in Hatt; [|done].
    destruct (success data).
    + by inversion Hrun; subst.
    + apply bind_ok_inv in Hrun as ([more c2] & σ2 & Hloop & Hret).
      apply ret_inv in Hret as [[= -> ->] _].
      by apply (IH _ _ _ _ _ _ Hatt Hloop).
Qed.

Lemma run_plan_well_keyed (v : variant) (query : string) :
  ∀ todo context σ done context' σ',
    well_keyed context →
    run_plan py svc v query todo context σ = (Ok (done, context'), σ') →
    well_keyed context'.
Proof.
  induction todo as [|s rest IH]; intros context σ done context' σ' Hwk Hrun.
  - simpl in Hrun. by apply ret_inv in Hrun as [[= -> ->] _].
  - rewrite run_plan_unfold in Hrun.
    destruct (run_step py svc v query s context σ)
      as [[[attempts c1]|e] σ1] eqn:Hstep; [|discriminate].
    apply bind_ok_inv in Hrun as ([more c2] & σ2 & Hrest & Hret).
    apply ret_inv in Hret as [[= -> ->] _].
    apply (IH _ _ _ _ _) in Hrest; [done|].
    unfold run_step in Hstep. destruct (enters_retry_loop v (type s)).
    + by apply retry_loop_well_keyed in Hstep.
    + by apply ret_inv in Hstep as [[= -> ->] _].
Qed.

End WellKeyedFacts.

(** ** The claims about the sandbox *)

(** The constructs that the specification names as disallowed are outside the
    allow-list, whatever their children: calls, imports, attribute and index
    access, string and collection literals, control flow, comprehensions, and
    also the operators and unary operators that are not listed. *)
Lemma named_constructs_not_allowed (children : list ast) (s : string) (b : bool) :
  Forall (λ n, allowed n = false)
    [Other "Call" children; Other "Import" children; Other "ImportFrom" children;
     Other "Attribute" children; Other "Subscript" children;
     Constant (CStr s); Constant (CBool b); Constant CNone;
     Other "List" children; Other "Tuple" children; Other "Dict" children;
     Other "If" children; Other "While" children; Other "For" children;
     Other "ListComp" children; Other "Lambda" children; Other "Expr" children;
     Other "AugAssign" children; Other "Compare" children;
     UAdd; Not; Invert; BitOr; BitAnd; BitXor; LShift; RShift; MatMult; Del].
Proof. repeat constructor. Qed.

Lemma safe_exec_rejected (py : host) (code_str : string) (tree : ast) (e : exn)
    (context : dict) :
  ast_parse py code_str = Ok tree →
  _validate_ast tree = Raised e →
  safe_exec py code_str context = VStr ("EXECUTION_ERROR: " +:+ exc_str e).
Proof.
  intros Hparse Hval. unfold safe_exec, safe_exec_try.
  rewrite Hparse. simpl. by rewrite Hval.
Qed.

(** C1. A snippet whose tree holds a node outside the allow-list is rejected
    by the validator at the first such node in the order of [ast.walk]; the
    sandbox returns the execution error that names the class of that node,
    whatever the context and whatever the host would do when compiling or
    evaluating, since neither is reached: not even the copy of the context is
    made, the heap is returned as it was. *)
Theorem disallowed_construct_is_rejected (py : host) (code_str : string)
    (tree bad : ast) (context : dict) :
  ast_parse py code_str = Ok tree →
  occurs_in bad tree →
  allowed bad = false →
  ∃ before first after,
    walk tree = before ++ first :: after
    ∧ Forall (λ n, allowed n = true) before
    ∧ allowed first = false
    ∧ occurs_in first tree
    ∧ _validate_ast tree
      = Raised (Exn "ValueError" ("Disallowed Python syntax: " +:+ class_name first))
    ∧ (∀ compile_check builtins host_binop host_unaryop host_str context',
         safe_exec (Host (ast_parse py) compile_check builtins host_binop
                         host_unaryop host_str) code_str context'
         = VStr ("EXECUTION_ERROR: Disallowed Python syntax: " +:+ class_name first))
    ∧ (∀ a h,
         safe_exec_at py code_str a h
         = (VStr ("EXECUTION_ERROR: Disallowed Python syntax: " +:+ class_name first),
            h))
    ∧ safe_exec py code_str context
      = VStr ("EXECUTION_ERROR: Disallowed Python syntax: " +:+ class_name first)
    ∧ is_execution_error (safe_exec py code_str context) = true.
Proof.
  intros Hparse Hocc Hbad.
  apply elem_of_walk in Hocc.
  destruct (validate_nodes_raises (walk tree) bad Hocc Hbad)
    as (before & first & after & Hwalk & Hall & Hfirst & Hval).
  exists before, first, after.
  assert (occurs_in first tree) as Hin.
  { apply elem_of_walk. rewrite Hwalk. apply elem_of_app; right.
    apply elem_of_cons; by left. }
  assert (safe_exec py code_str context
          = VStr ("EXECUTION_ERROR: Disallowed Python syntax: " +:+ class_name first))
    as Hexec.
  { by rewrite (safe_exec_rejected py code_str tree _ context Hparse Hval). }
  repeat split; try done.
  - intros cc bi hb hu hs context'.
    exact (safe_exec_rejected (Host (ast_parse py) cc bi hb hu hs) code_str tree _
             context' Hparse Hval).
  - intros a h. unfold safe_exec_at, _validate_ast. rewrite Hparse. simpl.
    by rewrite Hval.
  - by rewrite Hexec.
Qed.

(** A run that nowhere stores to [result] returns the [None] that
    [safe_exec] put there. *)
Lemma result_stays_none (py : host) (code_str : string) (tree : ast)
    (context scope' : dict) :
  ast_parse py code_str = Ok tree →
  _validate_ast tree = Ok tt →
  compile_check py tree = Ok tt →
  exec_ py tree (<["result" := VNone]> context) = Ok scope' →
  ¬ occurs_in (Name "result" Store) tree →
  safe_exec py code_str context = VNone.
Proof.
  intros Hparse Hval Hcomp Hexec Hnot.
  unfold safe_exec, safe_exec_try.
  rewrite Hparse. simpl. rewrite Hval. simpl. rewrite Hcomp. simpl.
  rewrite Hexec. simpl.
  destruct tree; try discriminate. simpl in Hexec.
  rewrite (exec_body_other py "result" body (<["result" := VNone]> context) scope');
    [| |done].
  - by rewrite lookup_insert_eq.
  - intros s t Hs Ht ->. apply Hnot.
    apply occurs_below with s; [done|].
    apply occurs_below with (Name "result" Store); [done|constructor].
Qed.

(** C7. A snippet that the validator accepts, that runs without a fault and
    that nowhere stores to [result] gives [None], which the test for an
    execution error does not take for one. *)
Theorem unassigned_result_is_none (py : host) (code_str : string) (tree : ast)
    (context scope' : dict) :
  ast_parse py code_str = Ok tree →
  _validate_ast tree = Ok tt →
  compile_check py tree = Ok tt →
  exec_ py tree (<["result" := VNone]> context) = Ok scope' →
  ¬ occurs_in (Name "result" Store) tree →
  safe_exec py code_str context = VNone
  ∧ is_execution_error (safe_exec py code_str context) = false
  ∧ ∀ a h, h !! a = Some context → (safe_exec_at py code_str a h).1 = VNone.
Proof.
  intros Hparse Hval Hcomp Hexec Hnot.
  pose proof (result_stays_none py code_str tree context scope'
                Hparse Hval Hcomp Hexec Hnot) as Hnone.
  rewrite Hnone. split; [done|]. split; [done|].
  intros a h Ha. destruct (safe_exec_at_spec py code_str a h context Ha) as [-> _].
  exact Hnone.
Qed.

(** C8. The outcome of a call is a function of the snippet and of the
    contents of the scope, whatever else the heap holds, and the call leaves
    every dictionary that was there as it was: the snippet writes to the copy.
    So when snippets are run one after the other against the same dictionary,
    each outcome is the one that call would give on its own, and a snippet that
    is run again, after any other snippets, gives the same outcome again. *)
Theorem safe_exec_is_stateless (py : host) (codes others : list string)
    (code_str : string) (a : nat) (h : heap) (context : dict) :
  h !! a = Some context →
  (safe_exec_at py code_str a h).1 = safe_exec py code_str context
  ∧ (∀ b, is_Some (h !! b) → (safe_exec_at py code_str a h).2 !! b = h !! b)
  ∧ (safe_exec_calls py codes a h).1 = map (λ c, safe_exec py c context) codes
  ∧ (∀ b, is_Some (h !! b) → (safe_exec_calls py codes a h).2 !! b = h !! b)
  ∧ ∃ outcome between,
      (safe_exec_calls py (code_str :: others ++ [code_str]) a h).1
      = outcome :: between ++ [outcome].
Proof.
  intros Ha.
  destruct (safe_exec_at_spec py code_str a h context Ha) as [Hv Hkept].
  destruct (safe_exec_calls_spec py codes a context h Ha) as [Hvs Hkepts].
  repeat split; try done.
  exists (safe_exec py code_str context), (map (λ c, safe_exec py c context) others).
  destruct (safe_exec_calls_spec py (code_str :: others ++ [code_str]) a context h Ha)
    as [-> _].
  simpl. by rewrite map_app.
Qed.

(** ** What a finished step leaves for the next one *)

Lemma build_gen_prompt_feedback (desc fb : string) (context : dict) (p : gen_prompt) :
  context !! "last_feedback" = Some (VStr fb) →
  build_gen_prompt desc context = Ok p →
  feedback_context p
  = "Previous attempt was incorrect. Feedback: " +:+ fb +:+ String "010" "".
Proof.
  unfold build_gen_prompt. intros ->.
  destruct (Str.startswith "Incorrect:" fb).
  - destruct (Re.findall _ fb) as [numbers|]; simpl; [|discriminate].
    destruct (last_number numbers); simpl; [|discriminate].
    by inversion 1.
  - by inversion 1.
Qed.

Section PersistFacts.

Context {world : Type}.
Variable py : host.
Variable svc : service world.
Implicit Types σ : machine world.

(** After the loop of a step, [last_feedback] holds the feedback of the last
    attempt that was rejected in it; a step without a rejection leaves what it
    found. *)
Lemma retry_loop_last_feedback (v : variant) (query : string) (s : step) :
  ∀ remaining k context σ attempts context' σ',
    retry_loop py svc v query s remaining k context σ
    = (Ok (attempts, context'), σ') →
    context' !! "last_feedback"
    = match last (filter (λ a, success a = false) attempts) with
      | Some a => Some (VStr (feedback a))
      | None => context !! "last_feedback"
      end.
Proof.
  induction remaining as [|remaining IH];
    intros k context σ attempts context' σ' Hrun.
  - simpl in Hrun. apply ret_inv in Hrun as [[= -> ->] _].
    rewrite filter_nil. simpl. apply lookup_insert_ne.
    apply result_key_not_last_feedback.
  - rewrite retry_loop_unfold in Hrun.
    destruct (attempt_once py svc v query s k context σ)
      as [[[data c1]|e] σ1] eqn:Hatt; [|discriminate].
    destruct (attempt_once_ok py svc v query s k context σ data c1 σ1 Hatt)
      as (σ0 & _ & _ & _ & _ & _ & Hctx).
    destruct (success data) eqn:Hs.
    + inversion Hrun; subst.
      rewrite filter_cons_False by congruence. rewrite filter_nil. simpl.
      apply lookup_insert_ne. apply result_key_not_last_feedback.
    + apply bind_ok_inv in Hrun as ([more c2] & σ2 & Hloop & Hret).
      apply ret_inv in Hret as [[= -> ->] _].
      rewrite (IH _ _ _ _ _ _ Hloop).
      rewrite filter_cons_True by done. rewrite last_cons.
      destruct (last (filter _ more)); [done|].
      by apply note_rejection_last_feedback with v context.
Qed.

(** The first call of a loop with an attempt left is the generation, and it
    is handed the context as the loop found it. *)
Lemma retry_loop_first_call (v : variant) (query : string) (s : step)
    (remaining k : nat) (context : dict) σ r σ' :
  retry_loop py svc v query s (S remaining) k context σ = (r, σ') →
  (∃ e, build_gen_prompt (description s) context = Raised e
        ∧ r = Raised e ∧ σ' = σ)
  ∨ ∃ p more,
      build_gen_prompt (description s) context = Ok p
      ∧ calls σ' = calls σ ++ Generate p :: more.
Proof.
  intros Hrun. rewrite retry_loop_unfold in Hrun.
  destruct (attempt_once py svc v query s k context σ) as [ra σa] eqn:Hatt.
  destruct (attempt_once_calls py svc v query s k context σ ra σa Hatt)
    as [(e & Hp & -> & ->)|(p & more & Hp & Hcalls & _)].
  { left. exists e. by inversion Hrun. }
  right. exists p.
  destruct ra as [[data c1]|e]; [|inversion Hrun; subst; by exists more].
  destruct (success data); [inversion Hrun; subst; by exists more|].
  assert (grows c1 (bind (retry_loop py svc v query s remaining (S k) c1)
                         (λ '(more, c), ret (data :: more, c)))) as Hgrows.
  { apply grows_bind_ok; [apply retry_loop_grows|].
    intros x c Hsub. by apply grows_ret. }
  destruct (Hgrows _ _ _ Hrun) as (new & Hnew & _).
  exists (more ++ new). rewrite Hnew, Hcalls. by rewrite <- app_assoc.
Qed.

Lemma run_plan_first_call (v : variant) (query : string) (s : step)
    (rest : list step) (context : dict) σ r σ' :
  enters_retry_loop v (type s) = true →
  run_plan py svc v query (s :: rest) context σ = (r, σ') →
  (∃ e, build_gen_prompt (description s) context = Raised e
        ∧ r = Raised e ∧ σ' = σ)
  ∨ ∃ p more,
      build_gen_prompt (description s) context = Ok p
      ∧ calls σ' = calls σ ++ Generate p :: more.
Proof.
  intros Henter Hrun.
  rewrite run_plan_unfold in Hrun. unfold run_step in Hrun.
  rewrite Henter in Hrun. unfold MAX_CRITIQUE_ATTEMPTS in Hrun.
  destruct (retry_loop py svc v query s 3 0 context σ) as [ra σa] eqn:Hloop.
  destruct (retry_loop_first_call v query s 2 0 context σ ra σa Hloop)
    as [(e & Hp & -> & ->)|(p & more & Hp & Hcalls)].
  { left. exists e. by inversion Hrun. }
  right. exists p.
  destruct ra as [[attempts c1]|e]; [|inversion Hrun; subst; by exists more].
  assert (grows c1 (bind (run_plan py svc v query rest c1)
                         (λ '(more, c), ret ((s, attempts) :: more, c)))) as Hgrows.
  { apply grows_bind_ok; [apply run_plan_grows|].
    intros x c Hsub. by apply grows_ret. }
  destruct (Hgrows _ _ _ Hrun) as (new & Hnew & _).
  exists (more ++ new). rewrite Hnew, Hcalls. by rewrite <- app_assoc.
Qed.

(** The shape of a loop that returns: its records are numbered from the
    attempt it started at, an accepted attempt is the last one and its output
    is the result of the step, and the log has one generation call for each
    record. *)
Lemma retry_loop_shape (v : variant) (query : string) (s : step) :
  ∀ remaining k context σ attempts context' σ',
    retry_loop py svc v query s remaining k context σ
    = (Ok (attempts, context'), σ') →
    (length attempts ≤ remaining)%nat
    ∧ (∀ i a, attempts !! i = Some a →
         attempt a = S (k + i)
         ∧ (success a = true →
              length attempts = S i
              ∧ context' !! result_key (step_num s) = Some (output a)))
    ∧ ∃ new, calls σ' = calls σ ++ new ∧ generations new = length attempts.
Proof.
  induction remaining as [|remaining IH];
    intros k context σ attempts context' σ' Hrun.
  - simpl in Hrun. apply ret_inv in Hrun as [[= -> ->] ->].
    split; [done|]. split; [intros i a [=]|].
    exists []. by rewrite app_nil_r.
  - rewrite retry_loop_unfold in Hrun.
    destruct (attempt_once py svc v query s k context σ)
      as [[[data c1]|e] σ1] eqn:Hatt; [|discriminate].
    destruct (attempt_once_ok py svc v query s k context σ data c1 σ1 Hatt)
      as (σ0 & _ & _ & _ & Hno & _ & Hctx).
    destruct (attempt_once_calls py svc v query s k context σ _ _ Hatt)
      as [(e & _ & [=] & _)|(p & more & _ & Hcalls & Hmore)].
    assert (generations (Generate p :: more) = 1%nat) as Hone.
    { unfold generations. rewrite filter_cons_True by done. simpl. f_equal.
      clear -Hmore. induction Hmore as [|c l Hc _ IHl]; [done|].
      rewrite filter_cons_False; [done|]. destruct c; simpl in *; congruence. }
    destruct (success data) eqn:Hs.
    + inversion Hrun; subst. split; [simpl; lia|]. split.
      * intros [|i] a [=]; subst. split; [by rewrite Nat.add_0_r|].
        intros _. split; [done|]. apply lookup_insert_eq.
      * by exists (Generate p :: more).
    + apply bind_ok_inv in Hrun as ([rest c2] & σ2 & Hloop & Hret).
      apply ret_inv in Hret as [[= -> ->] ->].
      destruct (IH _ _ _ _ _ _ Hloop) as (Hlen & Hrec & new & Hnew & Hgen).
      split; [simpl; lia|]. split.
      * intros [|i] a Ha; simpl in Ha.
        -- inversion Ha; subst. split; [by rewrite Nat.add_0_r|]. congruence.
        -- destruct (Hrec i a Ha) as [Hnum Hacc].
           split; [rewrite Hnum; lia|].
           intros Hsucc. destruct (Hacc Hsucc) as [Hl Hk].
           split; [simpl; by rewrite Hl | done].
      * exists ((Generate p :: more) ++ new). split.
        -- by rewrite Hnew, Hcalls, <- app_assoc.
        -- unfold generations in *. rewrite filter_app, length_app.
           rewrite Hone, Hgen. done.
Qed.

Lemma synthesize_unfold (query : string) (final : dict) σ :
  synthesize_answer svc query final σ
  = match llm_synthesize svc query final (the_world σ) with
    | (Ok content, w) =>
        (Ok (Str.strip content), Machine w (calls σ ++ [Synthesize query final]))
    | (Raised e, w) => (Raised e, Machine w (calls σ ++ [Synthesize query final]))
    end.
Proof.
  unfold synthesize_answer, bind, remote, ret.
  by destruct (llm_synthesize svc query final (the_world σ)) as [[content|e] w].
Qed.

End PersistFacts.

(** ** Facts about the two patterns *)

Lemma blocking_pattern_compiles (v : variant) :
  v ≠ Stream → Re.compile (numbers_pattern v) = Some blocking_re.
Proof. by destruct v. Qed.

Lemma streaming_pattern_compiles :
  Re.compile (numbers_pattern Stream) = Some streaming_re.
Proof. reflexivity. Qed.

Lemma orelse_some_r (a : option string) (x : string) :
  ∃ y, Re.orelse a (Some x) = Some y.
Proof. destruct a; simpl; eauto. Qed.

Lemma orelse_inv (a b : option string) (x : string) :
  Re.orelse a b = Some x → a = Some x ∨ b = Some x.
Proof. destruct a; simpl; auto. Qed.

(** A run of digits matched by [\d+]: what is handed to the continuation is
    the text behind a non-empty stretch of digits. *)
Lemma plus_digit_inv (k : string → option string) (s rest : string) :
  Re.match_here (Re.Plus Re.Digit) s k = Some rest →
  ∃ d s', s = d +:+ s' ∧ d ≠ "" ∧ all_digits d = true ∧ k s' = Some rest.
Proof.
  cbn [Re.match_here]. generalize (String.length s) at 1. intros n.
  revert s. induction n as [|n IH]; intros s.
  - destruct s as [|c s']; [discriminate|].
    destruct (Str.is_digit c) eqn:Hc; [|discriminate].
    intros Hk. exists (String c ""), s'. simpl; by rewrite Hc.
  - destruct s as [|c s']; [discriminate|]. cbn beta iota delta [Re.match_here].
    destruct (Str.is_digit c) eqn:Hc; [|discriminate].
    destruct (String.length s' <? String.length (String c s'))%nat.
    + intros [Hloop|Hk]%orelse_inv.
      * destruct (IH s' Hloop) as (d & s'' & -> & Hne & Hd & Hk).
        exists (String c d), s''. simpl; by rewrite Hc, Hd.
      * exists (String c ""), s'. simpl; by rewrite Hc.
    + intros Hk. exists (String c ""), s'. simpl; by rewrite Hc.
Qed.

Lemma substring_prefix (m rest : string) :
  String.substring 0 (String.length m) (m +:+ rest) = m.
Proof.
  induction m as [|c m IH]; simpl.
  - by destruct rest.
  - change (String c m +:+ rest) with (String c (m +:+ rest)). by rewrite IH.
Qed.

Lemma matched_prefix (m rest : string) :
  String.substring 0 (String.length (m +:+ rest) - String.length rest) (m +:+ rest)
  = m.
Proof.
  rewrite str_length_app.
  replace (String.length m + String.length rest - String.length rest)%nat
    with (String.length m) by lia.
  apply substring_prefix.
Qed.

Lemma all_digits_split_dot (d : string) :
  all_digits d = true → ∀ tail, split_dot (d +:+ tail) =
    (let '(a, b) := split_dot tail in (d +:+ a, b)).
Proof.
  induction d as [|c d IH]; intros Hd tail.
  - change ("" +:+ tail) with tail. by destruct (split_dot tail).
  - simpl in Hd. apply andb_true_iff in Hd as [Hc Hd].
    change (String c d +:+ tail) with (String c (d +:+ tail)). simpl.
    destruct (Ascii.eqb c ".") eqn:Hdot.
    { apply Ascii.eqb_eq in Hdot as ->. discriminate. }
    rewrite (IH Hd). by destruct (split_dot tail).
Qed.

Lemma app_empty_r (s : string) : s +:+ "" = s.
Proof.
  induction s as [|c s IH]; [done|].
  change (String c s +:+ "") with (String c (s +:+ "")). by rewrite IH.
Qed.

Lemma is_numeral_digits (d : string) :
  d ≠ "" → all_digits d = true → is_numeral d = true.
Proof.
  intros Hne Hd. unfold is_numeral. rewrite Hd.
  destruct d; [done|]. reflexivity.
Qed.

Lemma is_decimal_whole (d : string) :
  d ≠ "" → all_digits d = true → is_decimal d = true.
Proof.
  intros Hne Hd. unfold is_decimal.
  rewrite <- (app_empty_r d) at 1. rewrite (all_digits_split_dot _ Hd). simpl.
  rewrite app_empty_r. by apply is_numeral_digits.
Qed.

Lemma is_decimal_fraction (d1 d2 : string) :
  d1 ≠ "" → all_digits d1 = true → d2 ≠ "" → all_digits d2 = true →
  is_decimal (d1 +:+ String "." d2) = true.
Proof.
  intros Hne1 Hd1 Hne2 Hd2. unfold is_decimal.
  rewrite (all_digits_split_dot _ Hd1). simpl. rewrite app_empty_r.
  by rewrite !is_numeral_digits.
Qed.

(** What the pattern of the blocking loops matches at the start of a text is
    a numeral. *)
Lemma blocking_match_inv (s rest : string) :
  Re.match_here blocking_re s Some = Some rest →
  ∃ token, s = token +:+ rest ∧ is_decimal token = true.
Proof.
  unfold blocking_re. cbn [Re.match_here].
  intros (d1 & s1 & -> & Hne1 & Hd1 & Hk)%plus_digit_inv.
  cbn [Re.match_here] in Hk.
  apply orelse_inv in Hk as [Hk|[= <-]].
  - destruct s1 as [|c s1]; [discriminate|].
    destruct (Ascii.eqb "." c) eqn:Hdot; [|discriminate].
    apply Ascii.eqb_eq in Hdot as <-.
    apply plus_digit_inv in Hk as (d2 & s2 & -> & Hne2 & Hd2 & [= <-]).
    exists (d1 +:+ String "." d2). split; [|by apply is_decimal_fraction].
    rewrite app_assoc_str. reflexivity.
  - exists d1. split; [done|]. by apply is_decimal_whole.
Qed.

Lemma blocking_no_match_empty : Re.match_here blocking_re "" Some = None.
Proof. reflexivity. Qed.

(** Every token that [findall] yields for the pattern of the blocking loops
    is a numeral. *)
Lemma findall_blocking_decimal (s : string) (skip : nat) :
  Forall (λ token, is_decimal token = true) (Re.findall_go blocking_re skip s).
Proof.
  revert skip. induction s as [|c s IH]; intros skip.
  - cbn [Re.findall_go]. rewrite blocking_no_match_empty. by destruct skip.
  - cbn [Re.findall_go]. destruct skip as [|skip]; [|apply IH].
    destruct (Re.match_here blocking_re (String c s) Some) as [rest|] eqn:Hm;
      [|apply IH].
    apply blocking_match_inv in Hm as (token & Hs & Hdec).
    rewrite Hs, matched_prefix. constructor; [done|apply IH].
Qed.

Lemma plus_digit_starts (k : string → option string) (c : ascii) (s : string) :
  (∀ s', ∃ rest, k s' = Some rest) → Str.is_digit c = true →
  ∃ rest, Re.match_here (Re.Plus Re.Digit) (String c s) k = Some rest.
Proof.
  intros Hk Hc. cbn [Re.match_here].
  generalize (String.length (String c s)). intros [|n].
  - rewrite Hc. apply Hk.
  - cbn beta iota delta [Re.match_here]. rewrite Hc.
    destruct (Hk s) as [y Hy].
    destruct (String.length s <? String.length (String c s))%nat; [|eauto].
    rewrite Hy. apply orelse_some_r.
Qed.

Lemma digit_starts_match (c : ascii) (s : string) :
  Str.is_digit c = true →
  ∃ rest, Re.match_here blocking_re (String c s) Some = Some rest.
Proof.
  intros Hc. unfold blocking_re.
  change (∃ rest, Re.match_here (Re.Plus Re.Digit) (String c s)
            (λ s', Re.orelse
               (Re.match_here
                  (Re.Seq (Re.Lit ".") (Re.Seq (Re.Plus Re.Digit) Re.Eps)) s' Some)
               (Some s')) = Some rest).
  apply plus_digit_starts; [|done]. intros s'. apply orelse_some_r.
Qed.

Lemma no_digit_no_match (c : ascii) (s : string) :
  Str.is_digit c = false → Re.match_here blocking_re (String c s) Some = None.
Proof.
  intros Hc. unfold blocking_re. cbn [Re.match_here].
  generalize (String.length (String c s)). intros [|n]; by rewrite Hc.
Qed.

(** [findall] with the pattern of the blocking loops finds a token exactly
    in a text that holds a digit. *)
Lemma findall_blocking_none (s : string) (skip : nat) :
  has_digit s = false → Re.findall_go blocking_re skip s = [].
Proof.
  revert skip. induction s as [|c s IH]; intros skip Hs.
  - cbn [Re.findall_go]. rewrite blocking_no_match_empty. by destruct skip.
  - simpl in Hs. apply orb_false_iff in Hs as [Hc Hs].
    cbn [Re.findall_go]. destruct skip as [|skip]; [|by apply IH].
    rewrite (no_digit_no_match _ _ Hc). by apply IH.
Qed.

Lemma findall_blocking_some (s : string) :
  has_digit s = true → Re.findall_go blocking_re 0 s ≠ [].
Proof.
  induction s as [|c s IH]; intros Hs; [discriminate|].
  cbn [Re.findall_go].
  destruct (Re.match_here blocking_re (String c s) Some) as [rest|] eqn:Hm;
    [done|].
  destruct (Str.is_digit c) eqn:Hc.
  - destruct (digit_starts_match c s Hc) as [rest Hrest]. congruence.
  - simpl in Hs. rewrite Hc in Hs. by apply IH.
Qed.

Lemma py_float_decimal (token : string) :
  is_decimal token = true → ∃ x, py_float token = Ok (VFloat x).
Proof.
  unfold is_decimal, py_float.
  destruct (split_dot token) as [whole [frac|]]; intros ->; eauto.
Qed.

Lemma last_number_blocking (s : string) :
  (has_digit s = false ∧ last_number (Re.findall_go blocking_re 0 s) = Ok None)
  ∨ (has_digit s = true
     ∧ ∃ x, last_number (Re.findall_go blocking_re 0 s) = Ok (Some (VFloat x))).
Proof.
  destruct (has_digit s) eqn:Hs.
  - right. split; [done|].
    pose proof (findall_blocking_some s Hs) as Hne.
    pose proof (findall_blocking_decimal s 0) as Hall.
    unfold last_number.
    destruct (last (Re.findall_go blocking_re 0 s)) as [token|] eqn:Hlast.
    + apply last_Some in Hlast as [l' Hl']. rewrite Hl' in Hall.
      apply Forall_app in Hall as [_ Hall%Forall_inv].
      destruct (py_float_decimal _ Hall) as [x ->]. eauto.
    + by apply last_None in Hlast.
  - left. split; [done|]. by rewrite findall_blocking_none.
Qed.

(** A match consumes a prefix: the continuation is run on a suffix of the
    text. *)
Lemma match_here_suffix (r : Re.regex) :
  ∀ (s : string) (k : string → option string) (rest : string),
  Re.match_here r s k = Some rest →
  ∃ m s', s = m +:+ s' ∧ k s' = Some rest.
Proof.
  induction r as [|c| | |r1 IH1 r2 IH2|r IH|r IH]; intros s k rest.
  - intros Hk. by exists "", s.
  - destruct s as [|c' s]; [discriminate|]. simpl.
    destruct (Ascii.eqb c c'); [|discriminate]. intros Hk.
    by exists (String c' ""), s.
  - destruct s as [|c' s]; [discriminate|]. simpl.
    destruct (Str.is_digit c'); [|discriminate]. intros Hk.
    by exists (String c' ""), s.
  - destruct s as [|c' s]; [discriminate|]. simpl.
    destruct (Ascii.eqb c' "010"); [discriminate|]. intros Hk.
    by exists (String c' ""), s.
  - cbn [Re.match_here].
    intros (m1 & s1 & -> & (m2 & s2 & -> & Hk)%IH2)%IH1.
    exists (m1 +:+ m2), s2. by rewrite app_assoc_str.
  - cbn [Re.match_here]. generalize (String.length s) at 1. intros n.
    revert s. induction n as [|n IHn]; intros s.
    + apply IH.
    + intros (m1 & s1 & -> & Hk)%IH.
      destruct (String.length s1 <? String.length (m1 +:+ s1))%nat; [|eauto].
      apply orelse_inv in Hk as [(m2 & s2 & -> & Hk)%IHn|Hk]; [|eauto].
      exists (m1 +:+ m2), s2. by rewrite app_assoc_str.
  - cbn [Re.match_here]. intros [Hk|Hk]%orelse_inv; [by apply IH|].
    by exists "", s.
Qed.

Lemma match_lit_seq_inv (c : ascii) (r : Re.regex) (s : string)
    (k : string → option string) (rest : string) :
  Re.match_here (Re.Seq (Re.Lit c) r) s k = Some rest →
  ∃ s1, s = String c s1 ∧ Re.match_here r s1 k = Some rest.
Proof.
  cbn [Re.match_here]. destruct s as [|c' s]; [discriminate|].
  destruct (Ascii.eqb c c') eqn:Hc; [|discriminate].
  apply Ascii.eqb_eq in Hc as <-. eauto.
Qed.

Lemma streaming_match_inv (s rest : string) :
  Re.match_here streaming_re s Some = Some rest →
  ∃ m, s = String "\" m +:+ rest.
Proof.
  unfold streaming_re.
  intros (s1 & -> & (m & s' & -> & [= <-])%match_here_suffix)%match_lit_seq_inv.
  by exists m.
Qed.

Lemma streaming_no_match_empty : Re.match_here streaming_re "" Some = None.
Proof. reflexivity. Qed.

(** Every token that [findall] yields for the pattern of the streaming loop
    starts with a backslash. *)
Lemma findall_streaming_backslash (s : string) (skip : nat) :
  Forall (λ token, ∃ m, token = String "\" m) (Re.findall_go streaming_re skip s).
Proof.
  revert skip. induction s as [|c s IH]; intros skip.
  - cbn [Re.findall_go]. rewrite streaming_no_match_empty. by destruct skip.
  - cbn [Re.findall_go]. destruct skip as [|skip]; [|apply IH].
    destruct (Re.match_here streaming_re (String c s) Some) as [rest|] eqn:Hm;
      [|apply IH].
    apply streaming_match_inv in Hm as (m & Hs).
    rewrite Hs, matched_prefix. constructor; [eauto|apply IH].
Qed.

Lemma py_float_backslash (m : string) :
  py_float (String "\" m)
  = Raised (Exn "ValueError"
              ("could not convert string to float: " +:+ py_repr (String "\" m))).
Proof.
  unfold py_float. simpl split_dot. by destruct (split_dot m) as [a [b|]].
Qed.

Lemma last_number_streaming (s : string) :
  last_number (Re.findall_go streaming_re 0 s) = Ok None
  ∨ ∃ m, last (Re.findall_go streaming_re 0 s) = Some (String "\" m)
         ∧ last_number (Re.findall_go streaming_re 0 s)
           = Raised (Exn "ValueError"
               ("could not convert string to float: " +:+ py_repr (String "\" m))).
Proof.
  pose proof (findall_streaming_backslash s 0) as Hall.
  unfold last_number.
  destruct (last (Re.findall_go streaming_re 0 s)) as [token|] eqn:Hlast;
    [|by left].
  right. apply last_Some in Hlast as [l' Hl']. rewrite Hl' in Hall.
  apply Forall_app in Hall as [_ [m ->]%Forall_inv].
  exists m. by rewrite py_float_backslash.
Qed.

Lemma findall_blocking (v : variant) (s : string) :
  v ≠ Stream → Re.findall (numbers_pattern v) s = Ok (Re.findall_go blocking_re 0 s).
Proof. by destruct v. Qed.

Lemma findall_prompt (s : string) :
  Re.findall "\d+(?:\.\d+)?" s = Ok (Re.findall_go blocking_re 0 s).
Proof. reflexivity. Qed.

Lemma findall_streaming (s : string) :
  Re.findall (numbers_pattern Stream) s = Ok (Re.findall_go streaming_re 0 s).
Proof. reflexivity. Qed.

Lemma note_rejection_blocking (v : variant) (feedback : string) (context : dict)
    (x : value) :
  v ≠ Stream → Str.startswith "Incorrect:" feedback = true →
  last_number (Re.findall_go blocking_re 0 feedback) = Ok (Some x) →
  note_rejection v feedback context
  = Ok (<["expected_correction" := x]> (<["last_feedback" := VStr feedback]> context)).
Proof.
  intros Hv Hprefix Hlast. unfold note_rejection.
  rewrite Hprefix, (findall_blocking v feedback Hv). cbn [rbind].
  by rewrite Hlast.
Qed.

Lemma note_rejection_streaming (feedback : string) (context context' : dict) :
  note_rejection Stream feedback context = Ok context' →
  context' = <["last_feedback" := VStr feedback]> context.
Proof.
  unfold note_rejection.
  destruct (Str.startswith "Incorrect:" feedback); [|congruence].
  rewrite findall_streaming. cbn [rbind].
  destruct (last_number_streaming feedback) as [->|(m & _ & ->)]; [|done].
  cbn [rbind]. congruence.
Qed.

(** X1. In the two blocking loops the handling of a rejection whose
    feedback is ASCII text never fails. The feedback is stored; when it
    starts with "Incorrect:" and holds a digit, the last numeral in it is
    stored as a float under [expected_correction]; otherwise nothing else
    changes, so that an older correction stays. *)
Theorem blocking_rejection_records_last_numeral (v : variant) (feedback : string)
    (context : dict) :
  v ≠ Stream → is_ascii_text feedback = true →
  if Str.startswith "Incorrect:" feedback && has_digit feedback
  then ∃ tokens token x,
         Re.findall (numbers_pattern v) feedback = Ok tokens
         ∧ last tokens = Some token
         ∧ is_decimal token = true
         ∧ py_float token = Ok (VFloat x)
         ∧ note_rejection v feedback context
           = Ok (<["expected_correction" := VFloat x]>
                   (<["last_feedback" := VStr feedback]> context))
  else note_rejection v feedback context
       = Ok (<["last_feedback" := VStr feedback]> context).
Proof.
  intros Hv _. unfold note_rejection.
  destruct (Str.startswith "Incorrect:" feedback); [|done].
  rewrite (findall_blocking v feedback Hv). cbn [rbind andb].
  destruct (has_digit feedback) eqn:Hd.
  - pose proof (findall_blocking_some _ Hd) as Hne.
    pose proof (findall_blocking_decimal feedback 0) as Hall.
    destruct (last (Re.findall_go blocking_re 0 feedback)) as [token|] eqn:Hlast;
      [|by apply last_None in Hlast].
    pose proof Hlast as [l' Hl']%last_Some. rewrite Hl' in Hall.
    apply Forall_app in Hall as [_ Hdec%Forall_inv].
    destruct (py_float_decimal _ Hdec) as [x Hx].
    exists (Re.findall_go blocking_re 0 feedback), token, x.
    repeat split; try done.
    unfold last_number. rewrite Hlast, Hx. reflexivity.
  - rewrite (findall_blocking_none _ 0 Hd). reflexivity.
Qed.

(** X2. The streaming loop never stores a correction: whatever the feedback,
    its handling of a rejection either stores the feedback alone, or fails
    with the [ValueError] of [float] on a token that starts with a backslash
    (the feedback then starts with "Incorrect:" and holds a backslash
    followed by the letter d). *)
Theorem streaming_rejection_records_no_number (feedback : string) (context : dict) :
  note_rejection Stream feedback context
  = Ok (<["last_feedback" := VStr feedback]> context)
  ∨ ∃ m, Str.startswith "Incorrect:" feedback = true
         ∧ last (Re.findall_go streaming_re 0 feedback) = Some (String "\" m)
         ∧ note_rejection Stream feedback context
           = Raised (Exn "ValueError"
               ("could not convert string to float: " +:+ py_repr (String "\" m))).
Proof.
  unfold note_rejection.
  destruct (Str.startswith "Incorrect:" feedback); [|by left].
  rewrite findall_streaming. cbn [rbind].
  destruct (last_number_streaming feedback) as [->|(m & Hlast & ->)];
    [by left|right; eauto].
Qed.

(** X3. After a rejection whose feedback is ASCII text the next generation
    prompt is always built: it holds the whole context, and it carries a
    correction exactly when the feedback starts with "Incorrect:" and holds
    a digit. In the blocking loops that correction is the value stored
    under [expected_correction]; the streaming loop stores none. *)
Theorem prompt_after_rejection (v : variant) (feedback description : string)
    (context context' : dict) :
  is_ascii_text feedback = true →
  note_rejection v feedback context = Ok context' →
  ∃ prompt,
    build_gen_prompt description context' = Ok prompt
    ∧ prompt_context prompt = context'
    ∧ if Str.startswith "Incorrect:" feedback && has_digit feedback
      then ∃ x, corrections prompt = Some (VFloat x)
                ∧ (v ≠ Stream → context' !! "expected_correction" = Some (VFloat x))
                ∧ (v = Stream → context' !! "expected_correction"
                                = context !! "expected_correction")
      else corrections prompt = None.
Proof.
  intros _ Hnote.
  assert (context' !! "last_feedback" = Some (VStr feedback)) as Hfb.
  { apply note_rejection_last_feedback in Hnote. exact Hnote. }
  unfold build_gen_prompt. rewrite Hfb.
  destruct (Str.startswith "Incorrect:" feedback) eqn:Hprefix;
    [|eexists; repeat split].
  rewrite findall_prompt. cbn [rbind andb].
  destruct (last_number_blocking feedback) as [[Hd Hlast]|[Hd [x Hlast]]];
    rewrite Hlast, Hd; cbn [rbind]; [eexists; repeat split|].
  eexists. split; [done|]. split; [done|]. exists x. split; [done|]. split.
  - intros Hv.
    rewrite (note_rejection_blocking v feedback context _ Hv Hprefix Hlast) in Hnote.
    injection Hnote as <-. apply lookup_insert_eq.
  - intros ->. apply note_rejection_streaming in Hnote as ->.
    by rewrite lookup_insert_ne.
Qed.

(** ** What an attempt and a loop are made of *)

Lemma note_rejection_blocking_total (v : variant) (feedback : string) (context : dict) :
  v ≠ Stream → ∃ context', note_rejection v feedback context = Ok context'.
Proof.
  intros Hv. unfold note_rejection.
  destruct (Str.startswith "Incorrect:" feedback); [|eauto].
  rewrite (findall_blocking v feedback Hv). cbn [rbind].
  destruct (last_number_blocking feedback) as [[_ ->]|[_ [f ->]]]; cbn [rbind]; eauto.
Qed.

Lemma note_rejection_grows (v : variant) (fb : string) (context context' : dict) :
  note_rejection v fb context = Ok context' →
  ∀ key, is_Some (context !! key) → is_Some (context' !! key).
Proof.
  intros [->|[x ->]]%note_rejection_ok key Hkey;
    repeat apply is_Some_insert_mono; done.
Qed.

Lemma generated_app (a b : list call) : generated (a ++ b) = generated a ++ generated b.
Proof. apply omap_app. Qed.

Lemma generated_critiques (more : list call) :
  Forall (λ c, is_critique c = true) more → generated more = [].
Proof.
  induction 1 as [|c l Hc _ IH]; [done|].
  destruct c; try discriminate. exact IH.
Qed.

Section AttemptParts.

Context {world : Type}.
Variable py : host.
Variable svc : service world.

(** An attempt fails with the failure of its generation, with that of its
    feedback, or with that of the handling of its rejection. *)
Lemma attempt_once_raised (v : variant) (query : string) (s : step) (k : nat)
    (context : dict) (σ σ' : machine world) (e : exn) :
  attempt_once py svc v query s k context σ = (Raised e, σ') →
  generate_code_for_step svc (description s) context σ = (Raised e, σ')
  ∨ ∃ code σ1,
      generate_code_for_step svc (description s) context σ = (Ok code, σ1)
      ∧ (feedback_for py svc query (description s) context
           (safe_exec py code context) σ1 = (Raised e, σ')
         ∨ ∃ feedback,
             feedback_for py svc query (description s) context
               (safe_exec py code context) σ1 = (Ok feedback, σ')
             ∧ Str.startswith "correct" (Str.lower feedback) = false
             ∧ note_rejection v feedback context = Raised e).
Proof.
  rewrite attempt_once_unfold.
  destruct (generate_code_for_step svc (description s) context σ)
    as [[code|e0] σ1]; [|intros [= <- <-]; by left].
  right. exists code, σ1. split; [done|]. cbv zeta in H.
  destruct (feedback_for py svc query (description s) context
              (safe_exec py code context) σ1) as [[feedback|e0] σ2];
    [|injection H as <- <-; by left].
  destruct (Str.startswith "correct" (Str.lower feedback)) eqn:Hs; [discriminate|].
  destruct (note_rejection v feedback context) as [c|e0] eqn:Hnote; [discriminate|].
  injection H as <- <-. right. by exists feedback.
Qed.

(** A loop fails with the failure of one of its attempts: running out of
    attempts is no failure. *)
Lemma retry_loop_raised (v : variant) (query : string) (s : step) :
  ∀ remaining k context (σ σ' : machine world) e,
    retry_loop py svc v query s remaining k context σ = (Raised e, σ') →
    ∃ j c σj,
      (j < remaining)%nat
      ∧ attempt_once py svc v query s (k + j) c σj = (Raised e, σ').
Proof.
  induction remaining as [|remaining IH]; intros k context σ σ' e; [discriminate|].
  rewrite retry_loop_unfold.
  destruct (attempt_once py svc v query s k context σ) as [[[data c1]|e0] σ1] eqn:Hatt.
  - destruct (success data); [discriminate|].
    intros [(a & σ2 & Hloop & Hret)|(e1 & Hloop & [= <-])]%bind_inv.
    { destruct a as [more c]. by apply ret_inv in Hret as [[=] _]. }
    apply IH in Hloop as (j & c & σj & Hj & Hrun).
    exists (S j), c, σj. split; [lia|]. by rewrite <- Nat.add_succ_comm.
  - intros [= <- <-]. exists 0%nat, context, σ. split; [lia|].
    by rewrite Nat.add_0_r.
Qed.

(** Every record of a loop is the record of an attempt, the first of them
    made in the context and the state the loop started in. *)
Lemma retry_loop_records (v : variant) (query : string) (s : step) :
  ∀ remaining k context (σ σ' : machine world) attempts context',
    retry_loop py svc v query s remaining k context σ
    = (Ok (attempts, context'), σ') →
    ∀ i a, attempts !! i = Some a →
      ∃ c σa c' σb,
        attempt_once py svc v query s (k + i) c σa = (Ok (a, c'), σb)
        ∧ (i = 0%nat → c = context ∧ σa = σ).
Proof.
  induction remaining as [|remaining IH]; intros k context σ σ' attempts context'.
  - intros Hret i a Ha. apply ret_inv in Hret as [[= -> ->] ->].
    by rewrite lookup_nil in Ha.
  - rewrite retry_loop_unfold.
    destruct (attempt_once py svc v query s k context σ) as [[[data c1]|e0] σ1] eqn:Hatt;
      [|discriminate].
    destruct (success data).
    + intros [= <- <- <-] [|i] a Ha; [|done].
      injection Ha as <-. exists context, σ, c1, σ1. by rewrite Nat.add_0_r.
    + intros ([more c] & σ2 & Hloop & [[= -> ->] ->]%ret_inv)%bind_ok_inv.
      intros [|i] a Ha.
      * injection Ha as <-. exists context, σ, c1, σ1. by rewrite Nat.add_0_r.
      * destruct (IH _ _ _ _ _ _ Hloop i a Ha) as (c0 & σa & c' & σb & Hrun & _).
        exists c0, σa, c', σb. split; [|done]. by rewrite <- Nat.add_succ_comm.
Qed.

Lemma attempt_once_prompt (v : variant) (query : string) (s : step) (k : nat)
    (context context' : dict) (σ σ' : machine world) (data : attempt_data) :
  attempt_once py svc v query s k context σ = (Ok (data, context'), σ') →
  ∃ p new,
    calls σ' = calls σ ++ new
    ∧ generated new = [p]
    ∧ prompt_context p = context.
Proof.
  intros Hrun.
  destruct (attempt_once_calls py svc v query s k context σ _ _ Hrun)
    as [(e & _ & [=] & _)|(p & more & Hp & Hcalls & Hmore)].
  exists p, (Generate p :: more). split; [done|]. split.
  - change (generated (Generate p :: more)) with (p :: generated more).
    by rewrite (generated_critiques more Hmore).
  - by apply build_gen_prompt_context with (description s).
Qed.

(** The prompts of a loop: one for each attempt; the first is handed the
    context the loop started with, and each later one the context of the
    one before with the rejection of that attempt noted in it. *)
Lemma retry_loop_prompts (v : variant) (query : string) (s : step) :
  ∀ remaining k context (σ σ' : machine world) attempts context',
    retry_loop py svc v query s remaining k context σ
    = (Ok (attempts, context'), σ') →
    ∃ new prompts,
      calls σ' = calls σ ++ new
      ∧ generated new = prompts
      ∧ length prompts = length attempts
      ∧ (∀ p, prompts !! 0%nat = Some p → prompt_context p = context)
      ∧ ∀ i a p',
          attempts !! i = Some a → prompts !! S i = Some p' →
          ∃ p, prompts !! i = Some p
               ∧ success a = false
               ∧ note_rejection v (feedback a) (prompt_context p)
                 = Ok (prompt_context p').
Proof.
  induction remaining as [|remaining IH]; intros k context σ σ' attempts context'.
  - intros [[= -> ->] ->]%ret_inv. exists [], []. rewrite app_nil_r.
    repeat split; done.
  - rewrite retry_loop_unfold.
    destruct (attempt_once py svc v query s k context σ) as [[[data c1]|e0] σ1] eqn:Hatt;
      [|discriminate].
    destruct (attempt_once_prompt _ _ _ _ _ _ _ _ _ Hatt) as (p0 & new0 & Hnew0 & Hgen0 & Hp0).
    destruct (attempt_once_ok py svc v query s k context σ data c1 σ1 Hatt)
      as (_ & _ & _ & _ & _ & _ & Hctx).
    destruct (success data) eqn:Hs.
    + intros [= <- <- <-]. exists new0, [p0].
      split; [done|]. split; [done|]. split; [done|]. split.
      * by intros p [= <-].
      * intros [|i] a p' Ha Hp'; done.
    + intros ([more c] & σ2 & Hloop & [[= -> ->] ->]%ret_inv)%bind_ok_inv.
      destruct (IH _ _ _ _ _ _ Hloop) as (new & prompts & Hnew & Hgen & Hlen & Hfirst & Hchain).
      exists (new0 ++ new), (p0 :: prompts).
      split; [by rewrite Hnew, Hnew0, app_assoc|].
      split; [by rewrite generated_app, Hgen0, Hgen|].
      split; [simpl; by rewrite Hlen|]. split.
      * by intros p [= <-].
      * intros [|i] a p' Ha Hp'.
        -- injection Ha as <-. exists p0. split; [done|]. split; [done|].
           cbn in Hp'. rewrite Hp0, (Hfirst p' Hp'). exact Hctx.
        -- cbn in Ha, Hp'. destruct (Hchain i a p' Ha Hp') as (p & Hp & Hrej).
           by exists p.
Qed.

End AttemptParts.

(** ** The claims about the retry loop *)

(** C3. An attempt that returns is made of the code that the generation
    call gave, the outcome of the sandbox on that code, and the feedback on
    that outcome: the reply of the critic, stripped, or the local message
    for an execution error (the reply is taken here to be ASCII text where
    its stripping is spelled out). It is accepted exactly when that feedback,
    in lower case, starts with "correct". An accepted attempt records its
    output under [step_{ordinal}_result] and the loop returns at once, in the
    very state the attempt left: no later attempt runs. A rejected attempt
    records its feedback under [last_feedback] and no result, and the loop
    goes on with the next attempt. So in a whole loop of at most three
    attempts every record is the record of such an attempt, an attempt
    accepted as number k is the last one, its output is the result of the
    step, and k generation calls were made. *)
Theorem accepted_iff_correct_and_loop_ends {world : Type}
    (py : host) (svc : service world) (v : variant) (query : string) (s : step)
    (remaining k : nat) (context context' : dict) (σ σ' : machine world)
    (data : attempt_data) :
  attempt_once py svc v query s k context σ = (Ok (data, context'), σ') →
  (∃ σ1,
     generate_code_for_step svc (description s) context σ = (Ok (code data), σ1)
     ∧ output data = safe_exec py (code data) context
     ∧ feedback_for py svc query (description s) context (output data) σ1
       = (Ok (feedback data), σ')
     ∧ if is_execution_error (output data)
       then feedback data = "Execution failed: " +:+ py_str py (output data)
            ∧ σ' = σ1
       else self_critique_output svc (description s) (py_str py (output data))
              query (expected_values_of context) σ1 = (Ok (feedback data), σ')
            ∧ ∃ content w,
                llm_critique svc (description s) (py_str py (output data)) query
                  (expected_values_of context) (the_world σ1) = (Ok content, w)
                ∧ (is_ascii_text content = true →
                   feedback data = Str.strip content)
                ∧ σ' = Machine w
                         (calls σ1
                          ++ [Critique (description s) (py_str py (output data))
                                query (expected_values_of context)]))
  ∧ attempt data = S k
  ∧ success data = Str.startswith "correct" (Str.lower (feedback data))
  ∧ (Str.startswith "correct" (Str.lower (feedback data)) = true →
       context' = <[result_key (step_num s) := output data]> context
       ∧ retry_loop py svc v query s (S remaining) k context σ
         = (Ok ([data], context'), σ'))
  ∧ (Str.startswith "correct" (Str.lower (feedback data)) = false →
       context' !! "last_feedback" = Some (VStr (feedback data))
       ∧ (is_ascii_text (feedback data) = true →
          note_rejection v (feedback data) context = Ok context')
       ∧ context' !! result_key (step_num s) = context !! result_key (step_num s)
       ∧ retry_loop py svc v query s (S remaining) k context σ
         = bind (retry_loop py svc v query s remaining (S k) context')
                (λ '(more, c), ret (data :: more, c)) σ')
  ∧ (∀ context0 σ0 attempts context_end σ_end,
       retry_loop py svc v query s MAX_CRITIQUE_ATTEMPTS 0 context0 σ0
       = (Ok (attempts, context_end), σ_end) →
       (length attempts ≤ MAX_CRITIQUE_ATTEMPTS)%nat
       ∧ (∀ i a, attempts !! i = Some a →
            attempt a = S i
            ∧ (∃ c σa c' σb,
                 attempt_once py svc v query s i c σa = (Ok (a, c'), σb)
                 ∧ (i = 0%nat → c = context0 ∧ σa = σ0))
            ∧ (success a = true →
                 length attempts = S i
                 ∧ context_end !! result_key (step_num s) = Some (output a)))
       ∧ ∃ new, calls σ_end = calls σ0 ++ new
                ∧ generations new = length attempts).
Proof.
  intros Hrun.
  destruct (attempt_once_ok py svc v query s k context σ data context' σ' Hrun)
    as (σ1 & Hgen & Hout & Hfb & Hnum & Hs & Hctx).
  split.
  { exists σ1. split; [done|]. split; [done|]. split; [done|].
    unfold feedback_for in Hfb.
    destruct (is_execution_error (output data)).
    - by apply ret_inv in Hfb as [[= ->] ->].
    - split; [done|]. rewrite critique_unfold in Hfb.
      destruct (llm_critique svc (description s) (py_str py (output data)) query
                  (expected_values_of context) (the_world σ1))
        as [[content|e] w]; [|discriminate].
      injection Hfb as <- <-. by exists content, w. }
  split; [done|]. split; [done|].
  rewrite retry_loop_unfold, Hrun. rewrite <- Hs.
  split; [|split].
  - intros Hacc; rewrite Hacc in Hctx |- *. done.
  - intros Hacc; rewrite Hacc in Hctx |- *.
    split; [by apply note_rejection_last_feedback with v context|].
    split; [done|]. split; [|done].
    by apply note_rejection_result_key with v (feedback data).
  - intros context0 σ0 attempts context_end σ_end Hloop.
    destruct (retry_loop_shape py svc v query s _ 0%nat context0 σ0 _ _ _ Hloop)
      as (Hlen & Hshape & Hcalls).
    split; [done|]. split; [|done].
    intros i a Ha. destruct (Hshape i a Ha) as [Hno Hacc].
    split; [done|]. split; [|done].
    by apply (retry_loop_records py svc v query s _ 0%nat context0 σ0 _ _ _ Hloop).
Qed.

(** C4. A calculation or data_lookup step whose attempts have all been
    rejected has used the three attempts, leaves the sentinel under
    [step_{ordinal}_result], and the plan goes on with the steps after it.
    Running out of attempts is no failure: a step fails only with the
    failure of the generation or of the feedback of one of its attempts, or,
    in the streaming loop alone, with the [ValueError] of the handling of a
    rejection. That last case is where the streaming loop parts from the
    other two: on three rejections, the third with a feedback that starts
    with "Incorrect:" and holds a backslash followed by the letter d, the
    blocking loops write the sentinel and go on, and the streaming loop
    raises after the six calls of the step, writes no sentinel and never
    runs the next step. *)
Theorem exhausted_step_marked_and_plan_goes_on {world : Type}
    (py : host) (svc : service world) (v : variant) (query : string) (s : step)
    (rest : list step) (context : dict) (σ : machine world) :
  type s = "calculation" ∨ type s = "data_lookup" →
  (∀ attempts context' σ',
     run_step py svc v query s context σ = (Ok (attempts, context'), σ') →
     Forall (λ a, success a = false) attempts →
     length attempts = MAX_CRITIQUE_ATTEMPTS
     ∧ context' !! result_key (step_num s) = Some FAILED_TO_REFINE
     ∧ run_plan py svc v query (s :: rest) context σ
       = bind (run_plan py svc v query rest context')
              (λ '(more, c), ret ((s, attempts) :: more, c)) σ')
  ∧ (∀ e σ',
       run_step py svc v query s context σ = (Raised e, σ') →
       ∃ j c σj,
         (j < MAX_CRITIQUE_ATTEMPTS)%nat
         ∧ (generate_code_for_step svc (description s) c σj = (Raised e, σ')
            ∨ ∃ code σ1,
                generate_code_for_step svc (description s) c σj = (Ok code, σ1)
                ∧ (feedback_for py svc query (description s) c
                     (safe_exec py code c) σ1 = (Raised e, σ')
                   ∨ v = Stream
                     ∧ ∃ feedback,
                         feedback_for py svc query (description s) c
                           (safe_exec py code c) σ1 = (Ok feedback, σ')
                         ∧ Str.startswith "correct" (Str.lower feedback) = false
                         ∧ note_rejection Stream feedback c = Raised e)))
  ∧ (∃ attempts context' σ',
       run_step Example.test_host Example.scripted Web "q" Example.first_step ∅
         (Example.start Sample.backslash_d) = (Ok (attempts, context'), σ')
       ∧ run_step Example.test_host Example.scripted Cli "q" Example.first_step ∅
           (Example.start Sample.backslash_d) = (Ok (attempts, context'), σ')
       ∧ map feedback attempts
         = ["Incorrect: should be 42"; "Incorrect: should be 42";
            "Incorrect: match \d+ instead"]
       ∧ context' !! "step_1_result" = Some FAILED_TO_REFINE
       ∧ length (calls σ') = 6%nat)
  ∧ ∃ σ',
      run_step Example.test_host Example.scripted Stream "q" Example.first_step ∅
        (Example.start Sample.backslash_d)
      = (Raised (Exn "ValueError" "could not convert string to float: '\\d'"), σ')
      ∧ run_plan Example.test_host Example.scripted Stream "q" Example.two_steps ∅
          (Example.start Sample.backslash_d)
        = (Raised (Exn "ValueError" "could not convert string to float: '\\d'"), σ')
      ∧ length (calls σ') = 6%nat.
Proof.
  intros Htype.
  assert (enters_retry_loop v (type s) = true) as Henter.
  { destruct v, Htype as [-> | ->]; reflexivity. }
  split; [|split; [|split]].
  - intros attempts context' σ' Hstep Hall.
    rewrite run_plan_unfold, Hstep.
    unfold run_step in Hstep. rewrite Henter in Hstep.
    eapply retry_loop_exhausted in Hstep as [Hlen Hkey]; [|done].
    done.
  - intros e σ' Hstep. unfold run_step in Hstep. rewrite Henter in Hstep.
    apply retry_loop_raised in Hstep as (j & c & σj & Hj & Hatt).
    exists j, c, σj. split; [done|].
    apply attempt_once_raised in Hatt
      as [Hgen|(code & σ1 & Hgen & [Hfb|(feedback & Hfb & Hrej & Hnote)])].
    + by left.
    + right. exists code, σ1. split; [done|]. by left.
    + right. exists code, σ1. split; [done|]. right.
      assert (v = Stream ∨ v ≠ Stream) as [->|Hv]
        by (destruct v; [right|right|left]; done).
      * split; [done|]. by exists feedback.
      * destruct (note_rejection_blocking_total v feedback c Hv) as [c' Hc'].
        congruence.
  - eexists _, _, _. split; [run|].
    split; [vm_compute; reflexivity|]. repeat split; vm_compute; reflexivity.
  - eexists. split; [run|]. split; vm_compute; reflexivity.
Qed.



(** C10, as the loops have it. Nothing removes [last_feedback] or
    [expected_correction], or any other key. When a step has finished,
    accepted or exhausted, its context has every key it started with, and
    [last_feedback] holds the feedback of the last attempt rejected in it.
    Through the rest of the plan every context handed to a generation call
    has the keys of that context; the first generation call of the next step
    is handed that very context, with the old feedback in its prompt; and
    the synthesis call is handed the final context, which has the keys as
    well. The values do not stay: in a step run from that context each
    generation call after the first is handed the context of the call before
    it with the rejection in between noted (as [note_rejection] has it for
    a feedback in ASCII text), so that [last_feedback] is then the feedback
    of the attempt just rejected. *)
Theorem transient_keys_are_never_removed {world : Type}
    (py : host) (svc : service world) (v : variant) (query : string) (s : step)
    (rest : list step) (context context1 : dict) (σ σ1 : machine world)
    (attempts : list attempt_data) :
  run_step py svc v query s context σ = (Ok (attempts, context1), σ1) →
  (∀ key, is_Some (context !! key) → is_Some (context1 !! key))
  ∧ (∀ a, last (filter (λ a, success a = false) attempts) = Some a →
          context1 !! "last_feedback" = Some (VStr (feedback a)))
  ∧ (∀ r σ2,
      run_plan py svc v query rest context1 σ1 = (r, σ2) →
      ∃ new,
        calls σ2 = calls σ1 ++ new
        ∧ Forall (keeps_keys context1) new
        ∧ (∀ s' rest' c,
             rest = s' :: rest' → enters_retry_loop v (type s') = true →
             new !! 0%nat = Some c →
             ∃ p, c = Generate p
                  ∧ prompt_context p = context1
                  ∧ ∀ fb, context1 !! "last_feedback" = Some (VStr fb) →
                          feedback_context p
                          = "Previous attempt was incorrect. Feedback: " +:+ fb
                            +:+ String "010" "")
        ∧ ∀ done final,
            r = Ok (done, final) →
            (∀ key, is_Some (context1 !! key) → is_Some (final !! key))
            ∧ ∀ r' σ3,
                synthesize_answer svc query final σ2 = (r', σ3) →
                calls σ3 = calls σ2 ++ [Synthesize query final])
  ∧ ∀ s' attempts' context2 σ2,
      enters_retry_loop v (type s') = true →
      run_step py svc v query s' context1 σ1 = (Ok (attempts', context2), σ2) →
      ∃ new prompts,
        calls σ2 = calls σ1 ++ new
        ∧ generated new = prompts
        ∧ length prompts = length attempts'
        ∧ (∀ p, prompts !! 0%nat = Some p → prompt_context p = context1)
        ∧ ∀ i a p',
            attempts' !! i = Some a → prompts !! S i = Some p' →
            success a = false
            ∧ prompt_context p' !! "last_feedback" = Some (VStr (feedback a))
            ∧ ∃ p, prompts !! i = Some p
                   ∧ (∀ key, is_Some (prompt_context p !! key) →
                             is_Some (prompt_context p' !! key))
                   ∧ (is_ascii_text (feedback a) = true →
                      note_rejection v (feedback a) (prompt_context p)
                      = Ok (prompt_context p')).
Proof.
  intros Hstep. split; [|split; [|split]].
  - destruct (run_step_grows py svc v query s context _ _ _ Hstep)
      as (_ & _ & _ & Hsub).
    by apply (Hsub attempts context1).
  - intros a Hlast. unfold run_step in Hstep.
    destruct (enters_retry_loop v (type s)).
    + rewrite (retry_loop_last_feedback py svc v query s _ _ _ _ _ _ _ Hstep).
      by rewrite Hlast.
    + apply ret_inv in Hstep as [[= -> ->] _]. by rewrite filter_nil in Hlast.
  - intros r σ2 Hrest.
    destruct (run_plan_grows py svc v query rest context1 _ _ _ Hrest)
      as (new & Hnew & Hkeeps & Hsub).
    exists new. split; [done|]. split; [done|]. split.
    + intros s' rest' c -> Henter Hc.
      destruct (run_plan_first_call py svc v query s' rest' context1 _ _ _ Henter Hrest)
        as [(e & _ & _ & ->)|(p & more & Hp & Hcalls)].
      * rewrite <- (app_nil_r (calls σ1)) in Hnew at 1.
        apply app_inv_head in Hnew. by subst.
      * rewrite Hcalls in Hnew. apply app_inv_head in Hnew. subst new.
        simpl in Hc. inversion Hc; subst c.
        exists p. split; [done|].
        split; [by apply build_gen_prompt_context with (description s')|].
        intros fb Hfb. by apply build_gen_prompt_feedback with (description s') context1.
    + intros done final ->. split; [by apply (Hsub done final)|].
      intros r' σ3 Hsyn. rewrite synthesize_unfold in Hsyn.
      destruct (llm_synthesize svc query final (the_world σ2)) as [[content|e] w];
        by inversion Hsyn.
  - intros s' attempts' context2 σ2 Henter Hnext.
    unfold run_step in Hnext. rewrite Henter in Hnext.
    destruct (retry_loop_prompts py svc v query s' _ _ _ _ _ _ _ Hnext)
      as (new & prompts & Hnew & Hgen & Hlen & Hfirst & Hchain).
    exists new, prompts. split; [done|]. split; [done|]. split; [done|].
    split; [done|].
    intros i a p' Ha Hp'. destruct (Hchain i a p' Ha Hp') as (p & Hp & Hrej & Hnote).
    split; [done|].
    split; [by apply note_rejection_last_feedback with v (prompt_context p)|].
    exists p. split; [done|]. split; [|done].
    by apply note_rejection_grows with v (feedback a).
Qed.

(** C2, as the loops have it. A failure of the generation call or of the
    critique call is not caught in the attempt: the attempt ends with it and
    so does the retry loop, in the state the failed call left, without
    another attempt. A failure of a later attempt, of the loop of a step, of
    a later step, of the synthesis or of the plan as a whole ends the loop,
    the plan and the query the same way. *)
Theorem collaborator_failure_is_fatal {world : Type}
    (py : host) (svc : service world) (v : variant) (query : string) (s : step)
    (k remaining : nat) (context : dict) (σ σ' : machine world) (e : exn) :
  (generate_code_for_step svc (description s) context σ = (Raised e, σ')
   ∨ ∃ code σ1,
       generate_code_for_step svc (description s) context σ = (Ok code, σ1)
       ∧ is_execution_error (safe_exec py code context) = false
       ∧ self_critique_output svc (description s)
           (py_str py (safe_exec py code context)) query
           (expected_values_of context) σ1 = (Raised e, σ')) →
  attempt_once py svc v query s k context σ = (Raised e, σ')
  ∧ retry_loop py svc v query s (S remaining) k context σ = (Raised e, σ')
  ∧ (∀ rem j c0 σ0 data c1 σa,
       attempt_once py svc v query s j c0 σ0 = (Ok (data, c1), σa) →
       success data = false →
       retry_loop py svc v query s rem (S j) c1 σa = (Raised e, σ') →
       retry_loop py svc v query s (S rem) j c0 σ0 = (Raised e, σ'))
  ∧ (∀ rest c0 σ0,
       enters_retry_loop v (type s) = true →
       retry_loop py svc v query s MAX_CRITIQUE_ATTEMPTS 0 c0 σ0 = (Raised e, σ') →
       run_plan py svc v query (s :: rest) c0 σ0 = (Raised e, σ'))
  ∧ (∀ s0 rest c0 σ0 attempts c1 σa,
       run_step py svc v query s0 c0 σ0 = (Ok (attempts, c1), σa) →
       run_plan py svc v query rest c1 σa = (Raised e, σ') →
       run_plan py svc v query (s0 :: rest) c0 σ0 = (Raised e, σ'))
  ∧ (∀ todo σ0 σp,
       decompose svc v query σ0 = (Ok todo, σp) →
       run_plan py svc v query todo ∅ σp = (Raised e, σ') →
       solve py svc v query σ0 = (Raised e, σ'))
  ∧ (∀ todo σ0 σp done final σd,
       decompose svc v query σ0 = (Ok todo, σp) →
       run_plan py svc v query todo ∅ σp = (Ok (done, final), σd) →
       synthesize_answer svc query final σd = (Raised e, σ') →
       solve py svc v query σ0 = (Raised e, σ')).
Proof.
  intros Hfail.
  assert (attempt_once py svc v query s k context σ = (Raised e, σ')) as Hatt.
  { rewrite attempt_once_unfold.
    destruct Hfail as [Hgen|(code & σ1 & Hgen & Herr & Hcrit)]; rewrite Hgen; [done|].
    cbv zeta. unfold feedback_for. by rewrite Herr, Hcrit. }
  split; [done|]. split; [by rewrite retry_loop_unfold, Hatt|].
  split; [|split; [|split; [|split]]].
  - intros rem j c0 σ0 data c1 σa Hprev Hrej Hloop.
    rewrite retry_loop_unfold, Hprev, Hrej. by apply bind_raised_l.
  - intros rest c0 σ0 Henter Hloop.
    rewrite run_plan_unfold. unfold run_step. by rewrite Henter, Hloop.
  - intros s0 rest c0 σ0 attempts c1 σa Hstep Hrest.
    rewrite run_plan_unfold, Hstep. by apply bind_raised_l.
  - intros todo σ0 σp Hdec Hplan. unfold solve.
    rewrite (bind_ok_l _ _ _ _ _ Hdec). by apply bind_raised_l.
  - intros todo σ0 σp done final σd Hdec Hplan Hsyn. unfold solve.
    rewrite (bind_ok_l _ _ _ _ _ Hdec), (bind_ok_l _ _ _ _ _ Hplan).
    by apply bind_raised_l.
Qed.

(** C5. The feedback "Incorrect: should be 42 not 41.5" in each loop: the
    pattern of the two blocking loops finds the tokens 42 and 41.5, and these
    loops store the double 41.5 (83 / 2, written with a 53 bit mantissa); the
    pattern of the streaming loop, written with doubled backslashes in a raw
    string, asks for a backslash followed by the letter d, finds nothing, and
    that loop stores the feedback and no correction. *)
Theorem streaming_pattern_finds_no_number (context : dict) :
  Re.findall (numbers_pattern Cli) "Incorrect: should be 42 not 41.5"
  = Ok ["42"; "41.5"]
  ∧ Re.findall (numbers_pattern Web) "Incorrect: should be 42 not 41.5"
    = Ok ["42"; "41.5"]
  ∧ Re.findall (numbers_pattern Stream) "Incorrect: should be 42 not 41.5" = Ok []
  ∧ note_rejection Cli "Incorrect: should be 42 not 41.5" context
    = Ok (<["expected_correction" := VFloat (S754_finite false 5840605766746112 (-47))]>
            (<["last_feedback" := VStr "Incorrect: should be 42 not 41.5"]> context))
  ∧ note_rejection Web "Incorrect: should be 42 not 41.5" context
    = Ok (<["expected_correction" := VFloat (S754_finite false 5840605766746112 (-47))]>
            (<["last_feedback" := VStr "Incorrect: should be 42 not 41.5"]> context))
  ∧ note_rejection Stream "Incorrect: should be 42 not 41.5" context
    = Ok (<["last_feedback" := VStr "Incorrect: should be 42 not 41.5"]> context)
  ∧ (<["last_feedback" := VStr "Incorrect: should be 42 not 41.5"]> context)
      !! "expected_correction"
    = context !! "expected_correction".
Proof.
  assert (Re.findall "\d+(?:\.\d+)?" "Incorrect: should be 42 not 41.5"
          = Ok ["42"; "41.5"]) as Hblocking by (vm_compute; reflexivity).
  assert (Re.findall "\\d+(?:\\.\\d+)?" "Incorrect: should be 42 not 41.5" = Ok [])
    as Hstreaming by (vm_compute; reflexivity).
  assert (last_number ["42"; "41.5"]
          = Ok (Some (VFloat (S754_finite false 5840605766746112 (-47))))) as Hlast
    by (vm_compute; reflexivity).
  assert (Str.startswith "Incorrect:" "Incorrect: should be 42 not 41.5" = true)
    as Hprefix by reflexivity.
  split; [exact Hblocking|]. split; [exact Hblocking|].
  split; [exact Hstreaming|].
  split; [|split; [|split]].
  - unfold note_rejection. rewrite Hprefix. simpl numbers_pattern.
    rewrite Hblocking. cbn [rbind]. by rewrite Hlast.
  - unfold note_rejection. rewrite Hprefix. simpl numbers_pattern.
    rewrite Hblocking. cbn [rbind]. by rewrite Hlast.
  - unfold note_rejection. rewrite Hprefix. simpl numbers_pattern.
    by rewrite Hstreaming.
  - by apply lookup_insert_ne.
Qed.

(** ** Worked examples *)

Lemma not_in_walk (n tree : ast) :
  n ∉ walk tree → ¬ occurs_in n tree.
Proof. intros Hnot Hocc. by apply Hnot, elem_of_walk. Qed.

(** The scenarios of the specification: [2 + 3 * 4] gives 14, and the call
    into the operating system is refused and named. *)
Lemma sandbox_scenarios :
  safe_exec Example.test_host "result = 2 + 3 * 4" ∅ = VInt 14
  ∧ safe_exec Example.test_host "result = __import__('os').system('x')" ∅
    = VStr "EXECUTION_ERROR: Disallowed Python syntax: Call"
  ∧ safe_exec Example.test_host "total = 5 - 2" ∅ = VNone
  ∧ safe_exec Example.test_host "result = 2 +" ∅
    = VStr "EXECUTION_ERROR: invalid syntax (<unknown>, line 1)"
  ∧ safe_exec Example.test_host "result = step_1_result * 2" ∅
    = VStr "EXECUTION_ERROR: name 'step_1_result' is not defined"
  ∧ safe_exec Example.test_host "result = step_1_result * 2" {["step_1_result" := VInt 7]}
    = VInt 14.
Proof. repeat split; vm_compute; reflexivity. Qed.

Lemma disallowed_construct_witness :
  ∃ before first after,
    walk Example.system_call_tree = before ++ first :: after
    ∧ Forall (λ n, allowed n = true) before
    ∧ allowed first = false
    ∧ occurs_in first Example.system_call_tree
    ∧ _validate_ast Example.system_call_tree
      = Raised (Exn "ValueError" ("Disallowed Python syntax: " +:+ class_name first))
    ∧ (∀ compile_check builtins host_binop host_unaryop host_str context',
         safe_exec (Host (ast_parse Example.test_host) compile_check builtins
                         host_binop host_unaryop host_str)
                   "result = __import__('os').system('x')" context'
         = VStr ("EXECUTION_ERROR: Disallowed Python syntax: " +:+ class_name first))
    ∧ (∀ a h,
         safe_exec_at Example.test_host "result = __import__('os').system('x')" a h
         = (VStr ("EXECUTION_ERROR: Disallowed Python syntax: " +:+ class_name first),
            h))
    ∧ safe_exec Example.test_host "result = __import__('os').system('x')" ∅
      = VStr ("EXECUTION_ERROR: Disallowed Python syntax: " +:+ class_name first)
    ∧ is_execution_error
        (safe_exec Example.test_host "result = __import__('os').system('x')" ∅)
      = true.
Proof.
  apply (disallowed_construct_is_rejected Example.test_host
           "result = __import__('os').system('x')" Example.system_call_tree
           Example.system_call ∅).
  - reflexivity.
  - apply occurs_below with (Assign [Name "result" Store] Example.system_call).
    + apply list_elem_of_here.
    + apply occurs_below with Example.system_call.
      * apply list_elem_of_further, list_elem_of_here.
      * apply occurs_here.
  - reflexivity.
Defined.

Lemma unassigned_result_witness :
  safe_exec Example.test_host "total = 5 - 2" ∅ = VNone
  ∧ is_execution_error (safe_exec Example.test_host "total = 5 - 2" ∅) = false
  ∧ ∀ a h, h !! a = Some (∅ : dict) →
           (safe_exec_at Example.test_host "total = 5 - 2" a h).1 = VNone.
Proof.
  apply (unassigned_result_is_none Example.test_host "total = 5 - 2"
           Example.total_tree ∅ {["total" := VInt 3; "result" := VNone]}).
  - reflexivity.
  - reflexivity.
  - reflexivity.
  - vm_compute. reflexivity.
  - apply not_in_walk. vm_compute.
    intros H. repeat (apply elem_of_cons in H as [H|H]; [discriminate|]).
    by apply elem_of_nil in H.
Defined.

Lemma stateless_witness :
  (safe_exec_at Example.test_host "result = step_1_result * 2" 0 Example.one_object).1
  = safe_exec Example.test_host "result = step_1_result * 2" Example.after_first
  ∧ (∀ b, is_Some (Example.one_object !! b) →
          (safe_exec_at Example.test_host "result = step_1_result * 2" 0
             Example.one_object).2 !! b
          = Example.one_object !! b)
  ∧ (safe_exec_calls Example.test_host ["total = 5 - 2"; "result = 2 + 3 * 4"] 0
       Example.one_object).1
    = map (λ c, safe_exec Example.test_host c Example.after_first)
          ["total = 5 - 2"; "result = 2 + 3 * 4"]
  ∧ (∀ b, is_Some (Example.one_object !! b) →
          (safe_exec_calls Example.test_host ["total = 5 - 2"; "result = 2 + 3 * 4"]
             0 Example.one_object).2 !! b
          = Example.one_object !! b)
  ∧ ∃ outcome between,
      (safe_exec_calls Example.test_host
         ("result = step_1_result * 2" :: ["total = 5 - 2"]
          ++ ["result = step_1_result * 2"]) 0 Example.one_object).1
      = outcome :: between ++ [outcome].
Proof.
  apply (safe_exec_is_stateless Example.test_host
           ["total = 5 - 2"; "result = 2 + 3 * 4"] ["total = 5 - 2"]
           "result = step_1_result * 2" 0 Example.one_object Example.after_first).
  vm_compute. reflexivity.
Defined.

(** Three calls against one dictionary: the second snippet binds [total] and
    the third reads a result of the context; none sees what another wrote, and
    the dictionary is as before. *)
Lemma three_calls_example :
  (safe_exec_calls Example.test_host
     ["result = 2 + 3 * 4"; "total = 5 - 2"; "result = step_1_result * 2"] 0
     Example.one_object).1
  = [VInt 14; VNone; VInt 28]
  ∧ (safe_exec_calls Example.test_host
       ["result = 2 + 3 * 4"; "total = 5 - 2"; "result = step_1_result * 2"] 0
       Example.one_object).2 !! 0%nat
    = Some Example.after_first.
Proof. split; vm_compute; reflexivity. Qed.

Lemma accepted_witness :
  ∃ data context' σ',
    attempt_once Example.test_host Example.scripted Cli "2 + 3 * 4"
      Example.first_step 0 ∅ (Example.start Example.accepts_first)
    = (Ok (data, context'), σ')
    ∧ (∃ σ1,
         generate_code_for_step Example.scripted (description Example.first_step) ∅
           (Example.start Example.accepts_first) = (Ok (code data), σ1)
         ∧ output data = safe_exec Example.test_host (code data) ∅
         ∧ feedback_for Example.test_host Example.scripted "2 + 3 * 4"
             (description Example.first_step) ∅ (output data) σ1
           = (Ok (feedback data), σ')
         ∧ if is_execution_error (output data)
           then feedback data
                = "Execution failed: " +:+ py_str Example.test_host (output data)
                ∧ σ' = σ1
           else self_critique_output Example.scripted
                  (description Example.first_step)
                  (py_str Example.test_host (output data)) "2 + 3 * 4"
                  (expected_values_of ∅) σ1 = (Ok (feedback data), σ')
                ∧ ∃ content w,
                    llm_critique Example.scripted (description Example.first_step)
                      (py_str Example.test_host (output data)) "2 + 3 * 4"
                      (expected_values_of ∅) (the_world σ1) = (Ok content, w)
                    ∧ (is_ascii_text content = true →
                       feedback data = Str.strip content)
                    ∧ σ' = Machine w
                             (calls σ1
                              ++ [Critique (description Example.first_step)
                                    (py_str Example.test_host (output data))
                                    "2 + 3 * 4" (expected_values_of ∅)]))
    ∧ attempt data = 1%nat
    ∧ success data = Str.startswith "correct" (Str.lower (feedback data))
    ∧ (Str.startswith "correct" (Str.lower (feedback data)) = true →
         context' = <[result_key 1 := output data]> ∅
         ∧ retry_loop Example.test_host Example.scripted Cli "2 + 3 * 4"
             Example.first_step 3 0 ∅ (Example.start Example.accepts_first)
           = (Ok ([data], context'), σ'))
    ∧ (Str.startswith "correct" (Str.lower (feedback data)) = false →
         context' !! "last_feedback" = Some (VStr (feedback data))
         ∧ (is_ascii_text (feedback data) = true →
            note_rejection Cli (feedback data) ∅ = Ok context')
         ∧ context' !! result_key 1 = (∅ : dict) !! result_key 1
         ∧ retry_loop Example.test_host Example.scripted Cli "2 + 3 * 4"
             Example.first_step 3 0 ∅ (Example.start Example.accepts_first)
           = bind (retry_loop Example.test_host Example.scripted Cli "2 + 3 * 4"
                     Example.first_step 2 1 context')
                  (λ '(more, c), ret (data :: more, c)) σ')
    ∧ (∀ context0 (σ0 : machine Example.script) attempts context_end σ_end,
         retry_loop Example.test_host Example.scripted Cli "2 + 3 * 4"
           Example.first_step MAX_CRITIQUE_ATTEMPTS 0 context0 σ0
         = (Ok (attempts, context_end), σ_end) →
         (length attempts ≤ MAX_CRITIQUE_ATTEMPTS)%nat
         ∧ (∀ i a, attempts !! i = Some a →
              attempt a = S i
              ∧ (∃ c σa c' σb,
                   attempt_once Example.test_host Example.scripted Cli "2 + 3 * 4"
                     Example.first_step i c σa = (Ok (a, c'), σb)
                   ∧ (i = 0%nat → c = context0 ∧ σa = σ0))
              ∧ (success a = true →
                   length attempts = S i
                   ∧ context_end !! result_key 1 = Some (output a)))
         ∧ ∃ new, calls σ_end = calls σ0 ++ new
                  ∧ generations new = length attempts).
Proof.
  eexists _, _, _.
  eassert (attempt_once Example.test_host Example.scripted Cli "2 + 3 * 4"
             Example.first_step 0 ∅ (Example.start Example.accepts_first)
           = (Ok (_, _), _)) as Hrun by run.
  split; [exact Hrun|].
  exact (accepted_iff_correct_and_loop_ends Example.test_host Example.scripted Cli
           "2 + 3 * 4" Example.first_step 2 0 ∅ _
           (Example.start Example.accepts_first) _ _ Hrun).
Defined.

(** A step accepted at its third attempt: three generation calls, two
    critiques (the first attempt was an execution error), and the output of
    the third attempt as the result. *)
Lemma third_attempt_scenario :
  ∃ σ' context',
    run_step Example.test_host Example.scripted Web "q" Example.first_step ∅
      (Example.start Example.third_time_lucky)
    = (Ok ([AttemptData 1 "result = __import__('os').system('x')"
              (VStr "EXECUTION_ERROR: Disallowed Python syntax: Call")
              "Execution failed: EXECUTION_ERROR: Disallowed Python syntax: Call"
              false;
            AttemptData 2 "result = 40 + 1" (VInt 41) "Incorrect: should be 14" false;
            AttemptData 3 "result = 2 + 3 * 4" (VInt 14) "CORRECT - 14" true],
           context'), σ')
    ∧ context' !! "step_1_result" = Some (VInt 14)
    ∧ context' !! "last_feedback" = Some (VStr "Incorrect: should be 14")
    ∧ context' !! "expected_correction" = Some (VFloat (float_of_ratio 14 1))
    ∧ generations (calls σ') = 3%nat
    ∧ length (filter (λ c, is_critique c = true) (calls σ')) = 2%nat.
Proof.
  eexists _, _. split; [run|]. repeat split; vm_compute; reflexivity.
Qed.

Lemma exhausted_witness :
  ∃ attempts context' σ',
    (type Example.first_step = "calculation"
     ∨ type Example.first_step = "data_lookup")
    ∧ run_step Example.test_host Example.scripted Web "q" Example.first_step ∅
        (Example.start Example.rejects_thrice) = (Ok (attempts, context'), σ')
    ∧ Forall (λ a, success a = false) attempts
    ∧ length attempts = MAX_CRITIQUE_ATTEMPTS
    ∧ context' !! result_key 1 = Some FAILED_TO_REFINE
    ∧ run_plan Example.test_host Example.scripted Web "q"
        (Example.first_step :: [Example.second_step]) ∅
        (Example.start Example.rejects_thrice)
      = bind (run_plan Example.test_host Example.scripted Web "q"
                [Example.second_step] context')
             (λ '(more, c), ret ((Example.first_step, attempts) :: more, c)) σ'.
Proof.
  eexists _, _, _.
  assert (type Example.first_step = "calculation"
          ∨ type Example.first_step = "data_lookup") as Htype by (by left).
  eassert (run_step Example.test_host Example.scripted Web "q" Example.first_step ∅
             (Example.start Example.rejects_thrice) = (Ok (_, _), _)) as Hrun by run.
  split; [exact Htype|]. split; [exact Hrun|].
  match goal with
  | |- Forall ?P ?l ∧ _ => assert (Forall P l) as Hall by (repeat constructor)
  end.
  split; [exact Hall|].
  exact (proj1 (exhausted_step_marked_and_plan_goes_on Example.test_host
                  Example.scripted Web "q" Example.first_step [Example.second_step]
                  ∅ (Example.start Example.rejects_thrice) Htype)
           _ _ _ Hrun Hall).
Defined.


(** The second scenario of the specification: the call into the operating
    system is refused in the first attempt, the critic is not asked, and the
    loop asks for another snippet. *)
Lemma system_call_scenario :
  ∃ w,
    attempt_once Example.test_host Example.scripted Cli "q" Example.first_step 0 ∅
      (Example.start Example.generates_system_call)
    = (Ok (AttemptData 1 "result = __import__('os').system('x')"
             (VStr "EXECUTION_ERROR: Disallowed Python syntax: Call")
             "Execution failed: EXECUTION_ERROR: Disallowed Python syntax: Call"
             false,
           {["last_feedback" :=
               VStr "Execution failed: EXECUTION_ERROR: Disallowed Python syntax: Call"]}),
       Machine w [Generate (GenPrompt "" "Compute 2 + 3 * 4" ∅ None)]).
Proof. eexists. run. Qed.

(** The first scenario of the specification: one step, accepted at once; the
    synthesis is handed [step_1_result = 14]. *)
Lemma accepted_scenario :
  ∃ w,
    solve_complex_query Example.test_host Example.scripted "2 + 3 * 4"
      (Example.start Example.accepts_first)
    = (Ok (Solution Example.one_step
             [(Example.first_step,
               [AttemptData 1 "result = 2 + 3 * 4" (VInt 14) "Correct." true])]
             "14" {["step_1_result" := VInt 14]}),
       Machine w
         [Decompose "2 + 3 * 4";
          Generate (GenPrompt "" "Compute 2 + 3 * 4" ∅ None);
          Critique "Compute 2 + 3 * 4" "14" "2 + 3 * 4" ∅;
          Synthesize "2 + 3 * 4" {["step_1_result" := VInt 14]}]).
Proof. eexists. run. Qed.

Lemma hint_example :
  expected_values_of
    (<["step_1_result" := VInt 14]>
       (<["step_2_result" := FAILED_TO_REFINE]>
          (<["last_feedback" := VStr "Incorrect: 14"]>
             (<["expected_correction" := VInt 14]> ∅))))
  = {["step_1" := VInt 14]}.
Proof. vm_compute. reflexivity. Qed.


Lemma transient_keys_witness :
  ∃ attempts (context1 : dict) (σ1 : machine Example.script),
    (∀ key, is_Some ((∅ : dict) !! key) → is_Some (context1 !! key))
    ∧ (∀ a, last (filter (λ a, success a = false) attempts) = Some a →
            context1 !! "last_feedback" = Some (VStr (feedback a)))
    ∧ (∀ r σ2,
        run_plan Example.test_host Example.scripted Cli "q" [Example.second_step]
          context1 σ1 = (r, σ2) →
        ∃ new,
          calls σ2 = calls σ1 ++ new
          ∧ Forall (keeps_keys context1) new
          ∧ (∀ s' rest' c,
               [Example.second_step] = s' :: rest' →
               enters_retry_loop Cli (type s') = true →
               new !! 0%nat = Some c →
               ∃ p, c = Generate p
                    ∧ prompt_context p = context1
                    ∧ ∀ fb, context1 !! "last_feedback" = Some (VStr fb) →
                            feedback_context p
                            = "Previous attempt was incorrect. Feedback: " +:+ fb
                              +:+ String "010" "")
          ∧ ∀ done final,
              r = Ok (done, final) →
              (∀ key, is_Some (context1 !! key) → is_Some (final !! key))
              ∧ ∀ r' σ3,
                  synthesize_answer Example.scripted "q" final σ2 = (r', σ3) →
                  calls σ3 = calls σ2 ++ [Synthesize "q" final])
    ∧ ∀ s' attempts' context2 σ2,
        enters_retry_loop Cli (type s') = true →
        run_step Example.test_host Example.scripted Cli "q" s' context1 σ1
        = (Ok (attempts', context2), σ2) →
        ∃ new prompts,
          calls σ2 = calls σ1 ++ new
          ∧ generated new = prompts
          ∧ length prompts = length attempts'
          ∧ (∀ p, prompts !! 0%nat = Some p → prompt_context p = context1)
          ∧ ∀ i a p',
              attempts' !! i = Some a → prompts !! S i = Some p' →
              success a = false
              ∧ prompt_context p' !! "last_feedback" = Some (VStr (feedback a))
              ∧ ∃ p, prompts !! i = Some p
                     ∧ (∀ key, is_Some (prompt_context p !! key) →
                               is_Some (prompt_context p' !! key))
                     ∧ (is_ascii_text (feedback a) = true →
                        note_rejection Cli (feedback a) (prompt_context p)
                        = Ok (prompt_context p')).
Proof.
  eexists _, _, _.
  eapply (transient_keys_are_never_removed Example.test_host Example.scripted Cli
            "q" Example.first_step [Example.second_step] ∅ _
            (Example.start Example.rejects_thrice)).
  run.
Defined.

(** C10 as stated fails: the first step is rejected once with a feedback
    that names 14 and then accepted, so that it leaves that feedback and 14.0
    in the context; the second step is rejected once with a feedback that
    names 28, and its second generation call is handed the newer feedback
    and 28.0, not the values that the first step left. The final context,
    which the synthesis call is handed, has the newer values as well. *)
Lemma later_call_gets_newer_values :
  ∃ attempts1 context1 σ1 attempts2 context2 σ2 p1 p2 c1 c2 w,
    run_step Example.test_host Example.scripted Cli "q" Example.first_step ∅
      (Example.start Sample.overwrites) = (Ok (attempts1, context1), σ1)
    ∧ context1 !! "last_feedback" = Some (VStr "Incorrect: should be 14")
    ∧ context1 !! "expected_correction" = Some (VFloat (float_of_ratio 14 1))
    ∧ run_step Example.test_host Example.scripted Cli "q" Example.second_step
        context1 σ1 = (Ok (attempts2, context2), σ2)
    ∧ calls σ2 = calls σ1 ++ [Generate p1; c1; Generate p2; c2]
    ∧ prompt_context p1 = context1
    ∧ prompt_context p2 !! "last_feedback" = Some (VStr "Incorrect: should be 28")
    ∧ prompt_context p2 !! "expected_correction"
      = Some (VFloat (float_of_ratio 28 1))
    ∧ feedback_context p2
      = "Previous attempt was incorrect. Feedback: Incorrect: should be 28"
        +:+ String "010" ""
    ∧ corrections p2 = Some (VFloat (float_of_ratio 28 1))
    ∧ context2 !! "last_feedback" = Some (VStr "Incorrect: should be 28")
    ∧ context2 !! "expected_correction" = Some (VFloat (float_of_ratio 28 1))
    ∧ solve_complex_query Example.test_host Example.scripted "q"
        (Example.start Sample.overwrites)
      = (Ok (Solution Example.two_steps
               [(Example.first_step, attempts1); (Example.second_step, attempts2)]
               "28" context2),
         Machine w (Decompose "q" :: calls σ2 ++ [Synthesize "q" context2])).
Proof.
  let r := eval vm_compute in
    (run_step Example.test_host Example.scripted Cli "q" Example.first_step ∅
       (Example.start Sample.overwrites)) in
  match r with
  | (Ok (?a, ?c), ?s) => pose (attempts1 := a); pose (context1 := c); pose (σ1 := s)
  end.
  let r := eval vm_compute in
    (run_step Example.test_host Example.scripted Cli "q" Example.second_step
       context1 σ1) in
  match r with
  | (Ok (?a, ?c), ?s) => pose (attempts2 := a); pose (context2 := c); pose (σ2 := s)
  end.
  exists attempts1, context1, σ1, attempts2, context2, σ2.
  eexists _, _, _, _, _.
  split; [run|]. split; [run|]. split; [run|]. split; [run|].
  split; [cbn; reflexivity|]. split; [cbn; reflexivity|].
  split; [run|]. split; [run|]. split; [run|]. split; [run|].
  split; [run|]. split; run.
Qed.

(** The notes of the first step are still there when the second step asks for
    its snippet, and when the answer is synthesized. *)
Lemma stale_notes_scenario :
  ∃ w p1 p2 p3 h1 h2 h3 hint final,
    solve_query_with_steps Example.test_host Example.scripted "q"
      (Example.start Example.rejects_thrice)
    = (Ok (Solution Example.two_steps
             [(Example.first_step,
               [AttemptData 1 "result = 40 + 1" (VInt 41)
                  "Incorrect: should be 42 not 41.5" false;
                AttemptData 2 "result = 40 + 1" (VInt 41)
                  "Incorrect: should be 42 not 41.5" false;
                AttemptData 3 "result = 40 + 1" (VInt 41)
                  "Incorrect: should be 42 not 41.5" false]);
              (Example.second_step,
               [AttemptData 1 "result = 2 + 3 * 4" (VInt 14) "Correct." true])]
             "unresolved" final),
       Machine w
         [Decompose "q";
          Generate p1; Critique "Compute 2 + 3 * 4" "41" "q" h1;
          Generate p2; Critique "Compute 2 + 3 * 4" "41" "q" h2;
          Generate p3; Critique "Compute 2 + 3 * 4" "41" "q" h3;
          Generate
            (GenPrompt
               ("Previous attempt was incorrect. Feedback: "
                +:+ "Incorrect: should be 42 not 41.5" +:+ String "010" "")
               "Double it"
               (<["step_1_result" := FAILED_TO_REFINE]>
                  (<["expected_correction" :=
                       VFloat (S754_finite false 5840605766746112 (-47))]>
                     {["last_feedback" := VStr "Incorrect: should be 42 not 41.5"]}))
               (Some (VFloat (S754_finite false 5840605766746112 (-47)))));
          Critique "Double it" "14" "q" hint;
          Synthesize "q" final])
    ∧ final !! "last_feedback" = Some (VStr "Incorrect: should be 42 not 41.5")
    ∧ final !! "expected_correction"
      = Some (VFloat (S754_finite false 5840605766746112 (-47)))
    ∧ final !! "step_1_result" = Some FAILED_TO_REFINE
    ∧ final !! "step_2_result" = Some (VInt 14)
    ∧ hint = ∅.
Proof.
  eexists _, _, _, _, _, _, _, _, _. split; [run|].
  repeat split; vm_compute; reflexivity.
Qed.

Lemma collaborator_failure_witness :
  ∃ e σ',
    attempt_once Example.test_host Example.scripted Cli "q" Example.first_step 0 ∅
      (Example.start Example.critique_fails) = (Raised e, σ')
    ∧ retry_loop Example.test_host Example.scripted Cli "q" Example.first_step 3 0 ∅
        (Example.start Example.critique_fails) = (Raised e, σ').
Proof.
  eexists _, _.
  edestruct (collaborator_failure_is_fatal Example.test_host Example.scripted Cli
               "q" Example.first_step 0 2 ∅ (Example.start Example.critique_fails))
    as (Hattempt & Hloop & _).
  - right. eexists _, _. split; [run|]. split; [vm_compute; reflexivity | run].
  - split; [exact Hattempt | exact Hloop].
Defined.

(** C2 as stated fails: in each loop the first generation request fails, a
    second request would have been answered and accepted, and yet the query
    ends with the failure after that one request, without a retry and without
    the synthesis. The same happens when the critique request fails. *)
Lemma collaborator_failure_ends_query :
  solve_complex_query Example.test_host Example.scripted "2 + 3 * 4"
    (Example.start Example.generation_fails) = Example.after_failed_generation
  ∧ solve_query_with_steps Example.test_host Example.scripted "2 + 3 * 4"
      (Example.start Example.generation_fails) = Example.after_failed_generation
  ∧ solve_query_stream Example.test_host Example.scripted "2 + 3 * 4"
      (Example.start Example.generation_fails) = Example.after_failed_generation
  ∧ solve_complex_query Example.test_host Example.scripted "2 + 3 * 4"
      (Example.start Example.critique_fails) = Example.after_failed_critique
  ∧ solve_query_with_steps Example.test_host Example.scripted "2 + 3 * 4"
      (Example.start Example.critique_fails) = Example.after_failed_critique
  ∧ solve_query_stream Example.test_host Example.scripted "2 + 3 * 4"
      (Example.start Example.critique_fails) = Example.after_failed_critique.
Proof. repeat split; vm_compute; reflexivity. Qed.

(** The streaming loop on the feedback of the specification: the rejection is
    noted without a correction, where the blocking loops note 41.5. *)
Lemma streaming_run_has_no_correction :
  ∃ w calls_ data,
    attempt_once Example.test_host Example.scripted Stream "q" Example.first_step 0 ∅
      (Example.start Example.rejects_thrice)
    = (Ok (data, {["last_feedback" := VStr "Incorrect: should be 42 not 41.5"]}),
       Machine w calls_)
    ∧ feedback data = "Incorrect: should be 42 not 41.5"
    ∧ attempt_once Example.test_host Example.scripted Web "q" Example.first_step 0 ∅
        (Example.start Example.rejects_thrice)
      = (Ok (data,
             <["expected_correction" :=
                 VFloat (S754_finite false 5840605766746112 (-47))]>
               {["last_feedback" := VStr "Incorrect: should be 42 not 41.5"]}),
         Machine w calls_).
Proof.
  eexists _, _, _. split; [run|]. split; vm_compute; reflexivity.
Qed.

(** ** More about the sandbox *)

Lemma validate_nodes_all_allowed (nodes : list ast) :
  Forall (λ n, allowed n = true) nodes → validate_nodes nodes = Ok tt.
Proof.
  induction 1 as [|x rest Hx _ IH]; simpl; [done|]. by rewrite Hx.
Qed.

Lemma occurs_in_trans (a b c : ast) : occurs_in a b → occurs_in b c → occurs_in a c.
Proof.
  intros Hab Hbc. induction Hbc as [|t c' Hc' _ IH]; [done|].
  by apply occurs_below with c'.
Qed.

Lemma occurs_in_child (n c t : ast) :
  c ∈ iter_child_nodes t → occurs_in n c → occurs_in n t.
Proof. intros. by apply occurs_below with c. Qed.

(** X4. The validator accepts a tree exactly when every node in it is an
    instance of a class of the allow-list; and what it raises otherwise is
    always the [ValueError] that names the class of a node of the tree that
    is not allowed. *)
Theorem validator_accepts_iff_all_allowed (tree : ast) :
  (_validate_ast tree = Ok tt ↔ ∀ n, occurs_in n tree → allowed n = true)
  ∧ ∀ e, _validate_ast tree = Raised e →
      ∃ bad, occurs_in bad tree ∧ allowed bad = false
             ∧ e = Exn "ValueError" ("Disallowed Python syntax: " +:+ class_name bad).
Proof.
  unfold _validate_ast. split; [split|].
  - intros Hok n Hn. apply validate_nodes_ok in Hok.
    rewrite Forall_forall in Hok. apply Hok. by apply elem_of_walk.
  - intros Hall. apply validate_nodes_all_allowed, Forall_forall.
    intros n Hn. by apply Hall, elem_of_walk.
  - intros e Hraised.
    destruct (decide (Forall (λ n, allowed n = true) (walk tree))) as [Hall|Hnot].
    { rewrite (validate_nodes_all_allowed _ Hall) in Hraised. discriminate. }
    apply not_Forall_Exists in Hnot; [|intros n; apply _].
    apply Exists_exists in Hnot as (bad & Hin & Hbad).
    apply not_true_is_false in Hbad.
    destruct (validate_nodes_raises _ _ Hin Hbad)
      as (before & first & after & Hwalk & _ & Hfirst & Hval).
    exists first. split; [|split; [done|congruence]].
    apply elem_of_walk. rewrite Hwalk. apply elem_of_app. right. by left.
Qed.

Section Locality.

Variable py : host.

Lemma eval_expr_agree (scope1 scope2 : dict) (e : ast) :
  (∀ id, occurs_in (Name id Load) e → scope1 !! id = scope2 !! id) →
  eval_expr py scope1 e = eval_expr py scope2 e.
Proof.
  induction e as [| | |l IHl op _ r IHr|op _ operand IH| |id ctx _| | | | | | | | | | |
                   | | | | | | | | | | ]; intros Hagree; try reflexivity.
  - cbn [eval_expr]. rewrite IHl, IHr; [done| |].
    + intros id Hid. apply Hagree. eapply occurs_in_child; [|done].
      cbn. set_solver.
    + intros id Hid. apply Hagree. eapply occurs_in_child; [|done].
      cbn. set_solver.
  - cbn [eval_expr]. rewrite IH; [done|].
    intros id Hid. apply Hagree. eapply occurs_in_child; [|done].
    cbn. set_solver.
  - destruct ctx; try reflexivity. cbn [eval_expr]. unfold load_name.
    rewrite (Hagree id); [done|constructor].
Qed.

Lemma store_targets_agree (names : string → Prop) (v : value) :
  ∀ targets scope1 scope2,
    agree_on names scope1 scope2 →
    match store_targets v scope1 targets, store_targets v scope2 targets with
    | Ok s1, Ok s2 => agree_on names s1 s2
    | Raised e1, Raised e2 => e1 = e2
    | _, _ => False
    end.
Proof.
  induction targets as [|t ts IH]; intros scope1 scope2 Hagree; simpl; [done|].
  destruct t as [| | | | | |id ctx| | | | | | | | | | | | | | | | | | | | | ];
    simpl; try done.
  destruct ctx; simpl; try done.
  apply IH. intros id' Hid'.
  destruct (decide (id = id')) as [->|Hne].
  - by rewrite !lookup_insert_eq.
  - rewrite !lookup_insert_ne by done. by apply Hagree.
Qed.

Lemma exec_body_agree (names : string → Prop) :
  ∀ body scope1 scope2,
    agree_on names scope1 scope2 →
    (∀ s id, s ∈ body → occurs_in (Name id Load) s → names id) →
    match exec_body py scope1 body, exec_body py scope2 body with
    | Ok s1, Ok s2 => agree_on names s1 s2
    | Raised e1, Raised e2 => e1 = e2
    | _, _ => False
    end.
Proof.
  induction body as [|s rest IH]; intros scope1 scope2 Hagree Hnames; simpl;
    [done|].
  assert (match exec_stmt py scope1 s, exec_stmt py scope2 s with
          | Ok s1, Ok s2 => agree_on names s1 s2
          | Raised e1, Raised e2 => e1 = e2
          | _, _ => False
          end) as Hstmt.
  { destruct s as [| |targets value| | | | | | | | | | | | | | | | | | | | | | | | | ];
      simpl; try done.
    rewrite (eval_expr_agree scope1 scope2 value).
    - destruct (eval_expr py scope2 value) as [v|e]; simpl; [|done].
      by apply store_targets_agree.
    - intros id Hid. apply Hagree, (Hnames (Assign targets value)); [set_solver|].
      eapply occurs_in_child; [|done]. cbn. set_solver. }
  destruct (exec_stmt py scope1 s) as [s1|e1], (exec_stmt py scope2 s) as [s2|e2];
    simpl; try done.
  apply IH; [done|]. intros s' id Hs'. apply Hnames. set_solver.
Qed.

End Locality.

(** X5. The outcome of the sandbox depends on the context only through the
    names that the snippet holds: two contexts that agree on every name in
    the tree other than [result] give the same outcome, value or execution
    error. So a key that the snippet does not name, [last_feedback] or
    [expected_correction] for one, has no influence on the run. *)
Theorem safe_exec_depends_on_named_keys (py : host) (code_str : string) (tree : ast)
    (context1 context2 : dict) :
  ast_parse py code_str = Ok tree →
  (∀ id ctx, occurs_in (Name id ctx) tree → id ≠ "result" →
             context1 !! id = context2 !! id) →
  safe_exec py code_str context1 = safe_exec py code_str context2.
Proof.
  intros Hparse Hsame. unfold safe_exec, safe_exec_try. rewrite Hparse.
  cbn [rbind].
  destruct (_validate_ast tree) as [[]|e]; cbn [rbind]; [|done].
  destruct (compile_check py tree) as [[]|e]; cbn [rbind]; [|done].
  destruct tree as [body| | | | | | | | | | | | | | | | | | | | | | | | | | | ];
    try done.
  cbn [exec_].
  set (names := λ id : string, id = "result" ∨ ∃ ctx, occurs_in (Name id ctx) (Module_ body)).
  assert (agree_on names (<["result" := VNone]> context1)
                         (<["result" := VNone]> context2)) as Hstart.
  { intros id Hid. destruct (decide (id = "result")) as [->|Hne].
    - by rewrite !lookup_insert_eq.
    - rewrite !lookup_insert_ne by done.
      destruct Hid as [?|[ctx Hocc]]; [done|]. by apply Hsame with ctx. }
  pose proof (exec_body_agree py names body _ _ Hstart) as Hrun.
  destruct (exec_body py (<["result" := VNone]> context1) body) as [s1|e1],
           (exec_body py (<["result" := VNone]> context2) body) as [s2|e2];
    cbn [rbind].
  - rewrite Hrun; [done| |by left].
    intros s id Hs Hocc. right. exists Load. by apply occurs_in_child with s.
  - exfalso. apply Hrun.
    intros s id Hs Hocc. right. exists Load. by apply occurs_in_child with s.
  - exfalso. apply Hrun.
    intros s id Hs Hocc. right. exists Load. by apply occurs_in_child with s.
  - rewrite Hrun; [done|].
    intros s id Hs Hocc. right. exists Load. by apply occurs_in_child with s.
Qed.

(** ** The calls of a run *)

Lemma generations_app (a b : list call) :
  generations (a ++ b) = (generations a + generations b)%nat.
Proof. unfold generations. by rewrite filter_app, length_app. Qed.

Lemma critiques_app (a b : list call) :
  critiques (a ++ b) = (critiques a + critiques b)%nat.
Proof. unfold critiques. by rewrite filter_app, length_app. Qed.

Lemma within_budget_nil (n : nat) : within_budget n [].
Proof. split; [constructor|]. split; unfold generations, critiques; simpl; lia. Qed.

Lemma within_budget_app (n m : nat) (a b : list call) :
  within_budget n a → within_budget m b → within_budget (n + m) (a ++ b).
Proof.
  intros (Ha & Hga & Hca) (Hb & Hgb & Hcb). split; [by apply Forall_app|].
  rewrite generations_app, critiques_app. lia.
Qed.

Lemma within_budget_mono (n m : nat) (a : list call) :
  (n ≤ m)%nat → within_budget n a → within_budget m a.
Proof. intros Hnm (Ha & Hg & Hc). split; [done|]. split; lia. Qed.

Section BudgetFacts.

Context {world : Type}.
Variable py : host.
Variable svc : service world.

Lemma attempt_once_log (v : variant) (query : string) (s : step) (k : nat)
    (context : dict) (σ σ' : machine world) (r : result (attempt_data * dict)) :
  attempt_once py svc v query s k context σ = (r, σ') →
  ∃ new, calls σ' = calls σ ++ new ∧ within_budget 1 new
         ∧ (∀ x, r = Ok x → generations new = 1%nat).
Proof.
  rewrite attempt_once_unfold, generate_unfold.
  destruct (build_gen_prompt (description s) context) as [p|e].
  2:{ intros [= <- <-]. exists []. rewrite app_nil_r.
      split; [done|]. split; [apply within_budget_nil|done]. }
  destruct (llm_generate svc p (the_world σ)) as [[content|e] w].
  2:{ intros [= <- <-]. exists [Generate p]. split; [done|].
      split; [|done]. split; [by repeat constructor|]. split; compute; lia. }
  unfold feedback_for.
  destruct (is_execution_error (safe_exec py (Str.strip content) context)).
  - cbn [ret fst snd]. unfold ret.
    destruct (Str.startswith "correct" _).
    + intros [= <- <-]. exists [Generate p]. split; [done|].
      split; [|done]. split; [by repeat constructor|]. split; compute; lia.
    + destruct (note_rejection _ _ _); intros [= <- <-];
        exists [Generate p]; (split; [done|]);
        (split; [|done]); (split; [by repeat constructor|]); split; compute; lia.
  - rewrite critique_unfold. cbn [calls the_world].
    destruct (llm_critique svc _ _ _ _ w) as [[feedback|e] w'].
    + destruct (Str.startswith "correct" _).
      * intros [= <- <-]. eexists [Generate p; _]. cbn [calls].
        rewrite <- app_assoc. split; [done|].
        split; [|done]. split; [by repeat constructor|]. split; compute; lia.
      * destruct (note_rejection _ _ _); intros [= <- <-];
          eexists [Generate p; _]; cbn [calls]; rewrite <- app_assoc;
          (split; [done|]); (split; [|done]);
          (split; [by repeat constructor|]); split; compute; lia.
    + intros [= <- <-]. eexists [Generate p; _]. cbn [calls].
      rewrite <- app_assoc. split; [done|].
      split; [|done]. split; [by repeat constructor|]. split; compute; lia.
Qed.

Lemma retry_loop_budget (v : variant) (query : string) (s : step) :
  ∀ remaining k context (σ σ' : machine world) r,
    retry_loop py svc v query s remaining k context σ = (r, σ') →
    ∃ new, calls σ' = calls σ ++ new ∧ within_budget remaining new.
Proof.
  induction remaining as [|remaining IH]; intros k context σ σ' r.
  - intros [= <- <-]. exists []. rewrite app_nil_r.
    split; [done|apply within_budget_nil].
  - rewrite retry_loop_unfold.
    destruct (attempt_once py svc v query s k context σ) as [[[data context1]|e] σ1]
      eqn:Hatt;
      destruct (attempt_once_log _ _ _ _ _ _ _ _ Hatt) as (new1 & Hlog1 & Hb1 & _).
    + destruct (success data).
      * intros [= <- <-]. exists new1. split; [done|].
        apply within_budget_mono with 1%nat; [lia|done].
      * intros Hrest. apply bind_inv in Hrest
          as [(a & σ2 & Hloop & Hret)|(e & Hloop & ->)].
        -- destruct a as [more c]. apply ret_inv in Hret as [_ ->].
           apply IH in Hloop as (new2 & Hlog2 & Hb2).
           exists (new1 ++ new2). rewrite Hlog2, Hlog1, app_assoc.
           split; [done|]. by apply (within_budget_app 1 remaining).
        -- apply IH in Hloop as (new2 & Hlog2 & Hb2).
           exists (new1 ++ new2). rewrite Hlog2, Hlog1, app_assoc.
           split; [done|]. by apply (within_budget_app 1 remaining).
    + intros [= <- <-]. exists new1. split; [done|].
      apply within_budget_mono with 1%nat; [lia|done].
Qed.

Lemma run_plan_budget (v : variant) (query : string) :
  ∀ todo context (σ σ' : machine world) r,
    run_plan py svc v query todo context σ = (r, σ') →
    ∃ new, calls σ' = calls σ ++ new
           ∧ within_budget (MAX_CRITIQUE_ATTEMPTS * length (looped v todo)) new.
Proof.
  induction todo as [|s rest IH]; intros context σ σ' r.
  - intros [= <- <-]. exists []. rewrite app_nil_r.
    split; [done|apply within_budget_nil].
  - rewrite run_plan_unfold.
    assert (∃ n, (n + MAX_CRITIQUE_ATTEMPTS * length (looped v rest)
                  = MAX_CRITIQUE_ATTEMPTS * length (looped v (s :: rest)))%nat
                 ∧ ∀ r1 σ1, run_step py svc v query s context σ = (r1, σ1) →
                     ∃ new, calls σ1 = calls σ ++ new ∧ within_budget n new)
      as (n & Hn & Hstep).
    { unfold run_step, looped. rewrite filter_cons.
      destruct (enters_retry_loop v (type s)) eqn:Henter.
      - exists MAX_CRITIQUE_ATTEMPTS. rewrite decide_True by done.
        split; [simpl; lia|]. intros r1 σ1. apply retry_loop_budget.
      - exists 0%nat. rewrite decide_False by done. split; [done|].
        intros r1 σ1 [= <- <-]. exists []. rewrite app_nil_r.
        split; [done|apply within_budget_nil]. }
    destruct (run_step py svc v query s context σ) as [[[attempts context1]|e] σ1]
      eqn:Hrun; destruct (Hstep _ _ eq_refl) as (new1 & Hlog1 & Hb1).
    + intros Hrest. rewrite <- Hn. apply bind_inv in Hrest
        as [(a & σ2 & Hplan & Hret)|(e & Hplan & ->)].
      * destruct a as [more c]. apply ret_inv in Hret as [_ ->].
        apply IH in Hplan as (new2 & Hlog2 & Hb2).
        exists (new1 ++ new2). rewrite Hlog2, Hlog1, app_assoc.
        split; [done|]. by apply within_budget_app.
      * apply IH in Hplan as (new2 & Hlog2 & Hb2).
        exists (new1 ++ new2). rewrite Hlog2, Hlog1, app_assoc.
        split; [done|]. by apply within_budget_app.
    + intros [= <- <-]. exists new1. split; [done|].
      eapply within_budget_mono; [|done]. lia.
Qed.

End BudgetFacts.

Section QueryFacts.

Context {world : Type}.
Variable py : host.
Variable svc : service world.

Lemma decompose_unfold (v : variant) (query : string) (σ : machine world) :
  decompose svc v query σ
  = match llm_decompose svc query (the_world σ) with
    | (Ok todo, w) => (Ok todo, Machine w (calls σ ++ [Decompose query]))
    | (Raised e, w) =>
        (Raised (match v with
                 | Cli => e
                 | _ => Exn "Exception" ("Failed to decompose problem: " +:+ exc_str e)
                 end),
         Machine w (calls σ ++ [Decompose query]))
    end.
Proof.
  unfold decompose, decompose_problem, catch, remote, raise.
  destruct v; destruct (llm_decompose svc query (the_world σ)) as [[todo|e] w];
    reflexivity.
Qed.

Lemma solve_unfold (v : variant) (query : string) (σ : machine world) :
  solve py svc v query σ
  = match decompose svc v query σ with
    | (Raised e, σ1) => (Raised e, σ1)
    | (Ok todo, σ1) =>
        match run_plan py svc v query todo ∅ σ1 with
        | (Raised e, σ2) => (Raised e, σ2)
        | (Ok (done, context), σ2) =>
            match synthesize_answer svc query context σ2 with
            | (Raised e, σ3) => (Raised e, σ3)
            | (Ok answer, σ3) => (Ok (Solution todo done answer context), σ3)
            end
        end
    end.
Proof.
  unfold solve, bind at 1.
  destruct (decompose svc v query σ) as [[todo|e] σ1]; [|done].
  unfold bind at 1.
  destruct (run_plan py svc v query todo ∅ σ1) as [[[finished context]|e] σ2]; [|done].
  unfold bind, ret.
  by destruct (synthesize_answer svc query context σ2) as [[answer|e] σ3].
Qed.

End QueryFacts.

(** ** What the loops leave in the context *)

Lemma loop_context_empty : loop_context ∅.
Proof. intros key x Hx. by rewrite lookup_empty in Hx. Qed.

Lemma loop_context_result (context : dict) (n : Z) (x : value) :
  loop_context context → is_execution_error x = false →
  loop_context (<[result_key n := x]> context).
Proof.
  intros Hctx Hx key y. destruct (decide (key = result_key n)) as [->|Hne].
  - rewrite lookup_insert_eq. intros [= <-]. right. right. eauto.
  - rewrite lookup_insert_ne by done. apply Hctx.
Qed.

Lemma loop_context_feedback (context : dict) (feedback : string) :
  loop_context context → loop_context (<["last_feedback" := VStr feedback]> context).
Proof.
  intros Hctx key y. destruct (decide (key = "last_feedback")) as [->|Hne].
  - rewrite lookup_insert_eq. intros [= <-]. left. eauto.
  - rewrite lookup_insert_ne by done. apply Hctx.
Qed.

Lemma loop_context_correction (context : dict) (f : float) :
  loop_context context → loop_context (<["expected_correction" := VFloat f]> context).
Proof.
  intros Hctx key y. destruct (decide (key = "expected_correction")) as [->|Hne].
  - rewrite lookup_insert_eq. intros [= <-]. right. left. eauto.
  - rewrite lookup_insert_ne by done. apply Hctx.
Qed.

Lemma py_float_is_float (token : string) (x : value) :
  py_float token = Ok x → ∃ f, x = VFloat f.
Proof.
  unfold py_float. destruct (split_dot token) as [whole [frac|]].
  - destruct (is_numeral whole && is_numeral frac); [|discriminate].
    intros [= <-]. eauto.
  - destruct (is_numeral whole); [|discriminate]. intros [= <-]. eauto.
Qed.

Lemma last_number_is_float (numbers : list string) (x : value) :
  last_number numbers = Ok (Some x) → ∃ f, x = VFloat f.
Proof.
  unfold last_number. destruct (last numbers) as [token|]; [|discriminate].
  destruct (py_float token) as [y|e] eqn:Hy; [|discriminate].
  intros [= <-]. by apply py_float_is_float with token.
Qed.

Lemma note_rejection_loop_context (v : variant) (feedback : string)
    (context context' : dict) :
  loop_context context → note_rejection v feedback context = Ok context' →
  loop_context context'.
Proof.
  intros Hctx. unfold note_rejection.
  destruct (Str.startswith "Incorrect:" feedback).
  - destruct (Re.findall _ feedback) as [numbers|]; [|discriminate]. cbn [rbind].
    destruct (last_number numbers) as [[x|]|] eqn:Hlast; [| |discriminate];
      cbn [rbind]; intros [= <-].
    + apply last_number_is_float in Hlast as [f ->].
      by apply loop_context_correction, loop_context_feedback.
    + by apply loop_context_feedback.
  - intros [= <-]. by apply loop_context_feedback.
Qed.

Lemma sentinel_is_no_error : is_execution_error FAILED_TO_REFINE = false.
Proof. reflexivity. Qed.

Section ContextFacts.

Context {world : Type}.
Variable py : host.
Variable svc : service world.

(** An execution error is never accepted: its feedback is made up locally
    and does not start with "correct". *)
Lemma accepted_is_no_error (query : string) (desc : string) (context : dict)
    (output : value) (σ σ' : machine world) (feedback : string) :
  feedback_for py svc query desc context output σ = (Ok feedback, σ') →
  Str.startswith "correct" (Str.lower feedback) = true →
  is_execution_error output = false.
Proof.
  unfold feedback_for. destruct (is_execution_error output); [|done].
  intros [= <- <-]. by rewrite execution_failed_not_correct.
Qed.

Lemma attempt_once_loop_context (v : variant) (query : string) (s : step) (k : nat)
    (context context' : dict) (σ σ' : machine world) (data : attempt_data) :
  loop_context context →
  attempt_once py svc v query s k context σ = (Ok (data, context'), σ') →
  loop_context context'.
Proof.
  intros Hctx Hrun.
  destruct (attempt_once_ok py svc v query s k context σ data context' σ' Hrun)
    as (σ1 & _ & Hout & Hfb & _ & Hs & Hctx').
  destruct (success data).
  - subst context'. apply loop_context_result; [done|].
    by eapply accepted_is_no_error.
  - by eapply note_rejection_loop_context.
Qed.

Lemma retry_loop_loop_context (v : variant) (query : string) (s : step) :
  ∀ remaining k context (σ σ' : machine world) attempts context',
    loop_context context →
    retry_loop py svc v query s remaining k context σ
    = (Ok (attempts, context'), σ') →
    loop_context context'.
Proof.
  induction remaining as [|remaining IH]; intros k context σ σ' attempts context' Hctx.
  - intros [= _ <- _]. by apply loop_context_result.
  - rewrite retry_loop_unfold.
    destruct (attempt_once py svc v query s k context σ) as [[[data context1]|e] σ1]
      eqn:Hatt; [|discriminate].
    apply attempt_once_loop_context in Hatt; [|done].
    destruct (success data); [by intros [= _ <- _]|].
    intros ([more c] & σ2 & Hloop & [[= _ <-] _]%ret_inv)%bind_ok_inv.
    by eapply IH.
Qed.

Lemma run_step_loop_context (v : variant) (query : string) (s : step)
    (context context' : dict) (σ σ' : machine world) attempts :
  loop_context context →
  run_step py svc v query s context σ = (Ok (attempts, context'), σ') →
  loop_context context'.
Proof.
  intros Hctx. unfold run_step. destruct (enters_retry_loop v (type s)).
  - by apply retry_loop_loop_context.
  - by intros [= _ <- _].
Qed.

Lemma run_plan_loop_context (v : variant) (query : string) :
  ∀ todo context (σ σ' : machine world) finished context',
    loop_context context →
    run_plan py svc v query todo context σ = (Ok (finished, context'), σ') →
    loop_context context'.
Proof.
  induction todo as [|s rest IH]; intros context σ σ' finished context' Hctx.
  - by intros [= _ <- _].
  - rewrite run_plan_unfold.
    destruct (run_step py svc v query s context σ) as [[[attempts context1]|e] σ1]
      eqn:Hstep; [|discriminate].
    apply run_step_loop_context in Hstep; [|done].
    intros ([more c] & σ2 & Hplan & [[= _ <-] _]%ret_inv)%bind_ok_inv.
    by eapply IH.
Qed.

End ContextFacts.

Lemma loop_context_well_keyed (context : dict) :
  loop_context context → well_keyed context.
Proof.
  intros Hctx key [x Hx]. destruct (Hctx key x Hx) as [[-> _]|[[-> _]|[Hn _]]]; auto.
Qed.

Section ResultFacts.

Context {world : Type}.
Variable py : host.
Variable svc : service world.

Lemma attempt_once_other_result (v : variant) (query : string) (s : step) (k : nat)
    (context context' : dict) (σ σ' : machine world) (data : attempt_data) (n : Z) :
  step_num s ≠ n →
  attempt_once py svc v query s k context σ = (Ok (data, context'), σ') →
  context' !! result_key n = context !! result_key n.
Proof.
  intros Hne Hrun.
  destruct (attempt_once_ok py svc v query s k context σ data context' σ' Hrun)
    as (σ1 & _ & _ & _ & _ & _ & Hctx').
  destruct (success data).
  - subst context'. rewrite lookup_insert_ne; [done|].
    intros Heq. by apply result_key_inj in Heq.
  - by eapply note_rejection_result_key.
Qed.

Lemma retry_loop_other_result (v : variant) (query : string) (s : step) (n : Z) :
  step_num s ≠ n →
  ∀ remaining k context (σ σ' : machine world) attempts context',
    retry_loop py svc v query s remaining k context σ
    = (Ok (attempts, context'), σ') →
    context' !! result_key n = context !! result_key n.
Proof.
  intros Hne. induction remaining as [|remaining IH];
    intros k context σ σ' attempts context'.
  - intros [= _ <- _]. rewrite lookup_insert_ne; [done|].
    intros Heq. by apply result_key_inj in Heq.
  - rewrite retry_loop_unfold.
    destruct (attempt_once py svc v query s k context σ) as [[[data context1]|e] σ1]
      eqn:Hatt; [|discriminate].
    apply (attempt_once_other_result _ _ _ _ _ _ _ _ _ n Hne) in Hatt.
    destruct (success data); [by intros [= _ <- _]|].
    intros ([more c] & σ2 & Hloop & [[= _ <-] _]%ret_inv)%bind_ok_inv.
    apply IH in Hloop. congruence.
Qed.

(** A result is overwritten only by a later step of the same ordinal that a
    loop runs. *)
Lemma run_plan_other_result (v : variant) (query : string) (n : Z) :
  ∀ todo context (σ σ' : machine world) finished context',
    (∀ s, s ∈ looped v todo → step_num s ≠ n) →
    run_plan py svc v query todo context σ = (Ok (finished, context'), σ') →
    context' !! result_key n = context !! result_key n.
Proof.
  induction todo as [|s rest IH]; intros context σ σ' finished context' Hother.
  - by intros [= _ <- _].
  - rewrite run_plan_unfold.
    destruct (run_step py svc v query s context σ) as [[[attempts context1]|e] σ1]
      eqn:Hstep; [|discriminate].
    intros ([more c] & σ2 & Hplan & [[= _ <-] _]%ret_inv)%bind_ok_inv.
    apply IH in Hplan.
    2:{ intros s' Hs'. apply Hother. unfold looped in *. rewrite filter_cons.
        destruct (decide _); set_solver. }
    rewrite Hplan. unfold run_step in Hstep.
    destruct (enters_retry_loop v (type s)) eqn:Henter.
    + eapply retry_loop_other_result; [|done]. apply Hother.
      unfold looped. rewrite filter_cons, decide_True by done. set_solver.
    + by injection Hstep as _ <- _.
Qed.

Lemma run_plan_app_inv (v : variant) (query : string) (rest : list step) :
  ∀ before context (σ σ' : machine world) finished context',
    run_plan py svc v query (before ++ rest) context σ
    = (Ok (finished, context'), σ') →
    ∃ finished1 context1 σ1 finished2,
      run_plan py svc v query before context σ = (Ok (finished1, context1), σ1)
      ∧ run_plan py svc v query rest context1 σ1 = (Ok (finished2, context'), σ')
      ∧ finished = finished1 ++ finished2
      ∧ map fst finished1 = before.
Proof.
  induction before as [|s before IH]; intros context σ σ' finished context'.
  - intros Hrun. by exists [], context, σ, finished.
  - change ((s :: before) ++ rest) with (s :: (before ++ rest)).
    rewrite !run_plan_unfold.
    destruct (run_step py svc v query s context σ) as [[[attempts context1]|e] σ1];
      [|discriminate].
    intros ([more c] & σ2 & Hplan & [[= -> ->] ->]%ret_inv)%bind_ok_inv.
    apply IH in Hplan as (f1 & c1 & σ1' & f2 & Hbefore & Hrest & -> & Hmap).
    exists ((s, attempts) :: f1), c1, σ1', f2.
    erewrite bind_ok_l by done. cbn. unfold ret. by rewrite Hmap.
Qed.

Lemma run_plan_records (v : variant) (query : string) :
  ∀ todo context (σ σ' : machine world) finished context',
    run_plan py svc v query todo context σ = (Ok (finished, context'), σ') →
    map fst finished = todo.
Proof.
  intros todo context σ σ' finished context' Hrun.
  rewrite <- (app_nil_r todo) in Hrun.
  apply run_plan_app_inv in Hrun as (f1 & c1 & σ1 & f2 & _ & Hnil & -> & Hmap).
  injection Hnil as <- _ _. by rewrite app_nil_r.
Qed.

(** The result that a finished loop leaves for its step: the output of the
    accepted attempt, which is then the last one, or the sentinel. *)
Lemma retry_loop_outcome (v : variant) (query : string) (s : step)
    (remaining k : nat) (context context' : dict) (σ σ' : machine world)
    (attempts : list attempt_data) :
  retry_loop py svc v query s remaining k context σ
  = (Ok (attempts, context'), σ') →
  context' !! result_key (step_num s)
  = Some (match last attempts with
          | Some a => if success a then output a else FAILED_TO_REFINE
          | None => FAILED_TO_REFINE
          end).
Proof.
  intros Hloop.
  pose proof (retry_loop_shape py svc v query s _ _ _ _ _ _ _ Hloop)
    as (_ & Hshape & _).
  destruct (last attempts) as [a|] eqn:Hlast.
  - destruct (success a) eqn:Ha.
    + rewrite last_lookup in Hlast.
      by destruct (Hshape _ _ Hlast) as [_ [_ ->]].
    + eapply retry_loop_exhausted; [done|].
      apply Forall_lookup. intros i b Hb.
      destruct (success b) eqn:Hsb; [|done].
      destruct (Hshape _ _ Hb) as [_ Hlen]. destruct (Hlen Hsb) as [Hlen' _].
      rewrite last_lookup, Hlen' in Hlast. simpl in Hlast. congruence.
  - apply last_None in Hlast as ->.
    eapply retry_loop_exhausted; [done|constructor].
Qed.

End ResultFacts.

(** X7. What a query that returns leaves behind. The records of the steps
    follow the plan, one for each step in its order. The final context holds
    nothing but the feedback of the last rejection (a string), the last
    correction (a float) and results of steps, and no result is an execution
    error: such an outcome is rejected without asking the critic. So the
    values handed on as trusted are neither execution errors nor the
    sentinel. *)
Theorem query_leaves_notes_and_results {world : Type} (py : host)
    (svc : service world) (v : variant) (query : string) (σ σ' : machine world)
    (sol : solution) :
  solve py svc v query σ = (Ok sol, σ') →
  map fst (steps sol) = plan sol
  ∧ loop_context (intermediate_results sol)
  ∧ ∀ key x, expected_values_of (intermediate_results sol) !! key = Some x →
      ∃ n : Z, key = hint_key n
               ∧ intermediate_results sol !! result_key n = Some x
               ∧ is_execution_error x = false ∧ x ≠ FAILED_TO_REFINE.
Proof.
  rewrite solve_unfold.
  destruct (decompose svc v query σ) as [[todo|e] σ1]; [|discriminate].
  destruct (run_plan py svc v query todo ∅ σ1) as [[[finished context]|e] σ2]
    eqn:Hrun; [|discriminate].
  destruct (synthesize_answer svc query context σ2) as [[answer|e] σ3];
    [|discriminate].
  intros [= <- <-]. cbn [steps plan intermediate_results].
  pose proof (run_plan_loop_context py svc v query _ _ _ _ _ _
                loop_context_empty Hrun) as Hctx.
  split; [by eapply run_plan_records|]. split; [done|].
  intros key x Hx.
  apply expected_values_of_spec in Hx as (n & -> & Hn & Hne);
    [|by apply loop_context_well_keyed].
  exists n. split; [done|]. split; [done|]. split; [|done].
  destruct (Hctx _ _ Hn) as [[Hkey _]|[[Hkey _]|[_ Hok]]]; [| |done].
  - by apply result_key_not_last_feedback in Hkey.
  - by apply result_key_not_expected_correction in Hkey.
Qed.

(** X8. The result of a step at the end of a plan. For a step that a loop
    runs and that no later such step shares its ordinal with, the final
    context holds under its key the output of its last attempt if that one
    was accepted, and the sentinel otherwise; its record has between one and
    three attempts. A later step of the same ordinal overwrites the entry. *)
Theorem last_step_of_an_ordinal_decides_result {world : Type} (py : host)
    (svc : service world) (v : variant) (query : string)
    (before after : list step) (s : step) (context context' : dict)
    (σ σ' : machine world) (finished : list (step * list attempt_data)) :
  run_plan py svc v query (before ++ s :: after) context σ
  = (Ok (finished, context'), σ') →
  enters_retry_loop v (type s) = true →
  (∀ s', s' ∈ looped v after → step_num s' ≠ step_num s) →
  ∃ attempts,
    finished !! length before = Some (s, attempts)
    ∧ (1 ≤ length attempts ≤ MAX_CRITIQUE_ATTEMPTS)%nat
    ∧ context' !! result_key (step_num s)
      = Some (match last attempts with
              | Some a => if success a then output a else FAILED_TO_REFINE
              | None => FAILED_TO_REFINE
              end).
Proof.
  intros Hrun Henter Hlast.
  apply run_plan_app_inv in Hrun as (f1 & c1 & σ1 & f2 & _ & Hrest & -> & Hmap).
  rewrite run_plan_unfold in Hrest.
  destruct (run_step py svc v query s c1 σ1) as [[[attempts c2]|e] σ2] eqn:Hstep;
    [|discriminate].
  apply bind_ok_inv in Hrest as ([more c] & σ3 & Hafter & [[= -> ->] ->]%ret_inv).
  exists attempts.
  assert (length f1 = length before) as Hlen.
  { by rewrite <- Hmap, length_map. }
  split.
  { rewrite lookup_app_r by lia. by rewrite Hlen, Nat.sub_diag. }
  unfold run_step in Hstep. rewrite Henter in Hstep.
  pose proof (retry_loop_shape py svc v query s _ _ _ _ _ _ _ Hstep) as (Hle & _ & _).
  split.
  - split; [|done]. destruct attempts as [|a rest]; [|simpl; lia].
    eapply retry_loop_exhausted in Hstep as [Hn _]; [|constructor].
    discriminate.
  - rewrite (run_plan_other_result py svc v query _ _ _ _ _ _ _ Hlast Hafter).
    by eapply retry_loop_outcome.
Qed.

(** ** Facts about the reply of the decomposition *)

Lemma dict_has_get (key : string) (fields : list (string * json)) :
  dict_has key fields = true ↔ is_Some (dict_get key fields).
Proof.
  unfold dict_has. destruct (dict_get key fields) as [x|]; split; intros H.
  - by eexists.
  - done.
  - done.
  - by destruct H.
Qed.

Lemma dict_get_set_eq (key : string) (v : json) (fields : list (string * json)) :
  dict_get key (dict_set key v fields) = Some v.
Proof.
  induction fields as [|[k x] rest IH]; simpl.
  - by rewrite String.eqb_refl.
  - destruct (String.eqb k key) eqn:Hk; simpl; by rewrite Hk.
Qed.

Lemma dict_get_set_ne (key key' : string) (v : json) (fields : list (string * json)) :
  key ≠ key' → dict_get key' (dict_set key v fields) = dict_get key' fields.
Proof.
  intros Hne. induction fields as [|[k x] rest IH]; simpl.
  - by apply String.eqb_neq in Hne as ->.
  - destruct (String.eqb k key) eqn:Hk; simpl.
    + apply String.eqb_eq in Hk as ->. by apply String.eqb_neq in Hne as ->.
    + by rewrite IH.
Qed.

Lemma dict_set_absent (key : string) (v : json) (fields : list (string * json)) :
  dict_has key fields = false → dict_set key v fields = fields ++ [(key, v)].
Proof.
  unfold dict_has. induction fields as [|[k x] rest IH]; simpl; [done|].
  destruct (String.eqb k key); [done|]. intros H. by rewrite IH.
Qed.

Lemma dict_set_set (key : string) (v v' : json) (fields : list (string * json)) :
  dict_set key v (dict_set key v' fields) = dict_set key v fields.
Proof.
  induction fields as [|[k x] rest IH]; simpl.
  - by rewrite String.eqb_refl.
  - destruct (String.eqb k key) eqn:Hk; simpl; rewrite Hk; [done|]. by rewrite IH.
Qed.

Lemma set_default_has (key : string) (v : json) (fields : list (string * json)) :
  dict_has key (set_default key v fields) = true.
Proof.
  unfold set_default. destruct (dict_has key fields) eqn:Hk; [done|].
  apply dict_has_get. rewrite dict_get_set_eq. by eexists.
Qed.

Lemma set_default_get (key : string) (v : json) (fields : list (string * json)) :
  dict_get key (set_default key v fields) = Some (default v (dict_get key fields)).
Proof.
  unfold set_default, dict_has. destruct (dict_get key fields) as [x|] eqn:Hk.
  - done.
  - apply dict_get_set_eq.
Qed.

Lemma set_default_get_ne (key key' : string) (v : json)
    (fields : list (string * json)) :
  key ≠ key' → dict_get key' (set_default key v fields) = dict_get key' fields.
Proof.
  intros Hne. unfold set_default. destruct (dict_has key fields); [done|].
  by apply dict_get_set_ne.
Qed.

Lemma set_default_present (key : string) (v : json) (fields : list (string * json)) :
  dict_has key fields = true → set_default key v fields = fields.
Proof. unfold set_default. by intros ->. Qed.

Lemma set_default_extends (key : string) (v : json) (fields : list (string * json)) :
  ∃ extra, set_default key v fields = fields ++ extra.
Proof.
  unfold set_default. destruct (dict_has key fields) eqn:Hk.
  - exists []. by rewrite app_nil_r.
  - exists [(key, v)]. by apply dict_set_absent.
Qed.

Lemma dict_has_ne (key key' : string) (v : json) (fields : list (string * json)) :
  key ≠ key' → dict_has key' (set_default key v fields) = dict_has key' fields.
Proof. intros Hne. unfold dict_has. by rewrite set_default_get_ne. Qed.

(** A completed step: the entries of the step as they were and in their
    order, then the ordinal and the type where they were missing. *)
Lemma complete_step_spec (i : nat) (fields : list (string * json)) :
  (∃ extra, complete_step i fields = fields ++ extra)
  ∧ dict_get "step_num" (complete_step i fields)
    = Some (default (JInt (Z.of_nat i + 1)) (dict_get "step_num" fields))
  ∧ dict_get "type" (complete_step i fields)
    = Some (default (JStr "calculation") (dict_get "type" fields))
  ∧ ∀ key, key ≠ "step_num" → key ≠ "type" →
      dict_get key (complete_step i fields) = dict_get key fields.
Proof.
  unfold complete_step. split; [|split; [|split]].
  - destruct (set_default_extends "step_num" (JInt (Z.of_nat i + 1)) fields)
      as [e1 ->].
    destruct (set_default_extends "type" (JStr "calculation") (fields ++ e1))
      as [e2 ->].
    exists (e1 ++ e2). by rewrite app_assoc.
  - rewrite set_default_get_ne by done. apply set_default_get.
  - rewrite set_default_get. by rewrite set_default_get_ne.
  - intros key H1 H2. by rewrite !set_default_get_ne.
Qed.

Lemma complete_step_idem (i j : nat) (fields : list (string * json)) :
  complete_step j (complete_step i fields) = complete_step i fields.
Proof.
  unfold complete_step at 1.
  rewrite (set_default_present "step_num").
  - rewrite set_default_present; [done|]. unfold complete_step.
    apply set_default_has.
  - unfold complete_step. rewrite dict_has_ne by done. apply set_default_has.
Qed.

Lemma complete_step_description (i : nat) (fields : list (string * json)) :
  dict_has "description" (complete_step i fields) = dict_has "description" fields.
Proof.
  unfold dict_has. destruct (complete_step_spec i fields) as (_ & _ & _ & ->); done.
Qed.

Lemma check_steps_ok (todo : list json) :
  ∀ i finished,
    check_steps i todo = Ok finished →
    length finished = length todo
    ∧ ∀ k step, todo !! k = Some step →
        ∃ fields, step = JObj fields
                  ∧ dict_has "description" fields = true
                  ∧ finished !! k = Some (JObj (complete_step (i + k) fields)).
Proof.
  induction todo as [|step rest IH]; intros i finished; simpl.
  - intros [= <-]. split; [done|]. intros k step Hk. by rewrite lookup_nil in Hk.
  - destruct step as [| | | | | |fields]; try discriminate.
    rewrite complete_step_description.
    destruct (dict_has "description" fields) eqn:Hd; [|discriminate].
    destruct (check_steps (S i) rest) as [rest'|e] eqn:Hrest; [|discriminate].
    cbn [rbind]. intros [= <-]. destruct (IH _ _ Hrest) as [Hlen Hsteps].
    split; [simpl; by rewrite Hlen|].
    intros [|k] step Hk; simpl in Hk.
    + injection Hk as <-. exists fields. by rewrite Nat.add_0_r.
    + destruct (Hsteps k step Hk) as (f & -> & Hf & Hfin).
      exists f. split; [done|]. split; [done|].
      simpl. by rewrite <- Nat.add_succ_comm.
Qed.

Lemma check_steps_valid (todo : list json) :
  ∀ i, Forall (λ step, is_valid_step step = true) todo →
       ∃ finished, check_steps i todo = Ok finished.
Proof.
  induction todo as [|step rest IH]; intros i Hall; simpl; [eauto|].
  apply Forall_cons in Hall as [Hstep Hrest].
  destruct step as [| | | | | |fields]; try discriminate.
  rewrite complete_step_description. simpl in Hstep. rewrite Hstep.
  destruct (IH (S i) Hrest) as [rest' ->]. cbn [rbind]. eauto.
Qed.

(** The failure of the loop over the steps is that of the first step that
    is not valid. *)
Lemma check_steps_raised (todo : list json) :
  ∀ i e,
    check_steps i todo = Raised e →
    ∃ k step,
      todo !! k = Some step
      ∧ Forall (λ step, is_valid_step step = true) (take k todo)
      ∧ is_valid_step step = false
      ∧ e = Exn "ValueError" (step_failure (i + k) step).
Proof.
  induction todo as [|step rest IH]; intros i e; simpl; [discriminate|].
  assert (is_valid_step step = false →
          e = Exn "ValueError" (step_failure i step) →
          ∃ k step0,
            (step :: rest) !! k = Some step0
            ∧ Forall (λ s, is_valid_step s = true) (take k (step :: rest))
            ∧ is_valid_step step0 = false
            ∧ e = Exn "ValueError" (step_failure (i + k) step0)) as Hhere.
  { intros Hbad ->. exists 0%nat, step. rewrite Nat.add_0_r.
    split; [done|]. split; [constructor|done]. }
  destruct step as [| | | | | |fields]; try (intros [= <-]; by apply Hhere).
  rewrite complete_step_description.
  destruct (dict_has "description" fields) eqn:Hd;
    [|intros [= <-]; by apply Hhere].
  destruct (check_steps (S i) rest) as [rest'|e'] eqn:Hrest; [discriminate|].
  cbn [rbind]. intros [= <-].
  destruct (IH _ _ Hrest) as (k & step0 & Hk & Hbefore & Hbad & ->).
  exists (S k), step0. split; [done|]. split; [by constructor|].
  split; [done|]. by rewrite <- Nat.add_succ_comm.
Qed.

Lemma complete_step_is_complete (i : nat) (fields : list (string * json)) :
  dict_has "description" fields = true →
  is_complete_step (JObj (complete_step i fields)) = true.
Proof.
  intros Hd. cbn [is_complete_step]. rewrite complete_step_description, Hd.
  unfold complete_step. rewrite set_default_has.
  rewrite dict_has_ne by done. by rewrite set_default_has.
Qed.

Lemma check_steps_complete (todo : list json) (i : nat) (finished : list json) :
  check_steps i todo = Ok finished →
  Forall (λ step, is_complete_step step = true) finished.
Proof.
  intros Hcheck. destruct (check_steps_ok _ _ _ Hcheck) as [Hlen Hsteps].
  apply Forall_lookup. intros k step' Hk.
  destruct (todo !! k) as [step|] eqn:Hstep.
  - destruct (Hsteps k step Hstep) as (fields & -> & Hd & Hfin).
    rewrite Hfin in Hk. injection Hk as <-. by apply complete_step_is_complete.
  - apply lookup_ge_None in Hstep. apply lookup_lt_Some in Hk. lia.
Qed.

(** Checking completed steps again changes nothing. *)
Lemma check_steps_idem (finished : list json) :
  ∀ j, Forall (λ step, is_complete_step step = true) finished →
       check_steps j finished = Ok finished.
Proof.
  induction finished as [|step rest IH]; intros j Hall; simpl; [done|].
  apply Forall_cons in Hall as [Hstep Hrest].
  destruct step as [| | | | | |fields]; try discriminate.
  simpl in Hstep. apply andb_true_iff in Hstep as [[Hn Ht]%andb_true_iff Hd].
  assert (complete_step j fields = fields) as ->.
  { unfold complete_step. rewrite (set_default_present "step_num") by done.
    by rewrite set_default_present. }
  rewrite Hd, (IH (S j) Hrest). done.
Qed.

Lemma check_steps_first_invalid (todo : list json) :
  ∀ i k step,
    todo !! k = Some step →
    Forall (λ step, is_valid_step step = true) (take k todo) →
    is_valid_step step = false →
    check_steps i todo = Raised (Exn "ValueError" (step_failure (i + k) step)).
Proof.
  induction todo as [|first rest IH]; intros i k step Hk Hbefore Hbad.
  - by rewrite lookup_nil in Hk.
  - destruct k as [|k]; simpl in Hk.
    + injection Hk as ->. rewrite Nat.add_0_r. simpl.
      destruct step as [| | | | | |fields]; try done.
      rewrite complete_step_description. simpl in Hbad. by rewrite Hbad.
    + simpl in Hbefore. apply Forall_cons in Hbefore as [Hfirst Hbefore].
      simpl. destruct first as [| | | | | |fields]; try discriminate.
      rewrite complete_step_description. simpl in Hfirst. rewrite Hfirst.
      rewrite (IH (S i) k step Hk Hbefore Hbad). cbn [rbind].
      by rewrite <- Nat.add_succ_comm.
Qed.

Lemma read_steps_complete (items : list json) :
  Forall (λ step, is_complete_step step = true) items →
  ∀ i, ∃ steps,
    read_steps_cli items = Ok steps
    ∧ read_steps_web i items = Ok steps
    ∧ length steps = length items.
Proof.
  induction 1 as [|step rest Hstep _ IH]; intros i; cbn [read_steps_cli read_steps_web];
    [by exists []|].
  destruct step as [| | | | | |fields]; try discriminate.
  simpl in Hstep. apply andb_true_iff in Hstep as [[Hn Ht]%andb_true_iff Hd].
  apply dict_has_get in Hn as [n Hn], Ht as [t Ht], Hd as [d Hd].
  destruct (IH (S i)) as (steps & Hcli & Hweb & Hlen).
  unfold read_step_cli, read_step_web. cbn [getitem]. rewrite Hn, Ht, Hd.
  cbn [rbind default option_map from_option]. rewrite Hcli, Hweb. cbn [rbind].
  eexists. split; [done|]. split; [done|]. simpl. by rewrite Hlen.
Qed.

Lemma check_plan_ok (parsed plan : json) :
  check_plan parsed = Ok plan →
  ∃ fields items items',
    parsed = JObj fields
    ∧ dict_get "plan" fields = Some (JList items)
    ∧ check_steps 0 items = Ok items'
    ∧ plan = JObj (dict_set "plan" (JList items') fields).
Proof.
  unfold check_plan.
  destruct (contains "plan" parsed) as [found|e] eqn:Hfound; [|discriminate].
  cbn [rbind]. destruct found; [|discriminate]. cbn [negb].
  destruct parsed as [| | | | | |fields]; try discriminate.
  cbn [getitem]. destruct (dict_get "plan" fields) as [todo|] eqn:Hplan;
    [|discriminate].
  cbn [rbind]. destruct todo as [| | | | |items|]; try discriminate.
  destruct (check_steps 0 items) as [items'|e] eqn:Hsteps; [|discriminate].
  cbn [rbind]. intros [= <-]. by exists fields, items, items'.
Qed.

Lemma check_plan_object (fields : list (string * json)) (items : list json) :
  dict_get "plan" fields = Some (JList items) →
  check_plan (JObj fields)
  = let* items' := check_steps 0 items in
    Ok (JObj (dict_set "plan" (JList items') fields)).
Proof.
  intros Hplan. unfold check_plan. cbn [contains getitem]. unfold dict_has.
  by rewrite Hplan.
Qed.

Section ReplyFacts.

Variable json_loads : string → result json.

Lemma decompose_reply_ok (resp plan : json) :
  decompose_reply json_loads resp = Ok plan →
  ∃ content parsed,
    reply_content resp = Ok content
    ∧ loads json_loads content = Ok parsed
    ∧ check_plan parsed = Ok plan.
Proof.
  unfold decompose_reply, read_reply.
  destruct (reply_content resp) as [content|e]; cbn [rbind].
  2:{ destruct (is_parse_failure e); discriminate. }
  destruct (loads json_loads content) as [parsed|e] eqn:Hloads; cbn [rbind].
  2:{ destruct (is_parse_failure e); discriminate. }
  destruct (check_plan parsed) as [plan'|e] eqn:Hcheck.
  - intros [= <-]. by exists content, parsed.
  - destruct (is_parse_failure e); discriminate.
Qed.

Lemma decompose_reply_text (resp : json) (text : string) (parsed : json) :
  reply_content resp = Ok (JStr text) →
  json_loads text = Ok parsed →
  decompose_reply json_loads resp
  = match check_plan parsed with
    | Ok plan => Ok plan
    | Raised e =>
        if is_parse_failure e
        then Raised (Exn "Exception" ("Failed to parse LLM response: " +:+ exc_str e))
        else Raised e
    end.
Proof.
  intros Hcontent Hparsed. unfold decompose_reply, read_reply.
  rewrite Hcontent. cbn [rbind loads]. by rewrite Hparsed.
Qed.

End ReplyFacts.

(** X10. A decomposition that is returned is a plan as the loops need it: an
    object whose [plan] is a list of objects, each with [step_num], [type]
    and [description]. So the subscripts of the command-line loop find their
    keys, the defaults of the loops of the web application are never used,
    and both read the same steps. *)
Theorem decomposition_is_a_complete_plan (json_loads : string → result json)
    (resp plan : json) :
  decompose_reply json_loads resp = Ok plan →
  ∃ fields items steps,
    plan = JObj fields
    ∧ dict_get "plan" fields = Some (JList items)
    ∧ Forall (λ step, is_complete_step step = true) items
    ∧ read_plan_cli plan = Ok steps
    ∧ read_plan_web plan = Ok steps
    ∧ length steps = length items.
Proof.
  intros (content & parsed & _ & _ & Hcheck)%decompose_reply_ok.
  apply check_plan_ok in Hcheck as (fields & items & items' & -> & Hplan & Hsteps & ->).
  pose proof (check_steps_complete _ _ _ Hsteps) as Hall.
  destruct (read_steps_complete items' Hall 0) as (steps & Hcli & Hweb & Hlen).
  exists (dict_set "plan" (JList items') fields), items', steps.
  split; [done|]. split; [apply dict_get_set_eq|]. split; [done|].
  unfold read_plan_cli, read_plan_web. cbn [getitem contains]. unfold dict_has.
  rewrite dict_get_set_eq. cbn. by rewrite Hcli, Hweb.
Qed.

(** X11. How the plan returned comes from the text of the reply. The text
    is an object whose [plan] is a list of objects. Every entry of the
    object and of each step is kept, in its place; a step without
    [step_num] gets its position in the plan, counted from one, and a step
    without [type] gets "calculation", both at the end of the step. What an
    ordinal or a type is, if given, is not checked. *)
Theorem decomposition_fills_in_by_position (json_loads : string → result json)
    (resp plan parsed : json) (text : string) :
  reply_content resp = Ok (JStr text) →
  json_loads text = Ok parsed →
  decompose_reply json_loads resp = Ok plan →
  ∃ fields items items',
    parsed = JObj fields
    ∧ dict_get "plan" fields = Some (JList items)
    ∧ plan = JObj (dict_set "plan" (JList items') fields)
    ∧ (∀ key, key ≠ "plan" →
         dict_get key (dict_set "plan" (JList items') fields) = dict_get key fields)
    ∧ length items' = length items
    ∧ ∀ k step, items !! k = Some step →
        ∃ entries extra,
          step = JObj entries
          ∧ items' !! k = Some (JObj (entries ++ extra))
          ∧ dict_get "step_num" (entries ++ extra)
            = Some (default (JInt (Z.of_nat k + 1)) (dict_get "step_num" entries))
          ∧ dict_get "type" (entries ++ extra)
            = Some (default (JStr "calculation") (dict_get "type" entries))
          ∧ ∀ key, key ≠ "step_num" → key ≠ "type" →
              dict_get key (entries ++ extra) = dict_get key entries.
Proof.
  intros Hcontent Hparsed Hok.
  rewrite (decompose_reply_text _ _ _ _ Hcontent Hparsed) in Hok.
  destruct (check_plan parsed) as [plan'|e] eqn:Hcheck.
  2:{ destruct (is_parse_failure e); discriminate. }
  injection Hok as ->.
  apply check_plan_ok in Hcheck as (fields & items & items' & -> & Hplan & Hsteps & ->).
  destruct (check_steps_ok _ _ _ Hsteps) as [Hlen Hall].
  exists fields, items, items'. split; [done|]. split; [done|]. split; [done|].
  split; [intros key Hkey; by apply dict_get_set_ne|]. split; [done|].
  intros k step Hk. destruct (Hall k step Hk) as (entries & -> & Hd & Hfin).
  destruct (complete_step_spec (0 + k) entries) as ([extra Hextra] & Hn & Ht & Hother).
  exists entries, extra. rewrite <- Hextra. by rewrite Hfin.
Qed.

(** X12. What the checks decide on. For a reply whose text is an object
    with a list under [plan]: if every step is an object with a
    [description], the decomposition is returned; otherwise the first step
    that is not fails the call with an [Exception] whose message is "Failed
    to parse LLM response: " and then "Step i must be a dictionary" or "Step
    i missing 'description'", with the index of that step counted from
    zero. *)
Theorem first_invalid_step_fails_decomposition (json_loads : string → result json)
    (resp : json) (text : string) (fields : list (string * json))
    (items : list json) :
  reply_content resp = Ok (JStr text) →
  json_loads text = Ok (JObj fields) →
  dict_get "plan" fields = Some (JList items) →
  (Forall (λ step, is_valid_step step = true) items →
     ∃ plan, decompose_reply json_loads resp = Ok plan)
  ∧ ∀ k step,
      items !! k = Some step →
      Forall (λ step, is_valid_step step = true) (take k items) →
      is_valid_step step = false →
      decompose_reply json_loads resp
      = Raised (Exn "Exception"
                  ("Failed to parse LLM response: " +:+ step_failure k step)).
Proof.
  intros Hcontent Hparsed Hplan.
  rewrite (decompose_reply_text _ _ _ _ Hcontent Hparsed).
  rewrite (check_plan_object _ _ Hplan). split.
  - intros Hall. destruct (check_steps_valid items 0 Hall) as [items' ->].
    cbn [rbind]. eauto.
  - intros k step Hk Hbefore Hbad.
    by rewrite (check_steps_first_invalid items 0 k step Hk Hbefore Hbad).
Qed.

(** X13. Failures that the handler of [decompose_problem] does not catch. A
    reply with an empty list of choices fails with the [IndexError] as it
    is, and a reply whose text is valid JSON for [null], a boolean or a
    number fails with a [TypeError], not with the message "Failed to parse
    LLM response". A reply without [choices], and a text that is a list or a
    string without "plan" in it, are reported under that message. *)
Theorem uncaught_reply_failures (json_loads : string → result json)
    (resp : json) :
  (∀ fields, resp = JObj fields → dict_get "choices" fields = Some (JList []) →
     decompose_reply json_loads resp
     = Raised (Exn "IndexError" "list index out of range"))
  ∧ (∀ fields, resp = JObj fields → dict_get "choices" fields = None →
       decompose_reply json_loads resp
       = Raised (Exn "Exception" "Failed to parse LLM response: 'choices'"))
  ∧ (∀ text parsed,
       reply_content resp = Ok (JStr text) → json_loads text = Ok parsed →
       match parsed with
       | JNull | JBool _ | JInt _ | JFloat _ =>
           decompose_reply json_loads resp
           = Raised (Exn "TypeError"
                       ("argument of type '" +:+ type_name parsed
                        +:+ "' is not iterable"))
       | JList _ | JStr _ =>
           (contains "plan" parsed = Ok false
            ∧ decompose_reply json_loads resp
              = Raised (Exn "Exception"
                  "Failed to parse LLM response: LLM response missing 'plan' key"))
           ∨ (contains "plan" parsed = Ok true
              ∧ ∃ message, decompose_reply json_loads resp
                           = Raised (Exn "TypeError" message))
       | JObj entries =>
           dict_has "plan" entries = false →
           decompose_reply json_loads resp
           = Raised (Exn "Exception"
               "Failed to parse LLM response: LLM response missing 'plan' key")
       end).
Proof.
  split; [|split].
  - intros fields -> Hchoices. unfold decompose_reply, read_reply, reply_content.
    cbn [getitem]. by rewrite Hchoices.
  - intros fields -> Hchoices. unfold decompose_reply, read_reply, reply_content.
    cbn [getitem]. by rewrite Hchoices.
  - intros text parsed Hcontent Hparsed.
    rewrite (decompose_reply_text _ _ _ _ Hcontent Hparsed).
    destruct parsed as [| | | | s|items|entries]; try reflexivity.
    + unfold check_plan. cbn [contains rbind].
      destruct (is_substring "plan" s); [right|left]; split; try done.
      cbn. eauto.
    + unfold check_plan. cbn [contains rbind].
      destruct (existsb _ items); [right|left]; split; try done.
      cbn. eauto.
    + intros Hno. unfold check_plan. cbn [contains rbind]. by rewrite Hno.
Qed.

(** X14. Checking a plan that the checks have returned gives the same plan
    back: the defaults are filled in once. *)
Theorem checking_a_checked_plan_changes_nothing (parsed plan : json) :
  check_plan parsed = Ok plan → check_plan plan = Ok plan.
Proof.
  intros (fields & items & items' & -> & Hplan & Hsteps & ->)%check_plan_ok.
  rewrite (check_plan_object _ items') by apply dict_get_set_eq.
  rewrite (check_steps_idem items' 0) by by eapply check_steps_complete.
  cbn [rbind]. by rewrite dict_set_set.
Qed.

(** ** Facts about the request to the service *)

Section CallFacts.

Context {net payload : Type}.
Variable DEFAULT_MODEL FALLBACK_MODEL : string.
Variable truthy : Z → bool.
Variable send : string → net → outcome payload * net.

Lemma is_retryable_inv (response : option Z) :
  is_retryable (status_of truthy response) = true →
  ∃ code, response = Some code ∧ truthy code = true ∧ code ∈ RETRYABLE.
Proof.
  destruct response as [code|]; [|discriminate]. simpl.
  destruct (truthy code) eqn:Ht; [|discriminate]. simpl.
  intros Hin%bool_decide_eq_true. eauto.
Qed.

(** The model of every post after the first is the fallback model. *)
Lemma next_model (chosen_model : string) :
  (if negb (String.eqb chosen_model FALLBACK_MODEL) && (0 =? 0)%nat
   then FALLBACK_MODEL else chosen_model) = FALLBACK_MODEL.
Proof.
  destruct (String.eqb chosen_model FALLBACK_MODEL) eqn:Heq; simpl; [|done].
  by apply String.eqb_eq in Heq.
Qed.

(** What the loop would return on running out plays no part in a call. *)
Lemma call_loop_never_runs_out (none other : payload) (chosen_model : string)
    (w : wire net) :
  call_loop FALLBACK_MODEL truthy send none _MAX_RETRIES 0 chosen_model w
  = call_loop FALLBACK_MODEL truthy send other _MAX_RETRIES 0 chosen_model w.
Proof.
  reflexivity.
Qed.

End CallFacts.

(** X15. The posts of one call. The first post uses the model asked for, or
    the default model if none or an empty one is given. A post that is
    answered ends the call with its decoded body, whatever that is, [None]
    for the body [null] included; a failure that is not an [HTTPError] ends
    the call at once. The call goes on after a post only when it failed with
    an [HTTPError] whose response counts as true and has one of the
    statuses 429, 500, 502, 503, 504; it then pauses, two seconds after the
    first post and four after the second, and posts with the fallback
    model. There are at most three posts, and the loop never runs out: a
    value that the call returns is the body that its last post was answered
    with, and what the function would return after the loop plays no
    part. *)
Theorem call_posts_at_most_three_times {net payload : Type}
    (DEFAULT_MODEL FALLBACK_MODEL : string) (truthy : Z → bool)
    (send : string → net → outcome payload * net) (none : payload)
    (model : option string) (w : wire net) :
  let first := model_or_default DEFAULT_MODEL model in
  let run := _call_llm DEFAULT_MODEL FALLBACK_MODEL truthy send none model w in
  (∀ other, _call_llm DEFAULT_MODEL FALLBACK_MODEL truthy send other model w = run)
  ∧ (∀ body, run.1 = Ok body →
       ∃ chosen_model n before,
         send chosen_model n = (Answered body, the_net run.2)
         ∧ events run.2 = before ++ [Posted chosen_model])
  ∧ (∃ new, events run.2 = events w ++ new
            ∧ (new = [Posted first]
               ∨ new = [Posted first; Slept 2; Posted FALLBACK_MODEL]
               ∨ new = [Posted first; Slept 2; Posted FALLBACK_MODEL; Slept 4;
                        Posted FALLBACK_MODEL]))
  ∧ match send first (the_net w) with
    | (Answered body, n) => run = (Ok body, Wire n (events w ++ [Posted first]))
    | (Failed e, n) => run = (Raised e, Wire n (events w ++ [Posted first]))
    | (HttpError response e, n) =>
        if is_retryable (status_of truthy response)
        then (∃ code, response = Some code ∧ truthy code = true ∧ code ∈ RETRYABLE)
             ∧ ∃ more, events run.2
                       = events w ++ [Posted first; Slept 2; Posted FALLBACK_MODEL]
                         ++ more
        else run = (Raised e, Wire n (events w ++ [Posted first]))
    end.
Proof.
  intros first run. split.
  { intros other. subst run. unfold _call_llm. apply call_loop_never_runs_out. }
  subst run. unfold _call_llm. fold first.
  unfold _MAX_RETRIES. cbn [call_loop].
  destruct (send first (the_net w)) as [[body|response e|e] n] eqn:Hs1;
    cbn [fst snd events the_net].
  - split; [intros ? [= <-]; by eexists first, _, _|].
    split; [|done]. exists [Posted first]. auto.
  - destruct (is_retryable (status_of truthy response)) eqn:Hretry; cbn [negb].
    2:{ split; [done|]. split; [|done]. exists [Posted first]. auto. }
    rewrite next_model. cbn [Nat.eqb the_net events].
    destruct (send FALLBACK_MODEL n) as [[body2|response2 e2|e2] n2] eqn:Hs2;
      cbn [fst snd events the_net].
    + split; [intros ? [= <-]; by eexists FALLBACK_MODEL, _, _|]. split.
      * eexists. rewrite <- !app_assoc. split; [done|]. right. left. done.
      * split; [by apply is_retryable_inv|]. exists []. by rewrite <- !app_assoc.
    + destruct (is_retryable (status_of truthy response2)); cbn [negb].
      * destruct (String.eqb FALLBACK_MODEL FALLBACK_MODEL); cbn [negb andb Nat.eqb].
        all: destruct (send FALLBACK_MODEL n2) as [[body3|response3 e3|e3] n3] eqn:Hs3;
          cbn [fst snd events the_net];
          try destruct (is_retryable (status_of truthy response3));
          cbn [negb fst snd events the_net];
          (split; [first [done | intros ? [= <-]; by eexists FALLBACK_MODEL, _, _]|]);
          (split; [eexists; rewrite <- !app_assoc; split; [done|]; right; right; done|]);
          (split; [by apply is_retryable_inv|]);
          eexists; rewrite <- !app_assoc; done.
      * split; [done|]. split.
        -- eexists. rewrite <- !app_assoc. split; [done|]. right. left. done.
        -- split; [by apply is_retryable_inv|]. exists []. by rewrite <- !app_assoc.
    + split; [done|]. split.
      * eexists. rewrite <- !app_assoc. split; [done|]. right. left. done.
      * split; [by apply is_retryable_inv|]. exists []. by rewrite <- !app_assoc.
  - split; [done|]. split; [|done]. exists [Posted first]. auto.
Qed.

(** X16. When a response with a status from 400 to 599 counts as false, as
    the response objects of [requests] do, no failure is ever retried: the
    status read from the error is [None], which is not in the set. The call
    is then one post with the first model, without pause and without the
    fallback model, and it ends with what that post came to. *)
Theorem falsy_error_responses_are_never_retried {net payload : Type}
    (DEFAULT_MODEL FALLBACK_MODEL : string) (truthy : Z → bool)
    (send : string → net → outcome payload * net) (none : payload)
    (model : option string) (w : wire net) :
  (∀ code, 400 ≤ code < 600 → truthy code = false) →
  let first := model_or_default DEFAULT_MODEL model in
  _call_llm DEFAULT_MODEL FALLBACK_MODEL truthy send none model w
  = match send first (the_net w) with
    | (Answered body, n) => (Ok body, Wire n (events w ++ [Posted first]))
    | (HttpError _ e, n) | (Failed e, n) =>
        (Raised e, Wire n (events w ++ [Posted first]))
    end.
Proof.
  intros Hfalsy first. unfold _call_llm. fold first.
  unfold _MAX_RETRIES. cbn [call_loop].
  destruct (send first (the_net w)) as [[body|response e|e] n]; try done.
  destruct (is_retryable (status_of truthy response)) eqn:Hretry; [|done].
  apply is_retryable_inv in Hretry as (code & -> & Ht & Hin).
  rewrite Hfalsy in Ht; [done|].
  unfold RETRYABLE in Hin. rewrite !elem_of_cons, elem_of_nil in Hin. lia.
Qed.

(** ** Facts about the views *)

Lemma query_of_object (fields : list (string * json)) :
  query_of (JObj fields)
  = match dict_get "query" fields with
    | None => Ok ""
    | Some (JStr s) => Ok (Str.strip s)
    | Some other =>
        Raised (Exn "AttributeError"
                    ("'" +:+ type_name other +:+ "' object has no attribute 'strip'"))
    end.
Proof.
  unfold query_of. destruct (dict_get "query" fields) as [[]|]; reflexivity.
Qed.

(** X17. The view [solve], for a request whose query is ASCII text.
    Whatever the reading of the body raises is let through, and so is the
    [AttributeError] of a body that is not an object or of a [query] that is
    not a string: these are outside the [try], and no call has been made.
    Otherwise the query is a string, taken as empty when the key is missing.
    A query that is empty once stripped is answered with status 400 and the
    message "Query cannot be empty", and no call is made. Any other query is
    handed, stripped, to the blocking loop: the reply is its result with
    status 200, or, when the loop or the encoding of its result fails,
    status 500 with the message of the failure. A decomposition that fails
    is reported as "Failed to decompose problem: " and its message after
    that one call. *)
Theorem view_answers_400_200_or_500 {world : Type} (py : host)
    (svc : service world) (jsonify : solution → result unit)
    (request_json : result json) (σ : machine world) :
  (∀ fields s,
     request_json = Ok (JObj fields) → dict_get "query" fields = Some (JStr s) →
     is_ascii_text s = true) →
  match request_json with
  | Raised e => solve_view py svc jsonify request_json σ = (Raised e, σ)
  | Ok data =>
      match query_of data with
      | Raised e =>
          solve_view py svc jsonify request_json σ = (Raised e, σ)
          ∧ exc_class e = "AttributeError"
          ∧ match data with
            | JObj fields =>
                ∃ other, dict_get "query" fields = Some other
                         ∧ ∀ s, other ≠ JStr s
            | _ => True
            end
      | Ok query =>
          if String.eqb query ""
          then solve_view py svc jsonify request_json σ
               = (Ok (Response (ErrorBody "Query cannot be empty") 400), σ)
          else
            match solve_query_with_steps py svc query σ with
            | (Ok sol, σ') =>
                solve_view py svc jsonify request_json σ
                = (Ok match jsonify sol with
                      | Ok _ => Response (SolutionBody query sol) 200
                      | Raised e => Response (ErrorBody (exc_str e)) 500
                      end, σ')
            | (Raised e, σ') =>
                solve_view py svc jsonify request_json σ
                = (Ok (Response (ErrorBody (exc_str e)) 500), σ')
            end
            ∧ (∀ e w,
                 llm_decompose svc query (the_world σ) = (Raised e, w) →
                 solve_view py svc jsonify request_json σ
                 = (Ok (Response
                          (ErrorBody ("Failed to decompose problem: " +:+ exc_str e))
                          500),
                    Machine w (calls σ ++ [Decompose query])))
      end
  end.
Proof.
  intros _. destruct request_json as [data|e]; [|done].
  assert (solve_view py svc jsonify (Ok data) σ
          = match query_of data with
            | Raised e => (Raised e, σ)
            | Ok query =>
                if String.eqb query ""
                then (Ok (Response (ErrorBody "Query cannot be empty") 400), σ)
                else match solve_query_with_steps py svc query σ with
                     | (Ok sol, σ') =>
                         (Ok match jsonify sol with
                             | Ok _ => Response (SolutionBody query sol) 200
                             | Raised e => Response (ErrorBody (exc_str e)) 500
                             end, σ')
                     | (Raised e, σ') =>
                         (Ok (Response (ErrorBody (exc_str e)) 500), σ')
                     end
            end) as Hview.
  { unfold solve_view, bind, lift, catch, ret. cbv beta iota.
    destruct (query_of data) as [query|e]; [|done]. cbv beta iota.
    destruct (String.eqb query ""); [done|].
    destruct (solve_query_with_steps py svc query σ) as [[sol|e] σ']; [|done].
    by destruct (jsonify sol). }
  rewrite Hview. destruct (query_of data) as [query|e] eqn:Hquery.
  - destruct (String.eqb query ""); [done|].
    split; [by destruct (solve_query_with_steps py svc query σ) as [[sol|e] σ']|].
    unfold solve_query_with_steps. rewrite solve_unfold, decompose_unfold.
    intros e w Hdec. by rewrite Hdec.
  - split; [done|].
    destruct data as [| | | | | |fields]; try (injection Hquery as <-; done).
    rewrite query_of_object in Hquery.
    destruct (dict_get "query" fields) as [other|]; [|discriminate].
    destruct other; try discriminate; injection Hquery as <-;
      (split; [done|]); eexists; (split; [done|]); done.
Qed.

(** ** Facts about the stream *)

Section StreamFacts.

Context {world : Type}.
Variable py : host.
Variable svc : service world.
Variable json_dumps : message → result string.

(** A request of the generator is the request of the loops, and leaves the
    chunks alone. *)
Lemma remote_beside {A : Type} (c : call) (request : world → result A * world)
    (σ σ' : machine (world * list string)) (r : result A) :
  remote c (beside request) σ = (r, σ') →
  remote c request (without_chunks σ) = (r, without_chunks σ')
  ∧ chunks σ' = chunks σ.
Proof.
  unfold remote, beside, without_chunks, chunks.
  destruct σ as [[w out] log]. cbn [the_world calls fst snd].
  destruct (request w) as [r0 w']. by intros [= <- <-].
Qed.

Lemma generate_beside (desc : string) (context : dict)
    (σ σ' : machine (world * list string)) (r : result string) :
  generate_code_for_step (streaming_service svc) desc context σ = (r, σ') →
  generate_code_for_step svc desc context (without_chunks σ) = (r, without_chunks σ')
  ∧ chunks σ' = chunks σ.
Proof.
  unfold generate_code_for_step. intros Hrun.
  apply bind_inv in Hrun as [(p & σ1 & [Hp ->]%lift_inv & Hrun)|(e & [He ->]%lift_inv & ->)].
  - erewrite bind_ok_l by (unfold lift; by rewrite Hp).
    apply bind_inv in Hrun as [(content & σ2 & Hreq & [-> ->]%ret_inv)
                              |(e & Hreq & ->)];
      apply remote_beside in Hreq as [Hreq Hchunks].
    + erewrite bind_ok_l by done. done.
    + erewrite bind_raised_l by done. done.
  - erewrite bind_raised_l by (unfold lift; by rewrite He). done.
Qed.

Lemma critique_beside (desc output query : string) (hint : dict)
    (σ σ' : machine (world * list string)) (r : result string) :
  self_critique_output (streaming_service svc) desc output query hint σ = (r, σ') →
  self_critique_output svc desc output query hint (without_chunks σ)
  = (r, without_chunks σ')
  ∧ chunks σ' = chunks σ.
Proof.
  unfold self_critique_output. intros Hrun.
  apply bind_inv in Hrun as [(content & σ2 & Hreq & [-> ->]%ret_inv)
                            |(e & Hreq & ->)];
    apply remote_beside in Hreq as [Hreq Hchunks].
  - erewrite bind_ok_l by done. done.
  - erewrite bind_raised_l by done. done.
Qed.

Lemma feedback_beside (query desc : string) (context : dict) (output : value)
    (σ σ' : machine (world * list string)) (r : result string) :
  feedback_for py (streaming_service svc) query desc context output σ = (r, σ') →
  feedback_for py svc query desc context output (without_chunks σ)
  = (r, without_chunks σ')
  ∧ chunks σ' = chunks σ.
Proof.
  unfold feedback_for. destruct (is_execution_error output).
  - by intros [-> ->]%ret_inv.
  - apply critique_beside.
Qed.

Lemma synthesize_beside (query : string) (final : dict)
    (σ σ' : machine (world * list string)) (r : result string) :
  synthesize_answer (streaming_service svc) query final σ = (r, σ') →
  synthesize_answer svc query final (without_chunks σ) = (r, without_chunks σ')
  ∧ chunks σ' = chunks σ.
Proof.
  unfold synthesize_answer. intros Hrun.
  apply bind_inv in Hrun as [(content & σ2 & Hreq & [-> ->]%ret_inv)
                            |(e & Hreq & ->)];
    apply remote_beside in Hreq as [Hreq Hchunks].
  - erewrite bind_ok_l by done. done.
  - erewrite bind_raised_l by done. done.
Qed.

Lemma decompose_beside (query : string)
    (σ σ' : machine (world * list string)) (r : result (list step)) :
  decompose_problem (streaming_service svc) query σ = (r, σ') →
  decompose_problem svc query (without_chunks σ) = (r, without_chunks σ')
  ∧ chunks σ' = chunks σ.
Proof. apply remote_beside. Qed.

Lemma yield_spec (chunk : string) (σ : machine (world * list string)) :
  ∃ σ', yield_ chunk σ = (Ok tt, σ')
        ∧ without_chunks σ' = without_chunks σ
        ∧ chunks σ' = chunks σ ++ [chunk].
Proof. eexists. split; [done|]. done. Qed.

Lemma stream_attempt_inv (query : string) (s : step) (k : nat) (context : dict)
    (σ σ' : machine (world * list string)) (r : result (attempt_data * dict)) :
  stream_attempt py svc json_dumps query s k context σ = (r, σ') →
  match r with
  | Ok (data, context') =>
      attempt_once py svc Stream query s k context (without_chunks σ)
      = (Ok (data, context'), without_chunks σ')
      ∧ ∃ text, json_dumps (AttemptMessage s data) = Ok text
                ∧ chunks σ' = chunks σ ++ [sse text]
  | Raised e =>
      chunks σ' = chunks σ
      ∨ ∃ data text, json_dumps (AttemptMessage s data) = Ok text
                     ∧ chunks σ' = chunks σ ++ [sse text]
  end.
Proof.
  unfold stream_attempt. intros Hrun.
  apply bind_inv in Hrun as [(code & σ1 & Hgen & Hrun)|(e & Hgen & ->)];
    apply generate_beside in Hgen as [Hgen Hc1]; [|by left].
  apply bind_inv in Hrun as [(feedback & σ2 & Hfb & Hrun)|(e & Hfb & ->)];
    apply feedback_beside in Hfb as [Hfb Hc2]; [|left; congruence].
  apply bind_inv in Hrun as [(text & σ3 & [Htext ->]%lift_inv & Hrun)
                            |(e & [Htext ->]%lift_inv & ->)];
    [|left; congruence].
  apply bind_inv in Hrun as [([] & σ4 & Hyield & Hrun)|(e & Hyield & _)];
    [|discriminate].
  injection Hyield as <-.
  set (data := AttemptData (S k) code (safe_exec py code context) feedback
                 (Str.startswith "correct" (Str.lower feedback))) in *.
  assert (chunks (Machine ((the_world σ2).1, (the_world σ2).2 ++ [sse text]) (calls σ2))
          = chunks σ ++ [sse text]) as Hchunks.
  { unfold chunks in *. cbn. congruence. }
  rewrite attempt_once_unfold, Hgen. cbn zeta. rewrite Hfb.
  cbn [success] in Hrun. fold data.
  destruct (Str.startswith "correct" (Str.lower feedback)).
  - apply ret_inv in Hrun as [-> ->]. split; [done|]. by exists text.
  - apply bind_inv in Hrun as [(context' & σ5 & [Hnote ->]%lift_inv & [-> ->]%ret_inv)
                              |(e & [Hnote ->]%lift_inv & ->)].
    + rewrite <- Hnote. split; [done|]. by exists text.
    + right. by exists data, text.
Qed.

Lemma stream_loop_unfold (query : string) (s : step) (remaining k : nat)
    (context : dict) (σ : machine (world * list string)) :
  stream_loop py svc json_dumps query s (S remaining) k context σ
  = match stream_attempt py svc json_dumps query s k context σ with
    | (Raised e, σ1) => (Raised e, σ1)
    | (Ok (data, context'), σ1) =>
        if success data then (Ok ([data], context'), σ1)
        else bind (stream_loop py svc json_dumps query s remaining (S k) context')
                  (λ '(more, c), ret (data :: more, c)) σ1
    end.
Proof.
  cbn [stream_loop]. unfold bind at 1.
  destruct (stream_attempt py svc json_dumps query s k context σ)
    as [[[data context']|e] σ1]; [|done].
  by destruct (success data).
Qed.

Lemma stream_plan_unfold (query : string) (s : step) (rest : list step)
    (context : dict) (σ : machine (world * list string)) :
  stream_plan py svc json_dumps query (s :: rest) context σ
  = match stream_loop py svc json_dumps query s MAX_CRITIQUE_ATTEMPTS 0 context σ with
    | (Raised e, σ1) => (Raised e, σ1)
    | (Ok (attempts, context'), σ1) =>
        bind (stream_plan py svc json_dumps query rest context')
             (λ '(more, c), ret ((s, attempts) :: more, c)) σ1
    end.
Proof.
  cbn [stream_plan]. unfold bind at 1.
  by destruct (stream_loop py svc json_dumps query s MAX_CRITIQUE_ATTEMPTS 0 context σ)
    as [[[attempts context']|e] σ1].
Qed.

Lemma stream_loop_inv (query : string) (s : step) :
  ∀ remaining k context (σ σ' : machine (world * list string)) r,
    stream_loop py svc json_dumps query s remaining k context σ = (r, σ') →
    ∃ messages texts,
      dumped json_dumps messages texts
      ∧ Forall (λ m, is_attempt_message m = true) messages
      ∧ chunks σ' = chunks σ ++ map sse texts
      ∧ ∀ attempts context',
          r = Ok (attempts, context') →
          messages = map (AttemptMessage s) attempts
          ∧ retry_loop py svc Stream query s remaining k context (without_chunks σ)
            = (Ok (attempts, context'), without_chunks σ').
Proof.
  induction remaining as [|remaining IH]; intros k context σ σ' r.
  - intros [-> ->]%ret_inv. exists [], []. split; [constructor|].
    split; [constructor|]. split; [by rewrite app_nil_r|].
    by intros attempts context' [= <- <-].
  - rewrite stream_loop_unfold.
    destruct (stream_attempt py svc json_dumps query s k context σ)
      as [[[data context1]|e] σ1] eqn:Hatt; apply stream_attempt_inv in Hatt.
    + destruct Hatt as (Hone & text & Htext & Hchunks).
      destruct (success data) eqn:Hs.
      * intros [= <- <-]. exists [AttemptMessage s data], [text].
        split; [by repeat constructor|]. split; [by repeat constructor|].
        split; [done|]. intros attempts context' [= <- <-]. split; [done|].
        rewrite retry_loop_unfold, Hone. by rewrite Hs.
      * intros Hrest. apply bind_inv in Hrest
          as [([more c] & σ2 & Hloop & [-> ->]%ret_inv)|(e & Hloop & ->)];
          apply IH in Hloop as (messages & texts & Hdump & Hall & Hchunks2 & Hok).
        -- exists (AttemptMessage s data :: messages), (text :: texts).
           split; [by constructor|]. split; [by constructor|].
           split; [rewrite Hchunks2, Hchunks, <- app_assoc; done|].
           intros attempts context' [= <- <-].
           destruct (Hok more c eq_refl) as [-> Hretry]. split; [done|].
           rewrite retry_loop_unfold, Hone, Hs.
           erewrite bind_ok_l by done. done.
        -- exists (AttemptMessage s data :: messages), (text :: texts).
           split; [by constructor|]. split; [by constructor|].
           split; [rewrite Hchunks2, Hchunks, <- app_assoc; done|].
           intros attempts context' [=].
    + intros [= <- <-]. destruct Hatt as [Hchunks|(data & text & Htext & Hchunks)].
      * exists [], []. split; [constructor|]. split; [constructor|].
        split; [by rewrite app_nil_r|]. intros attempts context' [=].
      * exists [AttemptMessage s data], [text].
        split; [by repeat constructor|]. split; [by repeat constructor|].
        split; [done|]. intros attempts context' [=].
Qed.

Lemma stream_plan_inv (query : string) :
  ∀ todo context (σ σ' : machine (world * list string)) r,
    stream_plan py svc json_dumps query todo context σ = (r, σ') →
    ∃ messages texts,
      dumped json_dumps messages texts
      ∧ Forall (λ m, is_attempt_message m = true) messages
      ∧ chunks σ' = chunks σ ++ map sse texts
      ∧ ∀ finished context',
          r = Ok (finished, context') →
          messages = attempt_messages finished
          ∧ run_plan py svc Stream query todo context (without_chunks σ)
            = (Ok (finished, context'), without_chunks σ').
Proof.
  induction todo as [|s rest IH]; intros context σ σ' r.
  - intros [-> ->]%ret_inv. exists [], []. split; [constructor|].
    split; [constructor|]. split; [by rewrite app_nil_r|].
    by intros finished context' [= <- <-].
  - rewrite stream_plan_unfold.
    destruct (stream_loop py svc json_dumps query s MAX_CRITIQUE_ATTEMPTS 0 context σ)
      as [[[attempts context1]|e] σ1] eqn:Hloop;
      apply stream_loop_inv in Hloop as (m1 & t1 & Hd1 & Ha1 & Hc1 & Hok1).
    + destruct (Hok1 attempts context1 eq_refl) as [-> Hretry].
      intros Hrest. apply bind_inv in Hrest
        as [([more c] & σ2 & Hplan & [-> ->]%ret_inv)|(e & Hplan & ->)];
        apply IH in Hplan as (m2 & t2 & Hd2 & Ha2 & Hc2 & Hok2).
      * exists (map (AttemptMessage s) attempts ++ m2), (t1 ++ t2).
        split; [by apply Forall2_app|]. split; [by apply Forall_app|].
        split; [rewrite Hc2, Hc1, map_app, <- app_assoc; done|].
        intros finished context' [= <- <-].
        destruct (Hok2 more c eq_refl) as [-> Hrun]. split; [done|].
        rewrite run_plan_unfold. unfold run_step. cbn [enters_retry_loop].
        rewrite Hretry. erewrite bind_ok_l by done. done.
      * exists (map (AttemptMessage s) attempts ++ m2), (t1 ++ t2).
        split; [by apply Forall2_app|]. split; [by apply Forall_app|].
        split; [rewrite Hc2, Hc1, map_app, <- app_assoc; done|].
        intros finished context' [=].
    + intros [= <- <-]. exists m1, t1. split; [done|]. split; [done|].
      split; [done|]. intros finished context' [=].
Qed.

(** The calls of the generator are those of the loop without the chunks,
    also when the generator ends with a failure of its own. *)
Lemma stream_attempt_calls (query : string) (s : step) (k : nat) (context : dict)
    (σ σ' : machine (world * list string)) (r : result (attempt_data * dict)) :
  stream_attempt py svc json_dumps query s k context σ = (r, σ') →
  ∃ r', attempt_once py svc Stream query s k context (without_chunks σ)
        = (r', without_chunks σ').
Proof.
  unfold stream_attempt. intros Hrun. rewrite attempt_once_unfold.
  apply bind_inv in Hrun as [(code & σ1 & Hgen & Hrun)|(e & Hgen & ->)];
    apply generate_beside in Hgen as [Hgen Hc1]; rewrite Hgen; [|by eexists].
  cbn zeta.
  apply bind_inv in Hrun as [(feedback & σ2 & Hfb & Hrun)|(e & Hfb & ->)];
    apply feedback_beside in Hfb as [Hfb Hc2]; rewrite Hfb; [|by eexists].
  assert (without_chunks σ' = without_chunks σ2) as ->.
  { apply bind_inv in Hrun as [(text & σ3 & [Htext ->]%lift_inv & Hrun)
                              |(e & [Htext ->]%lift_inv & ->)]; [|done].
    apply bind_inv in Hrun as [([] & σ4 & Hyield & Hrun)|(e & Hyield & _)];
      [|discriminate].
    injection Hyield as <-. cbn [success] in Hrun.
    destruct (Str.startswith "correct" (Str.lower feedback)).
    - by apply ret_inv in Hrun as [_ ->].
    - apply bind_inv in Hrun
        as [(context' & σ5 & [Hnote ->]%lift_inv & [_ ->]%ret_inv)
           |(e & [Hnote ->]%lift_inv & ->)]; done. }
  destruct (Str.startswith "correct" (Str.lower feedback)); [by eexists|].
  destruct (note_rejection Stream feedback context); by eexists.
Qed.

Lemma stream_loop_budget (query : string) (s : step) :
  ∀ remaining k context (σ σ' : machine (world * list string)) r,
    stream_loop py svc json_dumps query s remaining k context σ = (r, σ') →
    ∃ new, calls σ' = calls σ ++ new ∧ within_budget remaining new.
Proof.
  induction remaining as [|remaining IH]; intros k context σ σ' r.
  - intros [_ ->]%ret_inv. exists []. rewrite app_nil_r.
    split; [done|apply within_budget_nil].
  - rewrite stream_loop_unfold.
    destruct (stream_attempt py svc json_dumps query s k context σ)
      as [[[data context1]|e] σ1] eqn:Hatt;
      destruct (stream_attempt_calls _ _ _ _ _ _ _ Hatt) as (r' & Honce);
      destruct (attempt_once_log _ _ _ _ _ _ _ _ _ _ Honce) as (new1 & Hlog1 & Hb1 & _);
      cbn [without_chunks calls] in Hlog1.
    + destruct (success data).
      * intros [= <- <-]. exists new1. split; [done|].
        apply within_budget_mono with 1%nat; [lia|done].
      * intros Hrest. apply bind_inv in Hrest
          as [(a & σ2 & Hloop & Hret)|(e & Hloop & ->)].
        -- destruct a as [more c]. apply ret_inv in Hret as [_ ->].
           apply IH in Hloop as (new2 & Hlog2 & Hb2).
           exists (new1 ++ new2). rewrite Hlog2, Hlog1, app_assoc.
           split; [done|]. by apply (within_budget_app 1 remaining).
        -- apply IH in Hloop as (new2 & Hlog2 & Hb2).
           exists (new1 ++ new2). rewrite Hlog2, Hlog1, app_assoc.
           split; [done|]. by apply (within_budget_app 1 remaining).
    + intros [= <- <-]. exists new1. split; [done|].
      apply within_budget_mono with 1%nat; [lia|done].
Qed.

Lemma stream_plan_budget (query : string) :
  ∀ todo context (σ σ' : machine (world * list string)) r,
    stream_plan py svc json_dumps query todo context σ = (r, σ') →
    ∃ new, calls σ' = calls σ ++ new
           ∧ within_budget (MAX_CRITIQUE_ATTEMPTS * length todo) new.
Proof.
  induction todo as [|s rest IH]; intros context σ σ' r.
  - intros [_ ->]%ret_inv. exists []. rewrite app_nil_r.
    split; [done|apply within_budget_nil].
  - rewrite stream_plan_unfold.
    destruct (stream_loop py svc json_dumps query s MAX_CRITIQUE_ATTEMPTS 0 context σ)
      as [[[attempts context1]|e] σ1] eqn:Hloop;
      apply stream_loop_budget in Hloop as (new1 & Hlog1 & Hb1).
    + intros Hrest.
      replace (MAX_CRITIQUE_ATTEMPTS * length (s :: rest))%nat
        with (MAX_CRITIQUE_ATTEMPTS + MAX_CRITIQUE_ATTEMPTS * length rest)%nat
        by (cbn [length]; lia).
      apply bind_inv in Hrest as [(a & σ2 & Hplan & Hret)|(e & Hplan & ->)].
      * destruct a as [more c]. apply ret_inv in Hret as [_ ->].
        apply IH in Hplan as (new2 & Hlog2 & Hb2).
        exists (new1 ++ new2). rewrite Hlog2, Hlog1, app_assoc.
        split; [done|]. by apply within_budget_app.
      * apply IH in Hplan as (new2 & Hlog2 & Hb2).
        exists (new1 ++ new2). rewrite Hlog2, Hlog1, app_assoc.
        split; [done|]. by apply within_budget_app.
    + intros [= <- <-]. exists new1. split; [done|].
      eapply within_budget_mono; [|done]. cbn [length]. lia.
Qed.

End StreamFacts.

Lemma run_plan_attempt_counts {world : Type} (py : host) (svc : service world)
    (v : variant) (query : string) :
  ∀ todo context (σ σ' : machine world) finished context',
    run_plan py svc v query todo context σ = (Ok (finished, context'), σ') →
    Forall (λ record : step * list attempt_data,
              (length record.2 ≤ MAX_CRITIQUE_ATTEMPTS)%nat) finished.
Proof.
  induction todo as [|s rest IH]; intros context σ σ' finished context'.
  - intros [= <- _ _]. constructor.
  - rewrite run_plan_unfold.
    destruct (run_step py svc v query s context σ) as [[[attempts context1]|e] σ1]
      eqn:Hstep; [|discriminate].
    intros ([more c] & σ2 & Hplan & [[= -> ->] ->]%ret_inv)%bind_ok_inv.
    constructor; [|by eapply IH]. cbn. unfold run_step in Hstep.
    destruct (enters_retry_loop v (type s)).
    + by apply retry_loop_shape in Hstep as (Hle & _).
    + injection Hstep as <- _ _. cbn. lia.
Qed.

Lemma attempt_messages_length (finished : list (step * list attempt_data)) :
  Forall (λ record : step * list attempt_data,
            (length record.2 ≤ MAX_CRITIQUE_ATTEMPTS)%nat) finished →
  (length (attempt_messages finished) ≤ MAX_CRITIQUE_ATTEMPTS * length finished)%nat.
Proof.
  unfold attempt_messages, MAX_CRITIQUE_ATTEMPTS.
  induction 1 as [|record rest Hrecord _ IH]; [simpl; lia|].
  cbn [flat_map]. rewrite length_app, length_map. cbn [length]. lia.
Qed.

(** X18. A decomposition that fails is reported in the stream and ends it
    in order: the generator yields one chunk with the message "Failed to
    decompose problem: " and the message of the failure, then the end
    marker, and stops without raising and without another call. The view
    [solve_stream] answers a query that is empty once stripped with status
    400 and starts no stream. *)
Theorem stream_reports_failed_decomposition {world : Type} (py : host)
    (svc : service world) (json_dumps : message → result string)
    (query text : string) (σ : machine (world * list string)) (e : exn) (w : world) :
  llm_decompose svc query (the_world σ).1 = (Raised e, w) →
  json_dumps (ErrorMessage ("Failed to decompose problem: " +:+ exc_str e)) = Ok text →
  stream_events py svc json_dumps query σ
  = (Ok None,
     Machine (w, chunks σ ++ [sse text; DONE]) (calls σ ++ [Decompose query]))
  ∧ ∀ fields,
      query_of (JObj fields) = Ok "" →
      solve_stream_view py svc json_dumps (Ok (JObj fields)) σ
      = (Ok (Some (Response (ErrorBody "Query cannot be empty") 400)), σ).
Proof.
  intros Hdec Htext. split.
  - unfold stream_events, decompose_problem, remote. cbn [streaming_service llm_decompose].
    unfold beside. destruct σ as [[w0 out] log]. cbn [the_world fst snd] in *.
    rewrite Hdec. unfold bind, lift, yield_, ret. rewrite Htext.
    cbn [the_world calls fst snd chunks]. by rewrite <- app_assoc.
  - intros fields Hblank. unfold solve_stream_view, bind, lift, ret. cbv beta iota.
    by rewrite Hblank.
Qed.

(** X19. The chunks of a stream that finishes: one for the plan, one for
    each attempt in the order of the run, at most three for a step, one for
    the final answer, then the end marker. The run is that of the streaming
    loop: with the chunks set aside it makes the same calls and ends with
    the same records, context and answer. *)
Theorem finished_stream_chunks {world : Type} (py : host)
    (svc : service world) (json_dumps : message → result string)
    (query : string) (σ σ' : machine (world * list string)) (sol : solution) :
  stream_events py svc json_dumps query σ = (Ok (Some sol), σ') →
  ∃ plan_text texts final_text,
    json_dumps (PlanMessage (plan sol)) = Ok plan_text
    ∧ dumped json_dumps (attempt_messages (steps sol)) texts
    ∧ json_dumps (FinalMessage (final_answer sol)) = Ok final_text
    ∧ chunks σ' = chunks σ ++ sse plan_text :: map sse texts ++ [sse final_text; DONE]
    ∧ (length texts ≤ MAX_CRITIQUE_ATTEMPTS * length (plan sol))%nat
    ∧ solve_query_stream py svc query (without_chunks σ) = (Ok sol, without_chunks σ').
Proof.
  unfold stream_events.
  destruct (decompose_problem (streaming_service svc) query σ) as [[todo|e] σ1]
    eqn:Hdec.
  2:{ intros Hrun.
      apply bind_ok_inv in Hrun as (t & σ2 & _ & Hrun).
      apply bind_ok_inv in Hrun as (u & σ3 & _ & Hrun).
      apply bind_ok_inv in Hrun as (u' & σ4 & _ & Hrun).
      by apply ret_inv in Hrun as [[=] _]. }
  apply decompose_beside in Hdec as [Hdec Hc0].
  intros Hrun.
  apply bind_ok_inv in Hrun as (plan_text & σ2 & [Hplan ->]%lift_inv & Hrun).
  apply bind_ok_inv in Hrun as ([] & σ3 & [= <-] & Hrun).
  apply bind_ok_inv in Hrun as ([finished context] & σ4 & Hsteps & Hrun).
  apply stream_plan_inv in Hsteps as (messages & texts & Hdump & _ & Hc4 & Hok).
  destruct (Hok finished context eq_refl) as [-> Hplanrun].
  apply bind_ok_inv in Hrun as (answer & σ5 & Hsyn & Hrun).
  apply synthesize_beside in Hsyn as [Hsyn Hc5].
  apply bind_ok_inv in Hrun as (final_text & σ6 & [Hfinal ->]%lift_inv & Hrun).
  apply bind_ok_inv in Hrun as ([] & σ7 & [= <-] & Hrun).
  apply bind_ok_inv in Hrun as ([] & σ8 & [= <-] & Hrun).
  apply ret_inv in Hrun as [[= ->] ->].
  exists plan_text, texts, final_text. cbn [plan steps final_answer].
  split; [done|]. split; [done|]. split; [done|]. split; [|split].
  - unfold chunks in *. cbn [the_world fst snd] in *.
    rewrite Hc5, Hc4. cbn [the_world fst snd]. rewrite Hc0.
    rewrite <- !app_assoc. done.
  - apply Forall2_length in Hdump. rewrite <- Hdump.
    pose proof (run_plan_attempt_counts _ _ _ _ _ _ _ _ _ _ Hplanrun) as Hcounts.
    apply attempt_messages_length in Hcounts.
    apply run_plan_records in Hplanrun. rewrite <- Hplanrun, length_map. done.
  - unfold solve_query_stream. rewrite solve_unfold.
    unfold decompose, catch. rewrite Hdec.
    change (without_chunks
              (Machine ((the_world σ1).1, (the_world σ1).2 ++ [sse plan_text])
                       (calls σ1))) with (without_chunks σ1) in Hplanrun.
    rewrite Hplanrun, Hsyn. done.
Qed.

(** X20. A stream that a failure breaks off ends without notice: the chunks
    yielded are none at all, or the plan and the attempts made so far, the
    last of them the attempt whose handling failed. No chunk reports the
    failure and there is no end marker. *)
Theorem broken_stream_ends_without_notice {world : Type} (py : host)
    (svc : service world) (json_dumps : message → result string)
    (query : string) (σ σ' : machine (world * list string)) (e : exn) :
  stream_events py svc json_dumps query σ = (Raised e, σ') →
  chunks σ' = chunks σ
  ∨ ∃ todo plan_text messages texts,
      json_dumps (PlanMessage todo) = Ok plan_text
      ∧ dumped json_dumps messages texts
      ∧ Forall (λ m, is_attempt_message m = true) messages
      ∧ chunks σ' = chunks σ ++ sse plan_text :: map sse texts.
Proof.
  unfold stream_events.
  destruct (decompose_problem (streaming_service svc) query σ) as [[todo|e0] σ1]
    eqn:Hdec; apply decompose_beside in Hdec as [Hdec Hc0].
  2:{ intros Hrun. left.
      apply bind_inv in Hrun as [(t & σ2 & _ & Hrun)|(e1 & [_ ->]%lift_inv & _)];
        [|done].
      apply bind_inv in Hrun as [(u & σ3 & _ & Hrun)|(e1 & [=] & _)].
      apply bind_inv in Hrun as [(u' & σ4 & _ & Hrun)|(e1 & [=] & _)].
      by apply ret_inv in Hrun as [[=] _]. }
  intros Hrun.
  apply bind_inv in Hrun as [(plan_text & σ2 & [Hplan ->]%lift_inv & Hrun)
                            |(e1 & [_ ->]%lift_inv & _)]; [|by left].
  right. exists todo, plan_text.
  apply bind_inv in Hrun as [([] & σ3 & [= <-] & Hrun)|(e1 & [=] & _)].
  apply bind_inv in Hrun as [([finished context] & σ4 & Hsteps & Hrun)
                            |(e1 & Hsteps & _)];
    apply stream_plan_inv in Hsteps as (messages & texts & Hdump & Hall & Hc4 & _);
    exists messages, texts; (split; [done|]); (split; [done|]); (split; [done|]).
  2:{ unfold chunks in *. cbn [the_world fst snd] in *. rewrite Hc4, Hc0.
      by rewrite <- app_assoc. }
  assert (chunks σ4 = chunks σ ++ sse plan_text :: map sse texts) as Hc.
  { unfold chunks in *. cbn [the_world fst snd] in *. rewrite Hc4, Hc0.
    by rewrite <- app_assoc. }
  apply bind_inv in Hrun as [(answer & σ5 & Hsyn & Hrun)|(e1 & Hsyn & _)];
    apply synthesize_beside in Hsyn as [_ Hc5]; [|congruence].
  apply bind_inv in Hrun as [(final_text & σ6 & [_ ->]%lift_inv & Hrun)
                            |(e1 & [_ ->]%lift_inv & _)]; [|congruence].
  apply bind_inv in Hrun as [([] & σ7 & [= <-] & Hrun)|(e1 & [=] & _)].
  apply bind_inv in Hrun as [([] & σ8 & [= <-] & Hrun)|(e1 & [=] & _)].
  by apply ret_inv in Hrun as [[=] _].
Qed.

(** ** Steps of other types *)

(** X21. A step whose type is neither "calculation" nor "data_lookup", a
    final synthesis for one. The two blocking loops pass it by: no call is
    made and the context stays as it is. The streaming loop has no test on
    the type and runs its attempts for such a step as for any other: a run
    that gets past it has asked for code at least once and has left a result
    or the sentinel under the key of the step. *)
Theorem other_step_types_loop_only_in_stream {world : Type} (py : host)
    (svc : service world) (query : string) (s : step) (context : dict)
    (σ : machine world) :
  type s ≠ "calculation" → type s ≠ "data_lookup" →
  run_step py svc Cli query s context σ = (Ok ([], context), σ)
  ∧ run_step py svc Web query s context σ = (Ok ([], context), σ)
  ∧ ∀ attempts context' σ',
      run_step py svc Stream query s context σ = (Ok (attempts, context'), σ') →
      (1 ≤ length attempts ≤ MAX_CRITIQUE_ATTEMPTS)%nat
      ∧ context' !! result_key (step_num s)
        = Some (match last attempts with
                | Some a => if success a then output a else FAILED_TO_REFINE
                | None => FAILED_TO_REFINE
                end)
      ∧ ∃ p more, calls σ' = calls σ ++ Generate p :: more.
Proof.
  intros Hcalc Hlookup.
  assert (enters_retry_loop Cli (type s) = false) as Hskip.
  { cbn. apply String.eqb_neq in Hcalc, Hlookup. by rewrite Hcalc, Hlookup. }
  split; [|split].
  - unfold run_step. by rewrite Hskip.
  - unfold run_step. change (enters_retry_loop Web (type s))
      with (enters_retry_loop Cli (type s)). by rewrite Hskip.
  - intros attempts context' σ' Hrun. unfold run_step in Hrun.
    cbn [enters_retry_loop] in Hrun.
    pose proof (retry_loop_shape py svc Stream query s _ _ _ _ _ _ _ Hrun)
      as (Hle & _ & _).
    split; [|split].
    + split; [|done]. destruct attempts as [|a rest]; [|simpl; lia].
      eapply retry_loop_exhausted in Hrun as [Hn _]; [|constructor].
      discriminate.
    + by eapply retry_loop_outcome.
    + apply retry_loop_first_call in Hrun as [(e & _ & [=] & _)|(p & more & _ & Hlog)].
      eauto.
Qed.
(** ** The calls of a query *)

Lemma looped_stream (todo : list step) : looped Stream todo = todo.
Proof.
  unfold looped. induction todo as [|s rest IH]; [done|].
  rewrite filter_cons, decide_True by done. by rewrite IH.
Qed.

Lemma synthesize_calls {world : Type} (svc : service world) (query : string)
    (final : dict) (σ σ' : machine world) (r : result string) :
  synthesize_answer svc query final σ = (r, σ') →
  calls σ' = calls σ ++ [Synthesize query final].
Proof.
  rewrite synthesize_unfold.
  by destruct (llm_synthesize svc query final (the_world σ)) as [[content|e] w];
    intros [= <- <-].
Qed.

(** The calls of the generator, whatever it ends with. *)
Lemma stream_events_calls {world : Type} (py : host) (svc : service world)
    (json_dumps : message → result string) (query : string)
    (σ σ' : machine (world * list string)) (r : result (option solution)) :
  stream_events py svc json_dumps query σ = (r, σ') →
  ∃ middle tail,
    calls σ' = calls σ ++ Decompose query :: middle ++ tail
    ∧ Forall (λ c, is_generate c || is_critique c = true) middle
    ∧ (critiques middle ≤ generations middle)%nat
    ∧ (tail = [] ∨ ∃ final, tail = [Synthesize query final])
    ∧ ∀ outcome, r = Ok outcome →
        match outcome with
        | Some sol =>
            (generations middle
             ≤ MAX_CRITIQUE_ATTEMPTS * length (looped Stream (plan sol)))%nat
            ∧ tail = [Synthesize query (intermediate_results sol)]
        | None => middle = [] ∧ tail = []
        end.
Proof.
  unfold stream_events.
  destruct (decompose_problem (streaming_service svc) query σ) as [[todo|e] σ1]
    eqn:Hdec; apply remote_inv in Hdec as [Hlog1 _].
  2:{ intros Hrun. exists [], [].
      assert (calls σ' = calls σ1 ∧ ∀ outcome, r = Ok outcome → outcome = None)
        as [Hsame Hnone].
      { apply bind_inv in Hrun as [(t & σ2 & [_ ->]%lift_inv & Hrun)
                                  |(e1 & [_ ->]%lift_inv & ->)]; [|done].
        apply bind_inv in Hrun as [([] & σ3 & [= <-] & Hrun)|(e1 & [=] & _)].
        apply bind_inv in Hrun as [([] & σ4 & [= <-] & Hrun)|(e1 & [=] & _)].
        apply ret_inv in Hrun as [-> ->]. split; [done|]. by intros ? [= <-]. }
      rewrite Hsame, Hlog1. split; [done|]. split; [constructor|].
      split; [done|]. split; [by left|].
      intros outcome ->%Hnone. done. }
  intros Hrun.
  apply bind_inv in Hrun as [(plan_text & σ2 & [_ ->]%lift_inv & Hrun)
                            |(e1 & [_ ->]%lift_inv & ->)].
  2:{ exists [], []. rewrite Hlog1. split; [done|]. split; [constructor|].
      split; [done|]. split; [by left|]. done. }
  apply bind_inv in Hrun as [([] & σ3 & [= <-] & Hrun)|(e1 & [=] & _)].
  apply bind_inv in Hrun as [([finished context] & σ4 & Hsteps & Hrun)
                            |(e1 & Hsteps & ->)];
    apply stream_plan_budget in Hsteps as (middle & Hlog4 & Hall & Hgen & Hcrit);
    cbn [calls] in Hlog4.
  2:{ exists middle, []. rewrite Hlog4, Hlog1, app_nil_r, <- app_assoc.
      split; [done|]. split; [done|]. split; [done|]. split; [by left|]. done. }
  apply bind_inv in Hrun as [(answer & σ5 & Hsyn & Hrun)|(e1 & Hsyn & ->)];
    apply synthesize_calls in Hsyn as Hlog5.
  2:{ exists middle, [Synthesize query context].
      rewrite Hlog5, Hlog4, Hlog1, <- !app_assoc.
      split; [done|]. split; [done|]. split; [done|]. split; [right; eauto|]. done. }
  exists middle, [Synthesize query context].
  assert (calls σ' = calls σ5
          ∧ ∀ outcome, r = Ok outcome →
              outcome = Some (Solution todo finished answer context))
    as [Hsame Hsol].
  { apply bind_inv in Hrun as [(final_text & σ6 & [_ ->]%lift_inv & Hrun)
                              |(e1 & [_ ->]%lift_inv & ->)]; [|done].
    apply bind_inv in Hrun as [([] & σ7 & [= <-] & Hrun)|(e1 & [=] & _)].
    apply bind_inv in Hrun as [([] & σ8 & [= <-] & Hrun)|(e1 & [=] & _)].
    apply ret_inv in Hrun as [-> ->]. split; [done|]. by intros ? [= <-]. }
  rewrite Hsame, Hlog5, Hlog4, Hlog1, <- !app_assoc.
  split; [done|]. split; [done|]. split; [done|]. split; [right; eauto|].
  intros outcome ->%Hsol. cbn [plan intermediate_results].
  by rewrite looped_stream.
Qed.

(** X6. The calls of a query, whatever its outcome. In each loop the calls
    of the steps are generation and critique calls only: at most three
    generations for each step that the loop runs, and never more critiques
    than generations. In the two blocking loops and in the generator of the
    stream the decomposition is asked for once, first, then come the calls
    of the steps, and the synthesis is asked for at most once, as the last
    call. A blocking query that returns has asked for the synthesis exactly
    once, with the final context. So has a generator that ends after its
    last chunk; a generator that ends after it has reported a failed
    decomposition has made that one call and asked for no synthesis. *)
Theorem query_stays_within_call_budget {world : Type} (py : host)
    (svc : service world) (v : variant) (query : string) (σ : machine world) :
  (∀ todo context,
     ∃ new, calls (run_plan py svc v query todo context σ).2 = calls σ ++ new
            ∧ within_budget (MAX_CRITIQUE_ATTEMPTS * length (looped v todo)) new)
  ∧ (v ≠ Stream →
     ∃ middle tail,
       calls (solve py svc v query σ).2
       = calls σ ++ Decompose query :: middle ++ tail
       ∧ Forall (λ c, is_generate c || is_critique c = true) middle
       ∧ (critiques middle ≤ generations middle)%nat
       ∧ (tail = [] ∨ ∃ final, tail = [Synthesize query final])
       ∧ ∀ sol, (solve py svc v query σ).1 = Ok sol →
           (generations middle
            ≤ MAX_CRITIQUE_ATTEMPTS * length (looped v (plan sol)))%nat
           ∧ tail = [Synthesize query (intermediate_results sol)])
  ∧ ∀ (json_dumps : message → result string) (out : list string),
      let run :=
        stream_events py svc json_dumps query (Machine (the_world σ, out) (calls σ)) in
      ∃ middle tail,
        calls run.2 = calls σ ++ Decompose query :: middle ++ tail
        ∧ Forall (λ c, is_generate c || is_critique c = true) middle
        ∧ (critiques middle ≤ generations middle)%nat
        ∧ (tail = [] ∨ ∃ final, tail = [Synthesize query final])
        ∧ ∀ outcome, run.1 = Ok outcome →
            match outcome with
            | Some sol =>
                (generations middle
                 ≤ MAX_CRITIQUE_ATTEMPTS * length (looped Stream (plan sol)))%nat
                ∧ tail = [Synthesize query (intermediate_results sol)]
            | None => middle = [] ∧ tail = []
            end.
Proof.
  split; [|split].
  { intros todo context.
    destruct (run_plan py svc v query todo context σ) as [r σ'] eqn:Hrun.
    by apply run_plan_budget in Hrun. }
  { intros _. rewrite solve_unfold, decompose_unfold.
    destruct (llm_decompose svc query (the_world σ)) as [[todo|e] w].
    2:{ exists [], []. cbn [snd fst calls]. split; [done|].
        split; [constructor|]. split; [done|]. split; [by left|]. done. }
    destruct (run_plan py svc v query todo ∅ _) as [[[finished context]|e] σ2] eqn:Hrun;
      apply run_plan_budget in Hrun as (middle & Hlog & Hall & Hgen & Hcrit);
      cbn [calls] in Hlog.
    2:{ exists middle, []. cbn [snd fst]. rewrite Hlog, app_nil_r, <- app_assoc.
        split; [done|]. split; [done|]. split; [done|]. split; [by left|]. done. }
    rewrite synthesize_unfold.
    destruct (llm_synthesize svc query context (the_world σ2)) as [[answer|e] w3];
      exists middle, [Synthesize query context]; cbn [snd fst calls];
      rewrite Hlog, <- !app_assoc;
      (split; [done|]); (split; [done|]); (split; [done|]);
      (split; [right; eauto|]); [|done].
    intros sol [= <-]. done. }
  intros json_dumps out run. subst run.
  destruct (stream_events py svc json_dumps query (Machine (the_world σ, out) (calls σ)))
    as [r σ'] eqn:Hrun.
  apply stream_events_calls in Hrun. exact Hrun.
Qed.

(** ** Further worked examples *)

Lemma blocking_rejection_witness :
  Web ≠ Stream
  ∧ is_ascii_text "Incorrect: 7.5 apples, not 7" = true
  ∧ ∃ tokens token x,
      Re.findall (numbers_pattern Web) "Incorrect: 7.5 apples, not 7" = Ok tokens
      ∧ last tokens = Some token
      ∧ is_decimal token = true
      ∧ py_float token = Ok (VFloat x)
      ∧ note_rejection Web "Incorrect: 7.5 apples, not 7" ∅
        = Ok (<["expected_correction" := VFloat x]>
                (<["last_feedback" := VStr "Incorrect: 7.5 apples, not 7"]> ∅)).
Proof.
  split; [done|]. split; [reflexivity|].
  exact (blocking_rejection_records_last_numeral Web "Incorrect: 7.5 apples, not 7" ∅
           ltac:(done) ltac:(reflexivity)).
Defined.

Lemma prompt_after_rejection_witness :
  ∃ context' prompt x,
    is_ascii_text "Incorrect: should be 42 not 41.5" = true
    ∧ note_rejection Stream "Incorrect: should be 42 not 41.5" ∅ = Ok context'
    ∧ build_gen_prompt "Compute 40 + 2" context' = Ok prompt
    ∧ prompt_context prompt = context'
    ∧ corrections prompt = Some (VFloat x)
    ∧ context' !! "expected_correction" = (∅ : dict) !! "expected_correction".
Proof.
  assert (note_rejection Stream "Incorrect: should be 42 not 41.5" ∅
          = Ok (<["last_feedback" := VStr "Incorrect: should be 42 not 41.5"]> ∅))
    as Hnote by (vm_compute; reflexivity).
  destruct (prompt_after_rejection Stream "Incorrect: should be 42 not 41.5"
              "Compute 40 + 2" ∅ _ ltac:(reflexivity) Hnote)
    as (prompt & Hprompt & Hctx & x & Hx & _ & Hstream).
  exists (<["last_feedback" := VStr "Incorrect: should be 42 not 41.5"]> ∅), prompt, x.
  repeat split; try done.
Defined.

Lemma named_keys_witness :
  ast_parse Example.test_host "result = step_1_result * 2"
  = Ok (Module_ [Assign [Name "result" Store]
                   (BinOp (Name "step_1_result" Load) Mult (Constant (CInt 2)))])
  ∧ safe_exec Example.test_host "result = step_1_result * 2" Example.after_first
    = safe_exec Example.test_host "result = step_1_result * 2"
        (<["expected_correction" := VInt 3]> (<["result" := VInt 1]> Example.after_first)).
Proof.
  split; [reflexivity|].
  apply (safe_exec_depends_on_named_keys Example.test_host
           "result = step_1_result * 2"
           (Module_ [Assign [Name "result" Store]
                       (BinOp (Name "step_1_result" Load) Mult (Constant (CInt 2)))]));
    [reflexivity|].
  intros id ctx Hocc Hne. apply elem_of_walk in Hocc.
  vm_compute walk in Hocc.
  repeat (apply elem_of_cons in Hocc as [Heq|Hocc]; [try discriminate|]).
  - by injection Heq as -> _.
  - injection Heq as -> _. vm_compute. reflexivity.
  - by apply elem_of_nil in Hocc.
Defined.

Lemma query_leaves_witness :
  ∃ sol,
    map fst (steps sol) = plan sol
    ∧ loop_context (intermediate_results sol)
    ∧ ∀ key x, expected_values_of (intermediate_results sol) !! key = Some x →
        ∃ n : Z, key = hint_key n
                 ∧ intermediate_results sol !! result_key n = Some x
                 ∧ is_execution_error x = false ∧ x ≠ FAILED_TO_REFINE.
Proof.
  eexists.
  eapply (query_leaves_notes_and_results Example.test_host Example.scripted Stream
            "2 + 3 * 4" (Example.start Example.third_time_lucky)).
  run.
Defined.

Lemma same_ordinal_witness :
  ∃ (finished : list (step * list attempt_data)) (context' : dict) attempts,
    finished !! 1%nat = Some (Sample.again, attempts)
    ∧ (1 ≤ length attempts ≤ MAX_CRITIQUE_ATTEMPTS)%nat
    ∧ context' !! result_key 1
      = Some (match last attempts with
              | Some a => if success a then output a else FAILED_TO_REFINE
              | None => FAILED_TO_REFINE
              end).
Proof.
  eexists _, _.
  eapply (last_step_of_an_ordinal_decides_result Example.test_host Example.scripted
            Web "q" [Example.first_step] [] Sample.again ∅ _
            (Example.start Sample.same_ordinal)).
  - run.
  - reflexivity.
  - intros s' Hs'. by apply elem_of_nil in Hs'.
Defined.

Lemma complete_plan_witness :
  ∃ fields items steps,
    decompose_reply Sample.json_loads (Sample.reply Sample.plan_text) = Ok (JObj fields)
    ∧ dict_get "plan" fields = Some (JList items)
    ∧ Forall (λ step, is_complete_step step = true) items
    ∧ read_plan_cli (JObj fields) = Ok steps
    ∧ read_plan_web (JObj fields) = Ok steps
    ∧ length steps = length items.
Proof.
  eassert (decompose_reply Sample.json_loads (Sample.reply Sample.plan_text) = Ok _)
    as Hreply by run.
  destruct (decomposition_is_a_complete_plan Sample.json_loads
              (Sample.reply Sample.plan_text) _ Hreply)
    as (fields & items & steps & Hplan & Hrest).
  exists fields, items, steps. rewrite <- Hplan. by split.
Defined.

Lemma fills_in_witness :
  ∃ items',
    decompose_reply Sample.json_loads (Sample.reply Sample.plan_text)
    = Ok (JObj [("plan", JList items'); ("note", JNull)])
    ∧ ∃ extra,
        items' !! 0%nat = Some (JObj ([("description", JStr "Add 2 and 3")] ++ extra))
        ∧ dict_get "step_num" ([("description", JStr "Add 2 and 3")] ++ extra)
          = Some (JInt 1)
        ∧ dict_get "type" ([("description", JStr "Add 2 and 3")] ++ extra)
          = Some (JStr "calculation").
Proof.
  eassert (decompose_reply Sample.json_loads (Sample.reply Sample.plan_text) = Ok _)
    as Hreply by run.
  destruct (decomposition_fills_in_by_position Sample.json_loads
              (Sample.reply Sample.plan_text) _ Sample.parsed_plan Sample.plan_text
              eq_refl eq_refl Hreply)
    as (fields & items & items' & Hparsed & Hplan & Hresult & _ & _ & Hsteps).
  injection Hparsed as <-. injection Hplan as <-.
  destruct (Hsteps 0%nat _ eq_refl) as (entries & extra & Hentries & Hfirst & Hn & Ht & _).
  injection Hentries as <-.
  exists items'. split.
  - rewrite Hreply. f_equal. exact Hresult.
  - exists extra. by repeat split.
Defined.

Lemma first_invalid_step_witness :
  reply_content (Sample.reply Sample.bad_plan_text) = Ok (JStr Sample.bad_plan_text)
  ∧ Sample.json_loads Sample.bad_plan_text = Ok (JObj Sample.parsed_bad_plan)
  ∧ decompose_reply Sample.json_loads (Sample.reply Sample.bad_plan_text)
    = Raised (Exn "Exception"
                "Failed to parse LLM response: Step 1 must be a dictionary").
Proof.
  split; [reflexivity|]. split; [reflexivity|].
  refine (proj2 (first_invalid_step_fails_decomposition Sample.json_loads
                   (Sample.reply Sample.bad_plan_text) Sample.bad_plan_text
                   Sample.parsed_bad_plan _ eq_refl eq_refl eq_refl)
                1%nat (JStr "then double it") eq_refl _ eq_refl).
  by repeat constructor.
Defined.

Lemma checked_plan_witness :
  ∃ plan, check_plan Sample.parsed_plan = Ok plan ∧ check_plan plan = Ok plan.
Proof.
  eexists. split; [run|].
  apply (checking_a_checked_plan_changes_nothing Sample.parsed_plan).
  vm_compute. reflexivity.
Defined.

Lemma never_retried_witness :
  (∀ code, 400 ≤ code < 600 → Sample.response_ok code = false)
  ∧ _call_llm "openai/gpt-4.1" "openai/gpt-4o-mini" Sample.response_ok Sample.busy
      JNull None (Wire tt [])
    = (Raised (Exn "HTTPError" "503 Server Error: Service Unavailable"),
       Wire tt [Posted "openai/gpt-4.1"]).
Proof.
  assert (∀ code, 400 ≤ code < 600 → Sample.response_ok code = false) as Hfalsy.
  { intros code Hcode. unfold Sample.response_ok. lia. }
  split; [exact Hfalsy|].
  exact (falsy_error_responses_are_never_retried "openai/gpt-4.1" "openai/gpt-4o-mini"
           Sample.response_ok Sample.busy JNull None (Wire tt []) Hfalsy).
Defined.

Lemma view_witness :
  (∀ fields s,
     Ok (JObj [("query", JStr "  2 + 3 * 4 ")]) = Ok (JObj fields) →
     dict_get "query" fields = Some (JStr s) → is_ascii_text s = true)
  ∧ query_of (JObj [("query", JStr "  2 + 3 * 4 ")]) = Ok "2 + 3 * 4"
  ∧ ∃ sol σ',
      solve_view Example.test_host Example.scripted Sample.encodable
        (Ok (JObj [("query", JStr "  2 + 3 * 4 ")]))
        (Example.start Example.accepts_first)
      = (Ok (Response (SolutionBody "2 + 3 * 4" sol) 200), σ').
Proof.
  assert (∀ fields s,
            Ok (JObj [("query", JStr "  2 + 3 * 4 ")]) = Ok (JObj fields) →
            dict_get "query" fields = Some (JStr s) → is_ascii_text s = true)
    as Hascii by (by intros fields s [= <-] [= <-]).
  split; [exact Hascii|].
  assert (query_of (JObj [("query", JStr "  2 + 3 * 4 ")]) = Ok "2 + 3 * 4")
    as Hquery by reflexivity.
  split; [exact Hquery|].
  eassert (solve_query_with_steps Example.test_host Example.scripted "2 + 3 * 4"
             (Example.start Example.accepts_first) = (Ok _, _)) as Hsol by run.
  pose proof (view_answers_400_200_or_500 Example.test_host Example.scripted
                Sample.encodable (Ok (JObj [("query", JStr "  2 + 3 * 4 ")]))
                (Example.start Example.accepts_first) Hascii) as Hview.
  cbv beta iota in Hview. rewrite Hquery in Hview.
  lazy beta iota delta [String.eqb] in Hview.
  destruct Hview as [Hview _]. rewrite Hsol in Hview.
  eexists _, _. exact Hview.
Defined.

Lemma failed_decomposition_witness :
  stream_events Example.test_host Example.scripted Sample.encode "q"
    (Sample.stream_start Sample.no_plan)
  = (Ok None,
     Machine (Sample.no_plan,
              [sse "error: Failed to decompose problem: 503 Server Error"; DONE])
             [Decompose "q"]).
Proof.
  exact (proj1 (stream_reports_failed_decomposition Example.test_host Example.scripted
                  Sample.encode "q" _ (Sample.stream_start Sample.no_plan) _ _
                  eq_refl eq_refl)).
Defined.

Lemma finished_stream_witness :
  ∃ sol (σ' : machine (Example.script * list string)) plan_text texts final_text,
    Sample.encode (PlanMessage (plan sol)) = Ok plan_text
    ∧ dumped Sample.encode (attempt_messages (steps sol)) texts
    ∧ Sample.encode (FinalMessage (final_answer sol)) = Ok final_text
    ∧ chunks σ'
      = chunks (Sample.stream_start Example.third_time_lucky)
        ++ sse plan_text :: map sse texts ++ [sse final_text; DONE]
    ∧ (length texts ≤ MAX_CRITIQUE_ATTEMPTS * length (plan sol))%nat
    ∧ solve_query_stream Example.test_host Example.scripted "2 + 3 * 4"
        (without_chunks (Sample.stream_start Example.third_time_lucky))
      = (Ok sol, without_chunks σ').
Proof.
  eexists _, _.
  eapply (finished_stream_chunks Example.test_host Example.scripted Sample.encode
            "2 + 3 * 4" (Sample.stream_start Example.third_time_lucky)).
  run.
Defined.

Lemma broken_stream_witness :
  ∃ σ' : machine (Example.script * list string),
    chunks σ' = chunks (Sample.stream_start Example.critique_fails)
    ∨ ∃ todo plan_text messages texts,
        Sample.encode (PlanMessage todo) = Ok plan_text
        ∧ dumped Sample.encode messages texts
        ∧ Forall (λ m, is_attempt_message m = true) messages
        ∧ chunks σ'
          = chunks (Sample.stream_start Example.critique_fails)
            ++ sse plan_text :: map sse texts.
Proof.
  eexists.
  eapply (broken_stream_ends_without_notice Example.test_host Example.scripted
            Sample.encode "2 + 3 * 4" (Sample.stream_start Example.critique_fails)).
  run.
Defined.

Lemma other_step_types_witness :
  run_step Example.test_host Example.scripted Cli "q" Sample.last_step ∅
    (Example.start Sample.with_synthesis)
  = (Ok ([], ∅), Example.start Sample.with_synthesis)
  ∧ run_step Example.test_host Example.scripted Web "q" Sample.last_step ∅
      (Example.start Sample.with_synthesis)
    = (Ok ([], ∅), Example.start Sample.with_synthesis)
  ∧ ∀ attempts context' σ',
      run_step Example.test_host Example.scripted Stream "q" Sample.last_step ∅
        (Example.start Sample.with_synthesis)
      = (Ok (attempts, context'), σ') →
      (1 ≤ length attempts ≤ MAX_CRITIQUE_ATTEMPTS)%nat
      ∧ context' !! result_key (step_num Sample.last_step)
        = Some (match last attempts with
                | Some a => if success a then output a else FAILED_TO_REFINE
                | None => FAILED_TO_REFINE
                end)
      ∧ ∃ p more,
          calls σ' = calls (Example.start Sample.with_synthesis) ++ Generate p :: more.
Proof.
  apply (other_step_types_loop_only_in_stream Example.test_host Example.scripted "q"
           Sample.last_step ∅ (Example.start Sample.with_synthesis)); done.
Defined.

(** The second case of X2 is met: a feedback that holds a backslash followed
    by the letter d fails the streaming loop. *)
Lemma streaming_rejection_can_fail :
  note_rejection Stream "Incorrect: \d is wrong" ∅
  = Raised (Exn "ValueError" "could not convert string to float: '\\d'")
  ∧ note_rejection Web "Incorrect: \d is wrong" ∅
    = Ok (<["last_feedback" := VStr "Incorrect: \d is wrong"]> ∅).
Proof. split; vm_compute; reflexivity. Qed.

(** The longest call of X15: with response objects that count as true, three
    posts that are answered with status 503. *)
Lemma three_posts_example :
  _call_llm "openai/gpt-4.1" "openai/gpt-4o-mini" (λ _, true) Sample.busy JNull
    None (Wire tt [])
  = (Raised (Exn "HTTPError" "503 Server Error: Service Unavailable"),
     Wire tt [Posted "openai/gpt-4.1"; Slept 2; Posted "openai/gpt-4o-mini";
              Slept 4; Posted "openai/gpt-4o-mini"]).
Proof. reflexivity. Qed.
